(** * Event browser and pipeline-state viewer of qrenderdoc

    A shallow embedding of the event/draw-call indexing and navigation
    logic of [qrenderdoc/Windows/EventBrowser.cpp] and of the row filter
    of [qrenderdoc/Windows/PipelineState/D3D12PipelineStateViewer.cpp].

    Conventions of the embedding:
    - [uint32_t] event IDs are [N]; the only places where the width of the
      type matters ([(int)eid] and [~0U]) are written out with [Z];
    - an [RDTreeWidgetItem *] is a path of child indices from the top-level
      items of the tree widget down, paired with the item it points to while
      the tree is only read;
    - dereferencing a null item pointer is [None] in the [option] monad;
    - marker colours, durations and fonts are left out: they are
      floating-point or purely visual and no property below reads them. *)

From stdpp Require Import base option list numbers strings pretty sorting.

Local Open Scope string_scope.
Local Open Scope list_scope.
Local Open Scope N_scope.

#[local] Unset Elimination Schemes.

(** ** Data model *)

(** [DrawcallDescription] of the replay API, restricted to the fields the
    event browser reads. *)
Inductive DrawcallDescription : Type := mkDraw {
  eventID : N;
  drawcallID : N;
  name : string;
  flags : N;
  children : list DrawcallDescription
}.

(** Icons a row can show in its name column. *)
Inductive Icon : Type :=
| NoIcon
| flag_green
| asterisk_orange
| find_glass.

(** [struct EventItemTag], without its [duration]. *)
Record EventItemTag : Type := mkTag {
  EID : N;
  lastEID : N;
  current : bool;
  find : bool;
  bookmark : bool
}.

(** [EventItemTag()] *)
Definition EventItemTag0 : EventItemTag := mkTag 0 0 false false false.
(** [EventItemTag(eventID)] *)
Definition EventItemTag1 (e : N) : EventItemTag := mkTag e e false false false.
(** [EventItemTag(eventID, lastEventID)] *)
Definition EventItemTag2 (e l : N) : EventItemTag := mkTag e l false false false.

(** [RDTreeWidgetItem]: column texts, the tag, the icon, the child rows. *)
Inductive RDTreeWidgetItem : Type := mkItem {
  text : list string;
  tag : EventItemTag;
  icon : Icon;
  childItems : list RDTreeWidgetItem
}.

#[local] Set Elimination Schemes.

Definition COL_NAME : nat := 0%nat.
Definition COL_EID : nat := 1%nat.
Definition COL_DURATION : nat := 2%nat.

(** [new RDTreeWidgetItem({...})]: a row without tag, icon or children. *)
Definition newItem (cols : list string) : RDTreeWidgetItem :=
  mkItem cols EventItemTag0 NoIcon [].

(** The rows of the browser have three columns; on a shorter list of
    texts the update below would change nothing. *)
Definition setText (col : nat) (s : string) (it : RDTreeWidgetItem) : RDTreeWidgetItem :=
  mkItem (<[col := s]> (text it)) (tag it) (icon it) (childItems it).

Definition setTag (t : EventItemTag) (it : RDTreeWidgetItem) : RDTreeWidgetItem :=
  mkItem (text it) t (icon it) (childItems it).

Definition setIcon (i : Icon) (it : RDTreeWidgetItem) : RDTreeWidgetItem :=
  mkItem (text it) (tag it) i (childItems it).

Definition addChild (parent child : RDTreeWidgetItem) : RDTreeWidgetItem :=
  mkItem (text parent) (tag parent) (icon parent) (childItems parent ++ [child]).

Definition childCount (it : RDTreeWidgetItem) : nat := length (childItems it).

(** [item->text(col)] *)
Definition textAt (col : nat) (it : RDTreeWidgetItem) : string :=
  default "" (text it !! col).

(** ** Building the rows: [EventBrowser::AddDrawcalls] *)

(** [flags & mask] used as a condition. *)
Definition has_flag (f mask : N) : bool := negb (N.land f mask =? 0).

(** [QFormatStr("%1-%2").arg(eid).arg(lastEID)] *)
Definition range_text (e l : N) : string := pretty e +:+ "-" +:+ pretty l.

Section Building.

(** The enumerator [DrawFlags::SetMarker] is declared in the replay API
    header; its bit pattern is a parameter here. *)
Variable SetMarker : N.

(** One iteration of the loop of [AddDrawcalls], for [d = draws[i]] with
    [rest] the draws after index [i]: the finished row and the value the
    loop variable [lastEID] holds at the end of the iteration.  The inner
    [fix] is the recursive call [AddDrawcalls(child, d.children)]. *)
Fixpoint AddDrawcall (d : DrawcallDescription) (rest : list DrawcallDescription)
  : RDTreeWidgetItem * N :=
  let child := newItem [name d; pretty (eventID d); "0.0"] in
  let '(child, lastEID) :=
    (fix loop (parent : RDTreeWidgetItem) (lastEID : N)
         (draws : list DrawcallDescription) {struct draws} : RDTreeWidgetItem * N :=
       match draws with
       | [] => (parent, lastEID)
       | d' :: rest' =>
           let '(c, l) := AddDrawcall d' rest' in
           loop (addChild parent c) l rest'
       end) child 0 (children d) in
  let child :=
    if eventID d <? lastEID
    then setText COL_EID (range_text (eventID d) lastEID) child
    else child in
  let lastEID :=
    if lastEID =? 0 then
      match rest with
      | next :: _ => if has_flag (flags d) SetMarker then eventID next else eventID d
      | [] => eventID d
      end
    else lastEID in
  (setTag (EventItemTag2 (eventID d) lastEID) child, lastEID).

(** The loop of [AddDrawcalls] from a given value of [lastEID]. *)
Fixpoint AddDrawcalls_loop (parent : RDTreeWidgetItem) (lastEID : N)
    (draws : list DrawcallDescription) : RDTreeWidgetItem * N :=
  match draws with
  | [] => (parent, lastEID)
  | d :: rest =>
      let '(c, l) := AddDrawcall d rest in
      AddDrawcalls_loop (addChild parent c) l rest
  end.

(** [uint EventBrowser::AddDrawcalls(parent, draws)]: the parent with the
    new rows appended, and the returned [lastEID]. *)
Definition AddDrawcalls (parent : RDTreeWidgetItem) (draws : list DrawcallDescription)
  : RDTreeWidgetItem * N :=
  AddDrawcalls_loop parent 0 draws.

End Building.

(** ** Item pointers *)

(** A path of child indices; the first index selects the top-level item. *)
Definition Path : Type := list nat.

(** A non-null [RDTreeWidgetItem *] while the tree is read: where the item
    is and what it holds. *)
Definition NodeRef : Type := (Path * RDTreeWidgetItem)%type.

(** The item reached from [it] by following [p]. *)
Fixpoint itemAt (it : RDTreeWidgetItem) (p : Path) : option RDTreeWidgetItem :=
  match p with
  | [] => Some it
  | i :: p' => childItems it !! i ≫= λ c, itemAt c p'
  end.

(** The item a path points to in the list of top-level items. *)
Definition widgetItemAt (items : list RDTreeWidgetItem) (p : Path)
  : option RDTreeWidgetItem :=
  match p with
  | [] => None
  | i :: p' => items !! i ≫= λ it, itemAt it p'
  end.

(** Writing through an item pointer: [f] applied to the item at [p]. *)
Fixpoint modifyAt (f : RDTreeWidgetItem → RDTreeWidgetItem) (p : Path)
    (it : RDTreeWidgetItem) {struct p} : RDTreeWidgetItem :=
  match p with
  | [] => f it
  | i :: p' =>
      mkItem (text it) (tag it) (icon it) (alter (modifyAt f p') i (childItems it))
  end.

Definition widgetModifyAt (f : RDTreeWidgetItem → RDTreeWidgetItem) (p : Path)
    (items : list RDTreeWidgetItem) : list RDTreeWidgetItem :=
  match p with
  | [] => items
  | i :: p' => alter (modifyAt f p') i items
  end.

(** ** The browser's state *)

(** What the browser reads from and writes to [ICaptureContext]. *)
Record CaptureContext : Type := mkCtx {
  LogLoaded : bool;
  CurSelectedEvent : N;
  CurEvent : N;
  CurDrawcalls : list DrawcallDescription;
  frameNumber : N
}.

(** [m_Ctx.SetEventID({this}, selectedEventID, eventID)]: the browser itself
    is excluded from the notification, so only the context changes. *)
Definition SetEventID (sel ev : N) (c : CaptureContext) : CaptureContext :=
  mkCtx (LogLoaded c) sel ev (CurDrawcalls c) (frameNumber c).

(** A bookmark button: its caption, its ["eid"] property, its checked state. *)
Record QToolButton : Type := mkButton {
  but_text : string;
  but_eid : N;
  but_checked : bool
}.

(** The members of [EventBrowser] and the widgets of its [ui] that the
    modelled functions touch.  [events_*] is the tree widget [ui->events]. *)
Record EventBrowser : Type := mkBrowser {
  m_Ctx : CaptureContext;
  events_items : list RDTreeWidgetItem;
  events_current : option Path;
  events_selected : option Path;
  events_expanded : list Path;
  m_Bookmarks : list N;
  m_BookmarkButtons : list QToolButton;
  bookmarkStrip_visible : bool;
  findEvent_text : string;
  findEvent_styleSheet : string;
  controls_enabled : bool
}.

Definition with_ctx (c : CaptureContext) (b : EventBrowser) : EventBrowser :=
  mkBrowser c (events_items b) (events_current b) (events_selected b)
    (events_expanded b) (m_Bookmarks b) (m_BookmarkButtons b)
    (bookmarkStrip_visible b) (findEvent_text b) (findEvent_styleSheet b)
    (controls_enabled b).

Definition with_items (l : list RDTreeWidgetItem) (b : EventBrowser) : EventBrowser :=
  mkBrowser (m_Ctx b) l (events_current b) (events_selected b)
    (events_expanded b) (m_Bookmarks b) (m_BookmarkButtons b)
    (bookmarkStrip_visible b) (findEvent_text b) (findEvent_styleSheet b)
    (controls_enabled b).

Definition with_current (c : option Path) (b : EventBrowser) : EventBrowser :=
  mkBrowser (m_Ctx b) (events_items b) c (events_selected b)
    (events_expanded b) (m_Bookmarks b) (m_BookmarkButtons b)
    (bookmarkStrip_visible b) (findEvent_text b) (findEvent_styleSheet b)
    (controls_enabled b).

Definition with_selected (c : option Path) (b : EventBrowser) : EventBrowser :=
  mkBrowser (m_Ctx b) (events_items b) (events_current b) c
    (events_expanded b) (m_Bookmarks b) (m_BookmarkButtons b)
    (bookmarkStrip_visible b) (findEvent_text b) (findEvent_styleSheet b)
    (controls_enabled b).

Definition with_expanded (e : list Path) (b : EventBrowser) : EventBrowser :=
  mkBrowser (m_Ctx b) (events_items b) (events_current b) (events_selected b)
    e (m_Bookmarks b) (m_BookmarkButtons b)
    (bookmarkStrip_visible b) (findEvent_text b) (findEvent_styleSheet b)
    (controls_enabled b).

Definition with_bookmarks (l : list N) (bs : list QToolButton) (b : EventBrowser)
  : EventBrowser :=
  mkBrowser (m_Ctx b) (events_items b) (events_current b) (events_selected b)
    (events_expanded b) l bs
    (bookmarkStrip_visible b) (findEvent_text b) (findEvent_styleSheet b)
    (controls_enabled b).

Definition with_stripVisible (v : bool) (b : EventBrowser) : EventBrowser :=
  mkBrowser (m_Ctx b) (events_items b) (events_current b) (events_selected b)
    (events_expanded b) (m_Bookmarks b) (m_BookmarkButtons b)
    v (findEvent_text b) (findEvent_styleSheet b) (controls_enabled b).

Definition with_styleSheet (s : string) (b : EventBrowser) : EventBrowser :=
  mkBrowser (m_Ctx b) (events_items b) (events_current b) (events_selected b)
    (events_expanded b) (m_Bookmarks b) (m_BookmarkButtons b)
    (bookmarkStrip_visible b) (findEvent_text b) s (controls_enabled b).

Definition with_enabled (e : bool) (b : EventBrowser) : EventBrowser :=
  mkBrowser (m_Ctx b) (events_items b) (events_current b) (events_selected b)
    (events_expanded b) (m_Bookmarks b) (m_BookmarkButtons b)
    (bookmarkStrip_visible b) (findEvent_text b) (findEvent_styleSheet b) e.

(** [ui->events->topLevelItem(i)]: a null pointer when out of range. *)
Definition topLevelItem (b : EventBrowser) (i : nat) : option RDTreeWidgetItem :=
  events_items b !! i.

(** The style sheet [Find] sets on the find box when nothing was found. *)
Definition RED : string := "QLineEdit{background-color:#ff0000;}".

(** ** Icons and the current row *)

(** [EventBrowser::RefreshIcon] *)
Definition RefreshIcon (t : EventItemTag) (it : RDTreeWidgetItem) : RDTreeWidgetItem :=
  if current t then setIcon flag_green it
  else if bookmark t then setIcon asterisk_orange it
  else if find t then setIcon find_glass it
  else setIcon NoIcon it.

Definition set_current (v : bool) (t : EventItemTag) : EventItemTag :=
  mkTag (EID t) (lastEID t) v (find t) (bookmark t).

Definition set_find (v : bool) (t : EventItemTag) : EventItemTag :=
  mkTag (EID t) (lastEID t) (current t) v (bookmark t).

Definition set_bookmark (v : bool) (t : EventItemTag) : EventItemTag :=
  mkTag (EID t) (lastEID t) (current t) (find t) v.

(** The three statements [tag.x = v; n->setTag(tag); RefreshIcon(n, tag)]. *)
Definition retag (f : EventItemTag → EventItemTag) (it : RDTreeWidgetItem)
  : RDTreeWidgetItem :=
  let t := f (tag it) in RefreshIcon t (setTag t it).

(** [EventBrowser::highlightBookmarks] *)
Definition highlightBookmarks (b : EventBrowser) : EventBrowser :=
  with_bookmarks (m_Bookmarks b)
    (map (λ but, mkButton (but_text but) (but_eid but)
                   (bool_decide (but_eid but = CurEvent (m_Ctx b))))
         (m_BookmarkButtons b)) b.

(** [EventBrowser::on_events_currentItemChanged(current, previous)] *)
Definition on_events_currentItemChanged (cur prev : option Path) (b : EventBrowser)
  : EventBrowser :=
  let b :=
    match prev with
    | Some p => with_items (widgetModifyAt (retag (set_current false)) p (events_items b)) b
    | None => b
    end in
  match cur with
  | None => b
  | Some p =>
      let b := with_items (widgetModifyAt (retag (set_current true)) p (events_items b)) b in
      match widgetItemAt (events_items b) p with
      | Some it =>
          highlightBookmarks
            (with_ctx (SetEventID (EID (tag it)) (lastEID (tag it)) (m_Ctx b)) b)
      | None => b
      end
  end.

(** [ui->events->setCurrentItem(node)].  The widget's code is not among the
    source files: it is taken to record the current item and, when that
    changes, to emit [currentItemChanged], to which the slot above is
    connected by name. *)
Definition setCurrentItem (p : Path) (b : EventBrowser) : EventBrowser :=
  if decide (events_current b = Some p) then b
  else on_events_currentItemChanged (Some p) (events_current b)
         (with_current (Some p) b).

(** [ui->events->setSelectedItem(node)]: taken to make [node] the row that
    [selectedItem()] returns. *)
Definition setSelectedItem (p : Path) (b : EventBrowser) : EventBrowser :=
  with_selected (Some p) b.

(** [ui->events->expandItem(node)] *)
Definition expandItem (p : Path) (b : EventBrowser) : EventBrowser :=
  if decide (p ∈ events_expanded b) then b
  else with_expanded (p :: events_expanded b) b.

(** The loop of [ExpandNode]: [rp] is the path of [node] read from the
    node upwards, so [node->parent()] is its tail and the empty path is the
    null parent of a top-level item. *)
Fixpoint ExpandNode_loop (rp : list nat) (b : EventBrowser) : EventBrowser :=
  match rp with
  | [] => b
  | _ :: up => ExpandNode_loop up (expandItem (reverse rp) b)
  end.

(** [EventBrowser::ExpandNode]; scrolling the view is not modelled. *)
Definition ExpandNode (p : Path) (b : EventBrowser) : EventBrowser :=
  ExpandNode_loop (reverse p) b.

(** ** Looking up the row of an event: [FindEventNode], [SelectEvent] *)

(** [bool EventBrowser::FindEventNode(found, parent, eventID)], with [found]
    passed in and out and [ppath] the path of [parent].

    The source loops [i] from the last child down to 0.  The inner [fix]
    walks the child list from the front and handles the children after
    [n] before [n] itself, which is that order; its result [(found, true)]
    stands for [return true] and [(found, false)] for reaching the next
    iteration (or the final [return false]). *)
Fixpoint FindEventNode (found : option NodeRef) (parent : RDTreeWidgetItem)
    (ppath : Path) (eventID : N) {struct parent} : option NodeRef * bool :=
  (fix loop (cs : list RDTreeWidgetItem) (i : nat) (found : option NodeRef)
       {struct cs} : option NodeRef * bool :=
     match cs with
     | [] => (found, false)
     | n :: later =>
         let '(found, ret) := loop later (S i) found in
         if ret then (found, true)
         else
           let nEID := lastEID (tag n) in
           let fEID := match found with Some (_, f) => lastEID (tag f) | None => 0 end in
           let found :=
             if (eventID <=? nEID) && (bool_decide (found = None) || (nEID <=? fEID))
             then Some (ppath ++ [i], n)
             else found in
           if (nEID =? eventID) && bool_decide (childCount n = 0%nat)
           then (found, true)
           else if bool_decide (0 < childCount n)%nat
                then FindEventNode found n (ppath ++ [i]) eventID
                else (found, false)
     end) (childItems parent) 0%nat found.

(** [bool EventBrowser::SelectEvent(eventID)]: the new browser and the
    result, or [None] when the top-level item is dereferenced while the
    tree is empty. *)
Definition SelectEvent (eventID : N) (b : EventBrowser) : option (EventBrowser * bool) :=
  if negb (LogLoaded (m_Ctx b)) then Some (b, false)
  else
    root ← topLevelItem b 0;
    match (FindEventNode None root [0%nat] eventID).1 with
    | Some (p, _) =>
        Some (ExpandNode p (setSelectedItem p (setCurrentItem p b)), true)
    | None => Some (b, false)
    end.

(** ** Searching by name: [FindEvent], [Find] *)

(** ASCII case folding and substring test standing for
    [QString::contains(filter, Qt::CaseInsensitive)] on ASCII text. *)
Definition fold_ascii (c : Ascii.ascii) : Ascii.ascii :=
  let n := Ascii.nat_of_ascii c in
  if bool_decide (65 ≤ n ≤ 90)%nat then Ascii.ascii_of_nat (n + 32) else c.

Fixpoint fold_case (s : string) : string :=
  match s with
  | EmptyString => EmptyString
  | String c s' => String (fold_ascii c) (fold_case s')
  end.

Fixpoint contains_cs (s sub : string) : bool :=
  String.prefix sub s ||
  match s with
  | EmptyString => false
  | String _ s' => contains_cs s' sub
  end.

Definition contains_ci (s sub : string) : bool :=
  contains_cs (fold_case s) (fold_case sub).

(** [(int)eid] for a 32-bit unsigned [eid]. *)
Definition to_int (n : N) : Z :=
  let z := (Z.of_N n `mod` 2 ^ 32)%Z in
  if (z <? 2 ^ 31)%Z then z else (z - 2 ^ 32)%Z.

(** [~0U] *)
Definition UINT_MAX : N := 2 ^ 32 - 1.

(** The condition [matchesAfter] of [FindEvent]. *)
Definition matchesAfter (forward : bool) (after eid : N) : bool :=
  (forward && (after <? eid)) || (negb forward && (eid <? after)).

(** [int EventBrowser::FindEvent(parent, filter, after, forward)] for a
    non-null [parent].  The inner [fix] is the [for] loop: [Some v] is
    [return v] from inside the loop, [None] is running off its end.  With
    [forward] the body of [n] runs before the later children, otherwise
    after them. *)
Fixpoint FindEvent_in (parent : RDTreeWidgetItem) (filter : string) (after : N)
    (forward : bool) {struct parent} : Z :=
  default (-1)%Z
    ((fix loop (cs : list RDTreeWidgetItem) {struct cs} : option Z :=
        match cs with
        | [] => None
        | n :: later =>
            let body : option Z :=
              let eid := lastEID (tag n) in
              if matchesAfter forward after eid && contains_ci (textAt COL_NAME n) filter
              then Some (to_int eid)
              else if bool_decide (0 < childCount n)%nat
                   then let found := FindEvent_in n filter after forward in
                        if (0 <? found)%Z then Some found else None
                   else None in
            if forward
            then match body with Some v => Some v | None => loop later end
            else match loop later with Some v => Some v | None => body end
        end) (childItems parent)).

(** The four-argument overload, with its null check. *)
Definition FindEvent_node (parent : option RDTreeWidgetItem) (filter : string)
    (after : N) (forward : bool) : Z :=
  match parent with
  | None => (-1)%Z
  | Some p => FindEvent_in p filter after forward
  end.

(** [int EventBrowser::FindEvent(filter, after, forward)] *)
Definition FindEvent (b : EventBrowser) (filter : string) (after : N) (forward : bool) : Z :=
  if negb (LogLoaded (m_Ctx b)) then 0%Z
  else FindEvent_node (topLevelItem b 0) filter after forward.

(** [void EventBrowser::Find(forward)]; [None] when a null or dangling
    item pointer is dereferenced. *)
Definition Find (forward : bool) (b : EventBrowser) : option EventBrowser :=
  if bool_decide (findEvent_text b = "") then Some b
  else
    curEID ← match events_selected b with
             | Some p => (λ node, lastEID (tag node)) <$> widgetItemAt (events_items b) p
             | None => Some (CurEvent (m_Ctx b))
             end;
    let eid := FindEvent b (findEvent_text b) curEID forward in
    if (0 <=? eid)%Z then
      r ← SelectEvent (Z.to_N eid) b;
      Some (with_styleSheet "" r.1)
    else
      let eid := FindEvent b (findEvent_text b) (if forward then 0 else UINT_MAX) forward in
      if (0 <=? eid)%Z then
        r ← SelectEvent (Z.to_N eid) b;
        Some (with_styleSheet "" r.1)
      else Some (with_styleSheet RED b).

(** ** Bookmarks *)

(** [QList::indexOf]: the first index holding [x], or -1. *)
Fixpoint indexOf (l : list N) (x : N) : Z :=
  match l with
  | [] => (-1)%Z
  | y :: l' =>
      if bool_decide (y = x) then 0%Z
      else let r := indexOf l' x in if (r <? 0)%Z then (-1)%Z else (r + 1)%Z
  end.

(** [EventBrowser::clearBookmarks] *)
Definition clearBookmarks (b : EventBrowser) : EventBrowser :=
  with_stripVisible false (with_bookmarks [] [] b).

(** [EventBrowser::toggleBookmark(EID)]; [None] when the tree is empty, since
    [FindEventNode] dereferences the top-level item. *)
Definition toggleBookmark (eid : N) (b : EventBrowser) : option EventBrowser :=
  let index := indexOf (m_Bookmarks b) eid in
  root ← topLevelItem b 0;
  let found := (FindEventNode None root [0%nat] eid).1 in
  let b :=
    if (0 <=? index)%Z then
      let b := with_bookmarks (delete (Z.to_nat index) (m_Bookmarks b))
                 (delete (Z.to_nat index) (m_BookmarkButtons b)) b in
      match found with
      | Some (p, _) =>
          with_items (widgetModifyAt (retag (set_bookmark false)) p (events_items b)) b
      | None => b
      end
    else
      let but := mkButton (pretty eid) eid false in
      let b := with_bookmarks (m_Bookmarks b ++ [eid]) (m_BookmarkButtons b ++ [but]) b in
      let b := highlightBookmarks b in
      match found with
      | Some (p, _) =>
          with_items (widgetModifyAt (retag (set_bookmark true)) p (events_items b)) b
      | None => b
      end in
  Some (with_stripVisible (negb (bool_decide (m_BookmarkButtons b = []))) b).

(** [EventBrowser::hasBookmark(EID)] *)
Definition hasBookmark (b : EventBrowser) (eid : N) : bool :=
  bool_decide (eid ∈ m_Bookmarks b).

(** ** Opening and closing a capture *)

Section Loading.

Variable SetMarker : N.

(** [EventBrowser::OnLogfileLoaded] *)
Definition OnLogfileLoaded (b : EventBrowser) : EventBrowser :=
  let frame := newItem ["Frame #" +:+ pretty (frameNumber (m_Ctx b)); ""; ""] in
  let b := clearBookmarks b in
  let framestart := setTag EventItemTag0 (newItem ["Frame Start"; "0"; ""]) in
  let frame := addChild frame framestart in
  let '(frame, lastEID) := AddDrawcalls SetMarker frame (CurDrawcalls (m_Ctx b)) in
  let frame := setTag (EventItemTag2 0 lastEID) frame in
  let idx := length (events_items b) in
  let b := with_items (events_items b ++ [frame]) b in
  let b := expandItem [idx] b in
  let b := with_enabled true b in
  with_ctx (SetEventID lastEID lastEID (m_Ctx b)) b.

End Loading.

(** [EventBrowser::OnLogfileClosed] *)
Definition OnLogfileClosed (b : EventBrowser) : EventBrowser :=
  let b := clearBookmarks b in
  let b := with_expanded [] (with_selected None (with_current None (with_items [] b))) in
  with_enabled false b.

(** The browser as its constructor leaves it, for a given context. *)
Definition EventBrowser_new (c : CaptureContext) : EventBrowser :=
  OnLogfileClosed (clearBookmarks (mkBrowser c [] None None [] [] [] false "" "" false)).

(** ** Pipeline-state viewer: which slot rows are shown *)

Module D3D12PipelineStateViewer.

(** The two check boxes of the viewer's tool bar. *)
Record Ui : Type := mkUi {
  showDisabled : bool;
  showEmpty : bool
}.

(** [bool D3D12PipelineStateViewer::showNode(usedSlot, filledSlot)] *)
Definition showNode (ui : Ui) (usedSlot filledSlot : bool) : bool :=
  if usedSlot then true
  else if showDisabled ui && negb usedSlot && filledSlot then true
  else if showEmpty ui && negb filledSlot then true
  else false.

(** [D3D12Pipe::VB]; a [ResourceId] is a number, 0 being [ResourceId()]. *)
Record VB : Type := mkVB {
  Buffer : N;
  Stride : N;
  Offset : N
}.

Record BufferDescription : Type := mkBuffer {
  buf_name : string;
  buf_length : N
}.

(** A row of [ui->iaBuffers]: its cells, its [VBIBTag], and whether
    [setEmptyRow] and [setInactiveRow] were applied. *)
Record Row : Type := mkRow {
  cells : list string;
  tag_id : N;
  tag_offset : N;
  emptyRow : bool;
  inactiveRow : bool
}.

Section VertexBuffers.

(** [ToQStr] on a resource id and [m_Ctx.GetBuffer] are not in the source
    files and are parameters. *)
Variable ToQStr : N → string.
Variable GetBuffer : N → option BufferDescription.

(** The body of the vertex-buffer loop of [setState] for slot [i]: the row
    added to [ui->iaBuffers], if any.  The loop reads [usedVBuffers[i]]
    without a bound check; the array has 128 entries in [setState], and the
    result is [None] when [i] is outside the array, where the read has no
    defined value. *)
Definition vbufferRow (ui : Ui) (usedVBuffers : list bool) (i : nat) (v : VB)
  : option (option Row) :=
  let filledSlot := negb (Buffer v =? 0) in
  usedSlot ← usedVBuffers !! i;
  Some
    (if showNode ui usedSlot filledSlot then
       let name := "Buffer " +:+ ToQStr (Buffer v) in
       let length := 1 in
       let '(name, length) := if negb filledSlot then ("Empty", 0) else (name, length) in
       let '(name, length) :=
         match GetBuffer (Buffer v) with
         | Some buf => (buf_name buf, buf_length buf)
         | None => (name, length)
         end in
       let cols :=
         if filledSlot
         then [pretty i; name; pretty (Stride v); pretty (Offset v); pretty length; ""]
         else [pretty i; "No Buffer Set"; "-"; "-"; "-"; ""] in
       Some (mkRow cols (Buffer v) (Offset v) (negb filledSlot) (negb usedSlot))
     else None).

(** The vertex-buffer loop of [setState], from slot [i] on: the rows of
    [ui->iaBuffers] it adds, in order, which are also the entries of
    [m_VBNodes]; [None] when some slot of the loop is outside
    [usedVBuffers]. *)
Fixpoint vbufferRows (ui : Ui) (usedVBuffers : list bool) (i : nat) (vbuffers : list VB)
  : option (list Row) :=
  match vbuffers with
  | [] => Some []
  | v :: rest =>
      r ← vbufferRow ui usedVBuffers i v;
      later ← vbufferRows ui usedVBuffers (S i) rest;
      Some (match r with
            | Some r => r :: later
            | None => later
            end)
  end.

End VertexBuffers.

End D3D12PipelineStateViewer.

(** ** Vocabulary of the properties *)

(** The rows strictly below an item, in document order (a row before its
    children, siblings first to last). *)
Fixpoint rows_below (it : RDTreeWidgetItem) : list RDTreeWidgetItem :=
  flat_map (λ c, c :: rows_below c) (childItems it).

(** The order in which [FindEvent] meets the rows below an item: document
    order when [forward]; otherwise siblings last to first, each row still
    before its own children. *)
Fixpoint visit_order (forward : bool) (it : RDTreeWidgetItem) : list RDTreeWidgetItem :=
  (fix go (cs : list RDTreeWidgetItem) : list RDTreeWidgetItem :=
     match cs with
     | [] => []
     | c :: later =>
         if forward then (c :: visit_order forward c) ++ go later
         else go later ++ (c :: visit_order forward c)
     end) (childItems it).

(** A row is a hit of a search when its name contains the filter and its
    [lastEID] lies strictly beyond [after] in the search direction. *)
Definition is_hit (filter : string) (after : N) (forward : bool)
    (n : RDTreeWidgetItem) : bool :=
  matchesAfter forward after (lastEID (tag n)) && contains_ci (textAt COL_NAME n) filter.

(** The [lastEID] of a row as an [int]-valued result. *)
Definition row_eid (n : RDTreeWidgetItem) : Z := Z.of_N (lastEID (tag n)).

(** The [lastEID] of the first hit of a list of rows, or -1. *)
Definition first_hit (filter : string) (after : N) (forward : bool)
    (order : list RDTreeWidgetItem) : Z :=
  match List.find (is_hit filter after forward) order with
  | Some n => Z.of_N (lastEID (tag n))
  | None => (-1)%Z
  end.

(** The search read as a scan of the rows in document order, or in exactly
    the reverse of document order when searching backwards. *)
Definition document_order_search (root : RDTreeWidgetItem) (filter : string)
    (after : N) (forward : bool) : Z :=
  first_hit filter after forward
    (if forward then rows_below root else reverse (rows_below root)).

(** All rows below [root] have a [lastEID] that fits a non-negative [int]. *)
Definition fits_int (root : RDTreeWidgetItem) : Prop :=
  ∀ n, n ∈ rows_below root → lastEID (tag n) < 2 ^ 31.

(** Rows nested under a child of [root] have a non-zero [lastEID]. *)
Definition nested_nonzero (root : RDTreeWidgetItem) : Prop :=
  ∀ c n, c ∈ childItems root → n ∈ rows_below c → 0 < lastEID (tag n).

(** The event IDs of a draw and of everything below it, in traversal order. *)
Fixpoint preorder_eids (d : DrawcallDescription) : list N :=
  eventID d :: flat_map preorder_eids (children d).

(** Event IDs increase strictly along the traversal of the draw list. *)
Definition increasing (draws : list DrawcallDescription) : Prop :=
  StronglySorted N.lt (flat_map preorder_eids draws).

(** The [lastEID] of a childless draw [d] followed by the siblings [rest]. *)
Definition childless_lastEID (SetMarker : N) (d : DrawcallDescription)
    (rest : list DrawcallDescription) : N :=
  match rest with
  | next :: _ => if has_flag (flags d) SetMarker then eventID next else eventID d
  | [] => eventID d
  end.

(** The row [r] stands for the draw [d] followed by the siblings [rest]:
    the pair satisfies [P], and the child rows pair up with the child
    draws in the same way, index by index. *)
Fixpoint row_matches (P : DrawcallDescription → list DrawcallDescription →
                          RDTreeWidgetItem → Prop)
    (d : DrawcallDescription) (rest : list DrawcallDescription)
    (r : RDTreeWidgetItem) {struct d} : Prop :=
  P d rest r ∧
  (fix go (ds : list DrawcallDescription) (rs : list RDTreeWidgetItem) {struct ds} : Prop :=
     match ds, rs with
     | [], [] => True
     | d' :: ds', r' :: rs' => row_matches P d' ds' r' ∧ go ds' rs'
     | _, _ => False
     end) (children d) (childItems r).

(** [rows] pairs up with [draws], index by index and level by level. *)
Fixpoint rows_match (P : DrawcallDescription → list DrawcallDescription →
                         RDTreeWidgetItem → Prop)
    (draws : list DrawcallDescription) (rows : list RDTreeWidgetItem) {struct draws} : Prop :=
  match draws, rows with
  | [], [] => True
  | d :: rest, r :: rs => row_matches P d rest r ∧ rows_match P rest rs
  | _, _ => False
  end.

(** What a row records of its draw according to the text of the property:
    the range is shown exactly when [lastEID] exceeds [EID]. *)
Definition row_as_stated (SetMarker : N) (d : DrawcallDescription)
    (rest : list DrawcallDescription) (r : RDTreeWidgetItem) : Prop :=
  EID (tag r) = eventID d ∧
  EID (tag r) ≤ lastEID (tag r) ∧
  (children d = [] → lastEID (tag r) = childless_lastEID SetMarker d rest) ∧
  (textAt COL_EID r = range_text (EID (tag r)) (lastEID (tag r))
   ↔ EID (tag r) < lastEID (tag r)).

(** What a row records of its draw: the range is shown exactly for a draw
    with children; a childless draw shows its own event ID. *)
Definition row_as_built (SetMarker : N) (d : DrawcallDescription)
    (rest : list DrawcallDescription) (r : RDTreeWidgetItem) : Prop :=
  EID (tag r) = eventID d ∧
  EID (tag r) ≤ lastEID (tag r) ∧
  (children d = [] → lastEID (tag r) = childless_lastEID SetMarker d rest) ∧
  (textAt COL_EID r = range_text (EID (tag r)) (lastEID (tag r))
   ↔ EID (tag r) < lastEID (tag r) ∧ children d ≠ []) ∧
  (children d = [] → textAt COL_EID r = pretty (eventID d)).

(** The name and event ID of a draw or row, and the same of its children. *)
#[local] Unset Elimination Schemes.
Inductive Shape : Type :=
| ShapeNode (label : string) (eid : N) (kids : list Shape).
#[local] Set Elimination Schemes.

Fixpoint draw_shape (d : DrawcallDescription) : Shape :=
  ShapeNode (name d) (eventID d) (List.map draw_shape (children d)).

Fixpoint row_shape (r : RDTreeWidgetItem) : Shape :=
  ShapeNode (textAt COL_NAME r) (EID (tag r)) (List.map row_shape (childItems r)).

(** The bookmark list and the button list agree, and the strip shows
    exactly when there is a bookmark. *)
Definition bookmarks_consistent (b : EventBrowser) : Prop :=
  List.map but_eid (m_BookmarkButtons b) = m_Bookmarks b ∧
  bookmarkStrip_visible b = negb (bool_decide (m_Bookmarks b = [])).

(** ** The loops as functions of their own *)

(** The loop of [FindEventNode] over the children [cs] of the item at
    [ppath], the first of which has index [i]. *)
Fixpoint FindEventNode_loop (ppath : Path) (eventID : N) (cs : list RDTreeWidgetItem)
    (i : nat) (found : option NodeRef) : option NodeRef * bool :=
  match cs with
  | [] => (found, false)
  | n :: later =>
      let '(found, ret) := FindEventNode_loop ppath eventID later (S i) found in
      if ret then (found, true)
      else
        let nEID := lastEID (tag n) in
        let fEID := match found with Some (_, f) => lastEID (tag f) | None => 0 end in
        let found :=
          if (eventID <=? nEID) && (bool_decide (found = None) || (nEID <=? fEID))
          then Some (ppath ++ [i], n)
          else found in
        if (nEID =? eventID) && bool_decide (childCount n = 0%nat)
        then (found, true)
        else if bool_decide (0 < childCount n)%nat
             then FindEventNode found n (ppath ++ [i]) eventID
             else (found, false)
  end.

(** One iteration of the loop of [FindEvent]. *)
Definition FindEvent_body (filter : string) (after : N) (forward : bool)
    (n : RDTreeWidgetItem) : option Z :=
  let eid := lastEID (tag n) in
  if matchesAfter forward after eid && contains_ci (textAt COL_NAME n) filter
  then Some (to_int eid)
  else if bool_decide (0 < childCount n)%nat
       then let found := FindEvent_in n filter after forward in
            if (0 <? found)%Z then Some found else None
       else None.

(** The loop of [FindEvent] over a list of children. *)
Fixpoint FindEvent_loop (filter : string) (after : N) (forward : bool)
    (cs : list RDTreeWidgetItem) : option Z :=
  match cs with
  | [] => None
  | n :: later =>
      if forward
      then match FindEvent_body filter after forward n with
           | Some v => Some v
           | None => FindEvent_loop filter after forward later
           end
      else match FindEvent_loop filter after forward later with
           | Some v => Some v
           | None => FindEvent_body filter after forward n
           end
  end.

(** The rows the loop of [AddDrawcalls] appends for [draws]. *)
Fixpoint build_rows (SetMarker : N) (draws : list DrawcallDescription)
  : list RDTreeWidgetItem :=
  match draws with
  | [] => []
  | d :: rest => (AddDrawcall SetMarker d rest).1 :: build_rows SetMarker rest
  end.

(** The [lastEID] stored on the last of a list of rows, 0 for no rows. *)
Definition last_lastEID (rows : list RDTreeWidgetItem) : N :=
  default 0 ((λ r, lastEID (tag r)) <$> last rows).

(** The [lastEID] of the row [found] points to, if it points to one. *)
Definition found_eid (found : option NodeRef) : option N :=
  (λ f : NodeRef, lastEID (tag f.2)) <$> found.

(** What a run of [FindEventNode] (or of its loop) over the rows [S],
    started with [found] and ending with [r], guarantees: the row found is
    at or after the event, it is never replaced by one with a larger
    [lastEID], a row picked up on the way satisfies [valid], an exact hit
    ends the search, and without one the row found is at least as near as
    every row of [S]. *)
Definition search_post (e : N) (S : list RDTreeWidgetItem) (valid : NodeRef → Prop)
    (found : option NodeRef) (r : option NodeRef * bool) : Prop :=
  (∀ l, found_eid r.1 = Some l → e ≤ l) ∧
  (∀ l, found_eid found = Some l → ∃ l', found_eid r.1 = Some l' ∧ l' ≤ l) ∧
  (r.1 = found ∨ ∃ f, r.1 = Some f ∧ valid f) ∧
  (r.2 = true → found_eid r.1 = Some e) ∧
  (r.2 = false → ∀ m, m ∈ S → e ≤ lastEID (tag m) →
     ∃ l, found_eid r.1 = Some l ∧ l ≤ lastEID (tag m)).

(** Every row below [c] has a [lastEID] that is non-zero and fits a
    non-negative [int]. *)
Definition positive_int (c : RDTreeWidgetItem) : Prop :=
  ∀ n, n ∈ rows_below c → 0 < lastEID (tag n) < 2 ^ 31.

(** The order in which the loop of [FindEvent] meets a list of sibling
    rows and the rows below them. *)
Definition visit_list (forward : bool) (cs : list RDTreeWidgetItem)
  : list RDTreeWidgetItem :=
  flat_map (λ c, c :: visit_order forward c) (if forward then cs else reverse cs).

(** The event ID [Find] starts from: the [lastEID] of the selected row, or
    the context's current event when no row is selected. *)
Definition Find_curEID (b : EventBrowser) : option N :=
  match events_selected b with
  | Some p => (λ node, lastEID (tag node)) <$> widgetItemAt (events_items b) p
  | None => Some (CurEvent (m_Ctx b))
  end.

(** The event ID from which [Find] searches again after a failed search. *)
Definition wrap_start (forward : bool) : N := if forward then 0 else UINT_MAX.

(** ** A small capture used in the examples *)

(** The user typing [s] into the find box. *)
Definition with_findText (s : string) (b : EventBrowser) : EventBrowser :=
  mkBrowser (m_Ctx b) (events_items b) (events_current b) (events_selected b)
    (events_expanded b) (m_Bookmarks b) (m_BookmarkButtons b)
    (bookmarkStrip_visible b) s (findEvent_styleSheet b) (controls_enabled b).

(** A set-marker, a marker region with two draws, and a present:
    event IDs 1 to 5 in traversal order.  [16] and [32] are the flag bits
    taken for [SetMarker] and [PushMarker]. *)
Definition demo_draws : list DrawcallDescription :=
  [ mkDraw 1 0 "Begin" 16 [];
    mkDraw 2 0 "foo pass" 32
      [ mkDraw 3 1 "foo" 2 []; mkDraw 4 2 "bar" 2 [] ];
    mkDraw 5 3 "Present" 128 [] ].

(** Its rows, as [AddDrawcalls] builds them. *)
Definition demo_rows : list RDTreeWidgetItem :=
  [ mkItem ["Begin"; "1"; "0.0"] (EventItemTag2 1 2) NoIcon [];
    mkItem ["foo pass"; "2-4"; "0.0"] (EventItemTag2 2 4) NoIcon
      [ mkItem ["foo"; "3"; "0.0"] (EventItemTag2 3 3) NoIcon [];
        mkItem ["bar"; "4"; "0.0"] (EventItemTag2 4 4) NoIcon [] ];
    mkItem ["Present"; "5"; "0.0"] (EventItemTag2 5 5) NoIcon [] ].

(** The frame item above them. *)
Definition demo_root : RDTreeWidgetItem :=
  mkItem ["Frame #7"; ""; ""] (EventItemTag2 0 5) NoIcon
    (mkItem ["Frame Start"; "0"; ""] EventItemTag0 NoIcon [] :: demo_rows).

(** The browser after this capture was loaded as frame 7. *)
Definition demo_browser : EventBrowser :=
  mkBrowser (mkCtx true 5 5 demo_draws 7) [demo_root] None None [[0%nat]]
    [] [] false "" "" true.

(** Every event ID of the draw list lies between 1 and 2^31 - 1. *)
Definition eids_in_range (draws : list DrawcallDescription) : Prop :=
  Forall (λ e, 0 < e < 2 ^ 31) (flat_map preorder_eids draws).

(** [EventBrowser::OnEventChanged(eventID)] *)
Definition OnEventChanged (eventID : N) (b : EventBrowser) : option EventBrowser :=
  r ← SelectEvent eventID b;
  Some (highlightBookmarks r.1).

(** The states the browser can be in: as constructed, and after any of
    the modelled operations, a change of the context, or typing into the
    find box. *)
Inductive reachable : EventBrowser → Prop :=
| reach_new c : reachable (EventBrowser_new c)
| reach_context c b : reachable b → reachable (with_ctx c b)
| reach_type s b : reachable b → reachable (with_findText s b)
| reach_load m b : reachable b → reachable (OnLogfileLoaded m b)
| reach_close b : reachable b → reachable (OnLogfileClosed b)
| reach_event e b b' : reachable b → OnEventChanged e b = Some b' → reachable b'
| reach_select e b r : reachable b → SelectEvent e b = Some r → reachable r.1
| reach_find fw b b' : reachable b → Find fw b = Some b' → reachable b'
| reach_toggle e b b' : reachable b → toggleBookmark e b = Some b' → reachable b'.

(** ** Induction over rows and draws *)

Section Induction.

Variable P : RDTreeWidgetItem → Prop.
Hypothesis step : ∀ it, Forall P (childItems it) → P it.

Fixpoint item_ind (it : RDTreeWidgetItem) : P it :=
  step it
    (match it as it0 return Forall P (childItems it0) with
     | mkItem _ _ _ cs =>
         (fix all (l : list RDTreeWidgetItem) : Forall P l :=
            match l with
            | [] => @List.Forall_nil _ P
            | c :: l' => @List.Forall_cons _ P c l' (item_ind c) (all l')
            end) cs
     end).

End Induction.

Section DrawInduction.

Variable P : DrawcallDescription → Prop.
Hypothesis step : ∀ d, Forall P (children d) → P d.

Fixpoint draw_ind (d : DrawcallDescription) : P d :=
  step d
    (match d as d0 return Forall P (children d0) with
     | mkDraw _ _ _ _ cs =>
         (fix all (l : list DrawcallDescription) : Forall P l :=
            match l with
            | [] => @List.Forall_nil _ P
            | c :: l' => @List.Forall_cons _ P c l' (draw_ind c) (all l')
            end) cs
     end).

End DrawInduction.

(** ** Find icons: [ClearFindIcons], [SetFindIcons], [findHighlight_timeout] *)

(** An item with its child rows replaced. *)
Definition setChildren (cs : list RDTreeWidgetItem) (it : RDTreeWidgetItem)
  : RDTreeWidgetItem :=
  mkItem (text it) (tag it) (icon it) cs.

(** [void EventBrowser::ClearFindIcons(parent)]: the item [parent] after the
    call.  The source changes the rows in place; here a row gets its new tag
    and icon and, when it has children, the children the recursive call
    leaves. *)
Fixpoint ClearFindIcons_in (parent : RDTreeWidgetItem) : RDTreeWidgetItem :=
  setChildren
    ((fix loop (cs : list RDTreeWidgetItem) : list RDTreeWidgetItem :=
        match cs with
        | [] => []
        | n :: later =>
            let n' := retag (set_find false) n in
            (if bool_decide (0 < childCount n)%nat
             then setChildren (childItems (ClearFindIcons_in n)) n'
             else n') :: loop later
        end) (childItems parent))
    parent.

(** [void EventBrowser::ClearFindIcons()] *)
Definition ClearFindIcons (b : EventBrowser) : option EventBrowser :=
  if LogLoaded (m_Ctx b) then
    root ← topLevelItem b 0;
    Some (with_items (<[0%nat := ClearFindIcons_in root]> (events_items b)) b)
  else Some b.

(** [int EventBrowser::SetFindIcons(parent, filter)]: the item after the
    call and the number returned.  The count is an [int] in the source; a
    tree never has the 2^31 rows that would overflow it. *)
Fixpoint SetFindIcons_in (parent : RDTreeWidgetItem) (filter : string)
  : RDTreeWidgetItem * Z :=
  let '(cs, results) :=
    (fix loop (cs : list RDTreeWidgetItem) (results : Z)
       : list RDTreeWidgetItem * Z :=
       match cs with
       | [] => ([], results)
       | n :: later =>
           let '(n', results) :=
             if contains_ci (textAt COL_NAME n) filter
             then (retag (set_find true) n, (results + 1)%Z)
             else (n, results) in
           let '(n', results) :=
             if bool_decide (0 < childCount n)%nat
             then let '(m, r) := SetFindIcons_in n filter in
                  (setChildren (childItems m) n', (results + r)%Z)
             else (n', results) in
           let '(rest, results) := loop later results in
           (n' :: rest, results)
       end) (childItems parent) 0%Z in
  (setChildren cs parent, results).

(** [int EventBrowser::SetFindIcons(filter)] *)
Definition SetFindIcons (filter : string) (b : EventBrowser) : option (EventBrowser * Z) :=
  if bool_decide (filter = "") then Some (b, 0%Z)
  else
    root ← topLevelItem b 0;
    let '(root', results) := SetFindIcons_in root filter in
    Some (with_items (<[0%nat := root']> (events_items b)) b, results).

(** [void EventBrowser::findHighlight_timeout()] *)
Definition findHighlight_timeout (b : EventBrowser) : option EventBrowser :=
  b ← ClearFindIcons b;
  r ← SetFindIcons (findEvent_text b) b;
  if (0 <? r.2)%Z then Some (with_styleSheet "" r.1)
  else Some (with_styleSheet RED r.1).

(** [void EventBrowser::on_findEvent_returnPressed()]; the timer it stops
    is not modelled. *)
Definition on_findEvent_returnPressed (b : EventBrowser) : option EventBrowser :=
  b ← (if bool_decide (findEvent_text b = "") then Some b else Find true b);
  findHighlight_timeout b.

(** [RDTreeWidgetItem *EventBrowser::FindNode(parent, filter, after)], with
    [ppath] the path of [parent]; [None] is the null pointer. *)
Fixpoint FindNode (parent : RDTreeWidgetItem) (ppath : Path) (filter : string)
    (after : N) {struct parent} : option NodeRef :=
  (fix loop (cs : list RDTreeWidgetItem) (i : nat) {struct cs} : option NodeRef :=
     match cs with
     | [] => None
     | n :: later =>
         let eid := lastEID (tag n) in
         if (after <? eid) && contains_ci (textAt COL_NAME n) filter
         then Some (ppath ++ [i], n)
         else
           match (if bool_decide (0 < childCount n)%nat
                  then FindNode n (ppath ++ [i]) filter after
                  else None) with
           | Some found => Some found
           | None => loop later (S i)
           end
     end) (childItems parent) 0%nat.

(** ** Bookmark navigation *)

(** [void EventBrowser::on_bookmark_clicked()]; [None] when the current
    item or the top-level item cannot be dereferenced. *)
Definition on_bookmark_clicked (b : EventBrowser) : option EventBrowser :=
  match events_current b with
  | Some p =>
      n ← widgetItemAt (events_items b) p;
      toggleBookmark (lastEID (tag n)) b
  | None => Some b
  end.

(** [void EventBrowser::jumpToBookmark(idx)] *)
Definition jumpToBookmark (idx : Z) (b : EventBrowser) : option EventBrowser :=
  if (idx <? 0)%Z || (Z.of_nat (length (m_Bookmarks b)) <=? idx)%Z
     || negb (LogLoaded (m_Ctx b))
  then Some b
  else
    eid ← m_Bookmarks b !! Z.to_nat idx;
    r ← SelectEvent eid b;
    Some r.1.

(** ** Exporting the event list: the name column *)

(** [QString(n, ' ')]: empty for a count that is not positive. *)
Definition spaces (n : Z) : string :=
  String.concat "" (replicate (Z.to_nat n) " ").

(** The one-character string [QLatin1Char('\\')]. *)
Definition backslash : string := String (Ascii.ascii_of_nat 92) "".

(** [QString EventBrowser::GetExportDrawcallString(indent, firstchild, drawcall)] *)
Definition GetExportDrawcallString (indent : Z) (firstchild : bool)
    (drawcall : DrawcallDescription) : string :=
  let prefix := spaces (indent * 2 - (if firstchild then 1 else 0))%Z in
  let prefix := if firstchild then prefix +:+ backslash else prefix in
  prefix +:+ "- " +:+ name drawcall.

(** [void EventBrowser::GetMaxNameLength(maxNameLength, indent, firstchild,
    drawcall)]: the value of the reference parameter [maxNameLength] after
    the call. *)
Fixpoint GetMaxNameLength (maxNameLength : Z) (indent : Z) (firstchild : bool)
    (drawcall : DrawcallDescription) {struct drawcall} : Z :=
  let nameString := GetExportDrawcallString indent firstchild drawcall in
  let maxNameLength := Z.max maxNameLength (Z.of_nat (String.length nameString)) in
  (fix loop (ds : list DrawcallDescription) (firstchild : bool) (maxNameLength : Z)
     {struct ds} : Z :=
     match ds with
     | [] => maxNameLength
     | d :: later =>
         loop later false (GetMaxNameLength maxNameLength (indent + 1)%Z firstchild d)
     end) (children drawcall) true maxNameLength.

(** The loop of [on_exportDraws_clicked] that measures the name column. *)
Fixpoint exportMaxNameLength (maxNameLength : Z) (draws : list DrawcallDescription) : Z :=
  match draws with
  | [] => maxNameLength
  | d :: later => exportMaxNameLength (GetMaxNameLength maxNameLength 0 false d) later
  end.

(** ** Vocabulary of the further properties *)

(** What a row shows and records, without its children. *)
Definition row_view (n : RDTreeWidgetItem) : list string * EventItemTag * Icon :=
  (text n, tag n, icon n).

(** A row matches the filter of the find box. *)
Definition name_matches (filter : string) (n : RDTreeWidgetItem) : bool :=
  contains_ci (textAt COL_NAME n) filter.

(** The texts, event IDs and nesting of a row: all that navigation and
    marking leave alone. *)
#[local] Unset Elimination Schemes.
Inductive Skeleton : Type :=
| SkelNode (texts : list string) (eid last : N) (kids : list Skeleton).
#[local] Set Elimination Schemes.

Fixpoint skeleton (it : RDTreeWidgetItem) : Skeleton :=
  SkelNode (text it) (EID (tag it)) (lastEID (tag it)) (List.map skeleton (childItems it)).

(** The loop of [ClearFindIcons] over a list of children. *)
Fixpoint ClearFindIcons_loop (cs : list RDTreeWidgetItem) : list RDTreeWidgetItem :=
  match cs with
  | [] => []
  | n :: later =>
      let n' := retag (set_find false) n in
      (if bool_decide (0 < childCount n)%nat
       then setChildren (childItems (ClearFindIcons_in n)) n'
       else n') :: ClearFindIcons_loop later
  end.

(** The loop of [SetFindIcons] over a list of children. *)
Fixpoint SetFindIcons_loop (filter : string) (cs : list RDTreeWidgetItem) (results : Z)
  : list RDTreeWidgetItem * Z :=
  match cs with
  | [] => ([], results)
  | n :: later =>
      let '(n', results) :=
        if contains_ci (textAt COL_NAME n) filter
        then (retag (set_find true) n, (results + 1)%Z)
        else (n, results) in
      let '(n', results) :=
        if bool_decide (0 < childCount n)%nat
        then let '(m, r) := SetFindIcons_in n filter in
             (setChildren (childItems m) n', (results + r)%Z)
        else (n', results) in
      let '(rest, results) := SetFindIcons_loop filter later results in
      (n' :: rest, results)
  end.

(** The loop of [FindNode] over the children from index [i] on. *)
Fixpoint FindNode_loop (ppath : Path) (filter : string) (after : N)
    (cs : list RDTreeWidgetItem) (i : nat) : option NodeRef :=
  match cs with
  | [] => None
  | n :: later =>
      let eid := lastEID (tag n) in
      if (after <? eid) && contains_ci (textAt COL_NAME n) filter
      then Some (ppath ++ [i], n)
      else
        match (if bool_decide (0 < childCount n)%nat
               then FindNode n (ppath ++ [i]) filter after
               else None) with
        | Some found => Some found
        | None => FindNode_loop ppath filter after later (S i)
        end
  end.

(** What [SetFindIcons] does to one row. *)
Definition mark_found (filter : string) (n : RDTreeWidgetItem) : RDTreeWidgetItem :=
  if name_matches filter n then retag (set_find true) n else n.

(** How many rows of a list match the filter, as the [int] that
    [SetFindIcons] returns. *)
Definition count_matches (filter : string) (rows : list RDTreeWidgetItem) : Z :=
  Z.of_nat (length (List.filter (name_matches filter) rows)).

(** ** More slots of the browser *)

(** [bool EventBrowser::hasBookmark(RDTreeWidgetItem *node)] *)
Definition hasBookmark_node (b : EventBrowser) (node : option RDTreeWidgetItem) : bool :=
  match node with
  | Some n => hasBookmark b (EID (tag n))
  | None => false
  end.

(** [void EventBrowser::on_HideFindJump()]; hiding the two strips and
    clearing the jump box are not modelled. *)
Definition on_HideFindJump (b : EventBrowser) : option EventBrowser :=
  b ← ClearFindIcons b;
  Some (with_styleSheet "" b).

(** [void EventBrowser::on_findEvent_textEdited(arg1)]; the timer it stops
    or restarts is not modelled. *)
Definition on_findEvent_textEdited (arg1 : string) (b : EventBrowser)
  : option EventBrowser :=
  if bool_decide (arg1 = "") then ClearFindIcons (with_styleSheet "" b)
  else Some b.

(** [void EventBrowser::on_findEvent_keyPress(event)] for the key F3, with
    [shift] telling whether the shift modifier is held; other keys do
    nothing. *)
Definition on_findEvent_keyPress_F3 (shift : bool) (b : EventBrowser)
  : option EventBrowser :=
  b ← (if bool_decide (findEvent_text b = "") then Some b
       else Find (if shift then false else true) b);
  findHighlight_timeout b.

(** The [clicked] handler [toggleBookmark] connects to the button it
    creates, for the button at index [i] of [m_BookmarkButtons]; the event
    ID the handler captured is the one stored in the button's ["eid"]
    property. *)
Definition bookmarkButton_clicked (i : nat) (b : EventBrowser) : option EventBrowser :=
  but ← m_BookmarkButtons b !! i;
  let b := with_bookmarks (m_Bookmarks b)
             (<[i := mkButton (but_text but) (but_eid but) true]> (m_BookmarkButtons b)) b in
  r ← SelectEvent (but_eid but) b;
  Some (highlightBookmarks r.1).

(** ** Vocabulary: rows, icons and steps *)

(** The icon [RefreshIcon] gives a row with tag [t]. *)
Definition tag_icon (t : EventItemTag) : Icon :=
  if current t then flag_green
  else if bookmark t then asterisk_orange
  else if find t then find_glass
  else NoIcon.

(** All rows of the tree widget: each top-level item and the rows below it. *)
Definition browser_rows (b : EventBrowser) : list RDTreeWidgetItem :=
  flat_map (λ it, it :: rows_below it) (events_items b).

(** Every row shows the icon of its tag. *)
Definition icons_ok (b : EventBrowser) : Prop :=
  ∀ n, n ∈ browser_rows b → icon n = tag_icon (tag n).

(** The row carrying the [current] flag is the tree's current item, and
    the current item is a row of the tree carrying it. *)
Definition current_ok (b : EventBrowser) : Prop :=
  (∀ p n, widgetItemAt (events_items b) p = Some n →
          current (tag n) = true → events_current b = Some p) ∧
  (∀ p, events_current b = Some p →
        ∃ n, widgetItemAt (events_items b) p = Some n ∧ current (tag n) = true).

(** The item [it] with every row below it rewritten by [g]. *)
Fixpoint map_below (g : RDTreeWidgetItem → RDTreeWidgetItem) (it : RDTreeWidgetItem)
  : RDTreeWidgetItem :=
  setChildren
    (List.map (λ c, setChildren (childItems (map_below g c)) (g c)) (childItems it)) it.

(** One call of a function of the browser that navigates or marks rows in
    a loaded capture, and what it leaves behind. *)
Inductive ui_step : EventBrowser → EventBrowser → Prop :=
| step_type s b : ui_step b (with_findText s b)
| step_current p b :
    is_Some (widgetItemAt (events_items b) p) → ui_step b (setCurrentItem p b)
| step_event e b b' : OnEventChanged e b = Some b' → ui_step b b'
| step_select e b r : SelectEvent e b = Some r → ui_step b r.1
| step_find fw b b' : Find fw b = Some b' → ui_step b b'
| step_toggle e b b' : toggleBookmark e b = Some b' → ui_step b b'
| step_bookmark b b' : on_bookmark_clicked b = Some b' → ui_step b b'
| step_jump idx b b' : jumpToBookmark idx b = Some b' → ui_step b b'
| step_button i b b' : bookmarkButton_clicked i b = Some b' → ui_step b b'
| step_highlight b b' : findHighlight_timeout b = Some b' → ui_step b b'
| step_return b b' : on_findEvent_returnPressed b = Some b' → ui_step b b'
| step_F3 shift b b' : on_findEvent_keyPress_F3 shift b = Some b' → ui_step b b'
| step_edited s b b' : on_findEvent_textEdited s b = Some b' → ui_step b b'
| step_hide b b' : on_HideFindJump b = Some b' → ui_step b b'.

(** The states the browser goes through: constructed, a capture opened or
    closed, the context changed by another window, or one of the steps
    above. *)
Inductive ui_reachable : EventBrowser → Prop :=
| ui_new c : ui_reachable (EventBrowser_new c)
| ui_context c b : ui_reachable b → ui_reachable (with_ctx c b)
| ui_load m b : ui_reachable b → ui_reachable (OnLogfileLoaded m b)
| ui_close b : ui_reachable b → ui_reachable (OnLogfileClosed b)
| ui_next b b' : ui_reachable b → ui_step b b' → ui_reachable b'.

(** The rows of [items'] are the rows of [items], each one either as it
    was or re-tagged with [f]: no row is added, removed or moved. *)
Definition retagged (f : EventItemTag → EventItemTag)
    (items items' : list RDTreeWidgetItem) : Prop :=
  ∀ q, match widgetItemAt items q, widgetItemAt items' q with
       | Some n, Some n' => row_view n' = row_view n ∨ row_view n' = row_view (retag f n)
       | None, None => True
       | _, _ => False
       end.

(** What a step does to the tree: nothing, a re-tagging that leaves event
    IDs and the [current] flag alone, a change of the current item, or
    several of these in turn. *)
Inductive tree_change : EventBrowser → EventBrowser → Prop :=
| change_none b b' :
    events_items b' = events_items b → events_current b' = events_current b →
    tree_change b b'
| change_retag f b b' :
    (∀ t, EID (f t) = EID t ∧ lastEID (f t) = lastEID t ∧ current (f t) = current t) →
    retagged f (events_items b) (events_items b') →
    List.map skeleton (events_items b') = List.map skeleton (events_items b) →
    events_current b' = events_current b →
    tree_change b b'
| change_current p b b' :
    is_Some (widgetItemAt (events_items b) p) →
    events_items b' = events_items (setCurrentItem p b) →
    events_current b' = Some p →
    tree_change b b'
| change_trans b1 b2 b3 : tree_change b1 b2 → tree_change b2 b3 → tree_change b1 b3.

(** A row as [AddDrawcalls] leaves it: no flag set and no icon. *)
Definition fresh (n : RDTreeWidgetItem) : Prop :=
  icon n = NoIcon ∧ current (tag n) = false ∧ bookmark (tag n) = false ∧
  find (tag n) = false.

(** The row an event ID stands for: the one the search of [SelectEvent]
    and [toggleBookmark] ends on, if there is a top-level item. *)
Definition event_row (b : EventBrowser) (e : N) : option NodeRef :=
  root ← topLevelItem b 0;
  (FindEventNode None root [0%nat] e).1.

(** A row is a leaf whose [lastEID] is exactly [e]. *)
Definition exact_leaf (e : N) (n : RDTreeWidgetItem) : bool :=
  (lastEID (tag n) =? e) && bool_decide (childCount n = 0%nat).

(** The last event ID of a draw list in traversal order, 0 for no draws. *)
Definition last_event (draws : list DrawcallDescription) : N :=
  default 0 (last (flat_map preorder_eids draws)).

(** The row of a draw with children ends on the last event below it. *)
Definition region_ends (d : DrawcallDescription) (rest : list DrawcallDescription)
    (r : RDTreeWidgetItem) : Prop :=
  children d ≠ [] → lastEID (tag r) = last_event (children d).

(** The [nameString] of every line that [ExportDrawcall(writer,
    maxNameLength, indent, firstchild, drawcall)] writes, in the order of
    the lines: the line of the draw itself, then the lines of its children,
    one level deeper, the first child marked as such. *)
Fixpoint ExportDrawcall_names (indent : Z) (firstchild : bool)
    (drawcall : DrawcallDescription) {struct drawcall} : list string :=
  GetExportDrawcallString indent firstchild drawcall ::
  (fix loop (ds : list DrawcallDescription) (firstchild : bool) {struct ds}
     : list string :=
     match ds with
     | [] => []
     | d :: later => ExportDrawcall_names (indent + 1)%Z firstchild d ++ loop later false
     end) (children drawcall) true.

(** The name strings of the whole export of [on_exportDraws_clicked]. *)
Definition export_names (draws : list DrawcallDescription) : list string :=
  flat_map (ExportDrawcall_names 0 false) draws.

(** The loop of [GetMaxNameLength] over the children of a draw. *)
Fixpoint GetMaxNameLength_loop (indent : Z) (ds : list DrawcallDescription)
    (firstchild : bool) (maxNameLength : Z) : Z :=
  match ds with
  | [] => maxNameLength
  | d :: later =>
      GetMaxNameLength_loop indent later false
        (GetMaxNameLength maxNameLength (indent + 1)%Z firstchild d)
  end.

(** The loop of [ExportDrawcall] over the children of a draw. *)
Fixpoint ExportDrawcall_names_loop (indent : Z) (ds : list DrawcallDescription)
    (firstchild : bool) : list string :=
  match ds with
  | [] => []
  | d :: later =>
      ExportDrawcall_names (indent + 1)%Z firstchild d
      ++ ExportDrawcall_names_loop indent later false
  end.

(** [QString::count()] of a string, as an [int]: the number of its
    characters. *)
Definition count (s : string) : Z := Z.of_nat (String.length s).

(** ** Pipeline-state viewer: shader bindings and the rows of [setState] *)

Module D3D12Rows.

Import D3D12PipelineStateViewer.

(** [a + b] on [int], wrapping as two's-complement hardware does; the
    properties below assume the sum is in range. *)
Definition int_add (a b : Z) : Z :=
  ((a + b + 2 ^ 31) `mod` 2 ^ 32 - 2 ^ 31)%Z.

(** [BindpointMap] of the replay API: [bindset] and [bind] are [int32_t],
    [arraySize] is [uint32_t]. *)
Record BindpointMap : Type := mkBind {
  bindset : Z;
  bind : Z;
  used : bool;
  arraySize : N
}.

(** [ShaderResource], restricted to the fields the viewer's loops read. *)
Record ShaderResource : Type := mkResource {
  IsSampler : bool;
  res_name : string
}.

(** The variable [regMatch] after the two statements that set it, for the
    bind point [b] and the register [reg]. *)
Definition regMatch (b : BindpointMap) (reg : Z) : bool :=
  let regMatch := (bind b =? reg)%Z in
  if (bind b <=? reg)%Z
  then (arraySize b =? UINT_MAX) || (reg <? int_add (bind b) (to_int (arraySize b)))%Z
  else regMatch.

(** The loop over [binds] in [addResourceRow] and in the sampler loop of
    [setShaderState], from index [i] on: [Some (Some (i, b, res))] when it
    leaves through [break] with [bind = &b] and [shaderInput = &res[i]],
    [Some None] when it runs to the end, [None] when [res[i]] is read out
    of range.  [sampler] tells which of the two loops it is: the first
    takes a resource that is not a sampler, the second one that is. *)
Fixpoint findBind (sampler : bool) (binds : list BindpointMap)
    (res : list ShaderResource) (i : nat) (space reg : Z)
  : option (option (nat * BindpointMap * ShaderResource)) :=
  match binds with
  | [] => Some None
  | b :: later =>
      if (bindset b =? space)%Z && regMatch b reg then
        r ← res !! i;
        if bool_decide (IsSampler r = sampler) then Some (Some (i, b, r))
        else findBind sampler later res (S i) space reg
      else findBind sampler later res (S i) space reg
  end.

(** [ViewTag::ResType] and the values of its enumerators. *)
Inductive ResType : Type := SRV | UAV | OMTarget | OMDepth.

Definition ResType_value (t : ResType) : Z :=
  match t with SRV => 0 | UAV => 1 | OMTarget => 2 | OMDepth => 3 end%Z.

(** [D3D12Pipe::View], restricted to the fields that decide whether and
    how its row is shown. *)
Record View : Type := mkView {
  RootElement : N;
  Resource : N
}.

Record ViewTag : Type := mkViewTag {
  vt_type : ResType;
  vt_space : Z;
  vt_reg : Z;
  vt_res : View
}.

(** The bind points and reflection data of [D3D12Pipe::Shader]; a null
    [ShaderDetails] is [None]. *)
Record ShaderDetails : Type := mkDetails {
  ReadOnlyResources : list ShaderResource;
  ReadWriteResources : list ShaderResource
}.

Record Shader : Type := mkShader {
  map_ReadOnlyResources : list BindpointMap;
  map_ReadWriteResources : list BindpointMap;
  details : option ShaderDetails
}.

(** What [addResourceRow] decides about the row it adds: the text of the
    register column and whether [setEmptyRow] and [setInactiveRow] are
    applied.  The other cells, which describe the texture or buffer, are
    not modelled. *)
Record ResourceRow : Type := mkResourceRow {
  regname : string;
  res_empty : bool;
  res_inactive : bool
}.

(** [void D3D12PipelineStateViewer::addResourceRow(view, stage, resources)]:
    [Some (Some row)] when a row is added, [Some None] when none is,
    [None] when the search for the bind point reads out of range. *)
Definition addResourceRow (ui : Ui) (view : ViewTag) (stage : option Shader)
  : option (option ResourceRow) :=
  let r := vt_res view in
  let uav := match vt_type view with UAV => true | _ => false end in
  if RootElement r =? UINT_MAX then Some None
  else
    found ← match stage with
            | Some st =>
                match details st with
                | Some d =>
                    findBind false
                      (if uav then map_ReadWriteResources st else map_ReadOnlyResources st)
                      (if uav then ReadWriteResources d else ReadOnlyResources d)
                      0%nat (vt_space view) (vt_reg view)
                | None => Some None
                end
            | None => Some None
            end;
    let filledSlot := negb (Resource r =? 0) in
    let usedSlot := match found with Some (_, b, _) => used b | None => false end in
    let usedSlot :=
      if filledSlot
      then usedSlot || (vt_space view =? ResType_value OMTarget)%Z
           || (vt_space view =? ResType_value OMDepth)%Z
      else usedSlot in
    if showNode ui usedSlot filledSlot then
      let regname := pretty (vt_reg view) in
      let regname :=
        match found with
        | Some (_, _, shaderInput) =>
            if negb (bool_decide (res_name shaderInput = ""))
            then regname +:+ ": " +:+ res_name shaderInput
            else regname
        | None => regname
        end in
      let regname :=
        if (vt_space view =? ResType_value OMDepth)%Z then "Depth" else regname in
      Some (Some (mkResourceRow regname (negb filledSlot) (negb usedSlot)))
    else Some None.

(** The loop of [setState] over [m_OM.RenderTargets], from index [i] on:
    the rows added to [ui->targetOutputs]. *)
Fixpoint targetRows (ui : Ui) (i : nat) (targets : list View)
  : option (list ResourceRow) :=
  match targets with
  | [] => Some []
  | t :: later =>
      row ← addResourceRow ui (mkViewTag OMTarget 0 (Z.of_nat i) t) None;
      rest ← targetRows ui (S i) later;
      Some (match row with Some r => r :: rest | None => rest end)
  end.

(** The rows of [ui->targetOutputs] after [setState]: the render targets,
    then the depth target. *)
Definition targetOutputs (ui : Ui) (RenderTargets : list View) (DepthTarget : View)
  : option (list ResourceRow) :=
  rows ← targetRows ui 0 RenderTargets;
  depth ← addResourceRow ui (mkViewTag OMDepth 0 0 DepthTarget) None;
  Some (match depth with Some r => rows ++ [r] | None => rows end).

(** The loop of [setShaderState] over the registers of one space, for the
    SRVs ([uav = false]) or the UAVs of a stage. *)
Fixpoint spaceRows (ui : Ui) (uav : bool) (stage : Shader) (space : nat) (reg : nat)
    (views : list View) : option (list ResourceRow) :=
  match views with
  | [] => Some []
  | v :: later =>
      row ← addResourceRow ui
              (mkViewTag (if uav then UAV else SRV) (Z.of_nat space) (Z.of_nat reg) v)
              (Some stage);
      rest ← spaceRows ui uav stage space (S reg) later;
      Some (match row with Some r => r :: rest | None => rest end)
  end.

(** *** Samplers: the addressing column *)

(** One iteration of the loop over [a = 0, 1, 2] that arranges the three
    address modes, on the variables [addressing], [addPrefix], [addVal];
    [addr] holds the texts of [AddressU], [AddressV], [AddressW]. *)
Definition addressing_step (addr : list string) (st : string * string * string)
    (a : nat) : string * string * string :=
  let '(addressing, addPrefix, addVal) := st in
  let prefix := default "" (["U"; "V"; "W"] !! a) in
  let '(addressing, addPrefix) :=
    if bool_decide (a = 0%nat)
       || bool_decide (default "" (addr !! a) = default "" (addr !! (a - 1)%nat))
    then (addressing, addPrefix +:+ prefix)
    else (addressing +:+ addPrefix +:+ ": " +:+ addVal +:+ ", ", prefix) in
  (addressing, addPrefix, default "" (addr !! a)).

(** The text [addressing] before the border colour is appended. *)
Definition addressing_text (u v w : string) : string :=
  let '(addressing, addPrefix, addVal) :=
    foldl (addressing_step [u; v; w]) ("", "", "") [0; 1; 2]%nat in
  addressing +:+ addPrefix +:+ ": " +:+ addVal.

(** *** Input assembly: the index buffer row *)

Section Buffers.

Variable ToQStr : N → string.
Variable GetBuffer : N → option BufferDescription.

(** What the viewer reads of the current draw; [UseIBuffer] is the test
    [draw->flags & DrawFlags::UseIBuffer]. *)
Record Draw : Type := mkDrawInfo {
  UseIBuffer : bool;
  indexByteWidth : N;
  indexOffset : N
}.

(** The statements of [setState] that add the index buffer row to
    [ui->iaBuffers], for the current draw (if any) and [m_IA.ibuffer]. *)
Definition ibufferRow (ui : Ui) (draw : option Draw) (ibuffer_Buffer ibuffer_Offset : N)
  : option Row :=
  let ibufferUsed := match draw with Some d => UseIBuffer d | None => false end in
  let tagOffset := match draw with Some d => indexOffset d | None => 0 end in
  if negb (ibuffer_Buffer =? 0) then
    if ibufferUsed || showDisabled ui then
      let name := "Buffer " +:+ ToQStr ibuffer_Buffer in
      let length := 1 in
      let length := if negb ibufferUsed then 0 else length in
      let '(name, length) :=
        match GetBuffer ibuffer_Buffer with
        | Some buf => (buf_name buf, buf_length buf)
        | None => (name, length)
        end in
      Some (mkRow ["Index"; name;
                   pretty (match draw with Some d => indexByteWidth d | None => 0 end);
                   pretty ibuffer_Offset; pretty length; ""]
              ibuffer_Buffer tagOffset (ibuffer_Buffer =? 0) (negb ibufferUsed))
    else None
  else
    if ibufferUsed || showEmpty ui then
      Some (mkRow ["Index"; "No Buffer Set"; "-"; "-"; "-"; ""]
              ibuffer_Buffer tagOffset true (negb ibufferUsed))
    else None.

(** *** Stream out *)

(** [D3D12Pipe::SOBind] *)
Record SOBind : Type := mkSOBind {
  so_Buffer : N;
  so_Offset : N
}.

(** The body of the stream-out loop of [setState] for output [i]; the tag
    of the row is the buffer's id alone, so [tag_offset] is left at 0. *)
Definition streamOutRow (ui : Ui) (i : nat) (s : SOBind) : option Row :=
  let filledSlot := negb (so_Buffer s =? 0) in
  let usedSlot := filledSlot in
  if showNode ui usedSlot filledSlot then
    let name := "Buffer " +:+ ToQStr (so_Buffer s) in
    let length := 0 in
    let name := if negb filledSlot then "Empty" else name in
    let '(name, length) :=
      match GetBuffer (so_Buffer s) with
      | Some buf => (buf_name buf, if length =? 0 then buf_length buf else length)
      | None => (name, length)
      end in
    Some (mkRow [pretty i; name; pretty length; pretty (so_Offset s); ""]
            (so_Buffer s) 0 (negb filledSlot) (negb usedSlot))
  else None.

(** The stream-out loop, from output [i] on, and the visibility that
    [setState] then gives [ui->gsStreamOut] and [ui->soGroup]: the variable
    [streamoutSet], which the loop never assigns. *)
Fixpoint streamOutRows (ui : Ui) (i : nat) (outputs : list SOBind) : list Row :=
  match outputs with
  | [] => []
  | s :: rest =>
      match streamOutRow ui i s with
      | Some r => r :: streamOutRows ui (S i) rest
      | None => streamOutRows ui (S i) rest
      end
  end.

Definition streamOut (ui : Ui) (outputs : list SOBind) : list Row * bool :=
  let streamoutSet := false in
  (streamOutRows ui 0 outputs, streamoutSet).

End Buffers.

(** *** Input layouts *)

(** [D3D12Pipe::Layout]; [InputSlot], [ByteOffset] and the two format
    fields are unsigned and at most 32 bits wide. *)
Record Layout : Type := mkLayout {
  SemanticName : string;
  SemanticIndex : N;
  InputSlot : N;
  ByteOffset : N;
  compByteWidth : N;
  compCount : N;
  PerInstance : bool
}.

(** [SigParameter] of the vertex shader's input signature. *)
Record SigParameter : Type := mkSig {
  semanticName : string;
  semanticIndex : N
}.

(** A row of [ui->iaLayouts]: the layout's index, its slot, the text of the
    offset column and whether the row is inactive. *)
Record LayoutRow : Type := mkLayoutRow {
  lr_index : nat;
  lr_slot : N;
  lr_byteOffs : string;
  lr_inactive : bool
}.

(** The local state of the layout loop: the two arrays of 128 entries, the
    rows added so far and the counter [i]. *)
Record LayoutState : Type := mkLayoutState {
  usedVBuffers : list bool;
  layoutOffs : list N;
  iaLayouts : list LayoutRow;
  counter : nat
}.

Definition LayoutState_init : LayoutState :=
  mkLayoutState (replicate 128 false) (replicate 128 0) [] 0.

Section Layouts.

(** [QString::toUpper] *)
Variable toUpper : string → string.

(** The inner loop over the input signature, [None] standing for a null
    [ShaderDetails]: the value of [usedSlot] after it. *)
Definition layoutUsed (InputSig : option (list SigParameter)) (l : Layout) : bool :=
  match InputSig with
  | Some sig =>
      existsb (λ p, bool_decide (toUpper (semanticName p) = toUpper (SemanticName l))
                    && (semanticIndex p =? SemanticIndex l)) sig
  | None => false
  end.

(** One iteration of the layout loop; [None] when [l.InputSlot] is not
    below 128, the size of the two arrays. *)
Definition layoutStep (ui : Ui) (InputSig : option (list SigParameter))
    (st : LayoutState) (l : Layout) : option LayoutState :=
  let slot := N.to_nat (InputSlot l) in
  offs ← layoutOffs st !! slot;
  let byteOffs := pretty (ByteOffset l) in
  let '(byteOffs, offs) :=
    if ByteOffset l =? UINT_MAX
    then ("APPEND_ALIGNED (" +:+ pretty offs +:+ ")", offs)
    else (byteOffs, ByteOffset l) in
  let offs := (offs + compByteWidth l * compCount l) `mod` 2 ^ 32 in
  let filledSlot := true in
  let usedSlot := layoutUsed InputSig l in
  let st := mkLayoutState (usedVBuffers st) (<[slot := offs]> (layoutOffs st))
              (iaLayouts st) (counter st) in
  let st :=
    if showNode ui usedSlot filledSlot then
      mkLayoutState
        (if usedSlot then <[slot := true]> (usedVBuffers st) else usedVBuffers st)
        (layoutOffs st)
        (iaLayouts st ++ [mkLayoutRow (counter st) (InputSlot l) byteOffs (negb usedSlot)])
        (counter st)
    else st in
  Some (mkLayoutState (usedVBuffers st) (layoutOffs st) (iaLayouts st) (S (counter st))).

(** The layout loop of [setState]. *)
Fixpoint layoutLoop (ui : Ui) (InputSig : option (list SigParameter))
    (st : LayoutState) (layouts : list Layout) : option LayoutState :=
  match layouts with
  | [] => Some st
  | l :: rest => st' ← layoutStep ui InputSig st l; layoutLoop ui InputSig st' rest
  end.

End Layouts.

(** *** Output merger: blend rows *)

(** The array [targets] after the loop over the render targets, from
    index [i] on; [None] when a bound target has an index that is not below
    32, the size of the array. *)
Fixpoint targetFlags (targets : list bool) (i : nat) (RenderTargets : list View)
  : option (list bool) :=
  match RenderTargets with
  | [] => Some targets
  | t :: later =>
      if negb (Resource t =? 0) then
        if bool_decide (i < length targets)%nat
        then targetFlags (<[i := true]> targets) (S i) later
        else None
      else targetFlags targets (S i) later
  end.

(** Render target [j] exists and has a resource bound. *)
Definition target_bound (RenderTargets : list View) (j : nat) : bool :=
  match RenderTargets !! j with
  | Some t => negb (Resource t =? 0)
  | None => false
  end.

(** The text of the write-mask column. *)
Definition writeMask_text (WriteMask : N) : string :=
  (if N.land WriteMask 1 =? 0 then "_" else "R") +:+
  (if N.land WriteMask 2 =? 0 then "_" else "G") +:+
  (if N.land WriteMask 4 =? 0 then "_" else "B") +:+
  (if N.land WriteMask 8 =? 0 then "_" else "A").

(** [D3D12Pipe::Blend], restricted to the fields that decide whether its
    row is shown and to the write mask. *)
Record Blend : Type := mkBlend {
  Enabled : bool;
  WriteMask : N
}.

(** A row of [ui->blends]: the blend's index, the write-mask text and the
    two marks. *)
Record BlendRow : Type := mkBlendRow {
  br_index : nat;
  br_mask : string;
  br_empty : bool;
  br_inactive : bool
}.

(** The loop of [setState] over the blends, from index [i] on; [None] when
    [targets[i]] is read past the end of the array. *)
Fixpoint blendRows (ui : Ui) (targets : list bool) (i : nat) (blends : list Blend)
  : option (list BlendRow) :=
  match blends with
  | [] => Some []
  | blend :: later =>
      t ← targets !! i;
      let filledSlot := Enabled blend || t in
      let usedSlot := t in
      rest ← blendRows ui targets (S i) later;
      Some (if showNode ui usedSlot filledSlot
            then mkBlendRow i (writeMask_text (WriteMask blend))
                   (negb filledSlot) (negb usedSlot) :: rest
            else rest)
  end.

(** *** Highlighting a vertex buffer slot *)

(** [a * b] on [int], wrapping as [int_add] does. *)
Definition int_mul (a b : Z) : Z :=
  ((a * b + 2 ^ 31) `mod` 2 ^ 32 - 2 ^ 31)%Z.

(** The colour index [idx] of [highlightIABind(slot)]:
    [((slot + 1) * 21) % 32] on [int], where [%] takes the sign of the
    dividend. *)
Definition hue_index (slot : Z) : Z := Z.rem (int_mul (int_add slot 1) 21) 32.

End D3D12Rows.

(** * Properties *)

(** ** The loops agree with the functions they are taken from *)

Lemma FindEventNode_unfold found parent ppath eventID :
  FindEventNode found parent ppath eventID
  = FindEventNode_loop ppath eventID (childItems parent) 0%nat found.
Proof.
  destruct parent as [t g ic cs]. cbn [FindEventNode childItems].
  match goal with
  | |- ?loop cs 0%nat found = _ =>
      enough (H : ∀ l i fnd, loop l i fnd = FindEventNode_loop ppath eventID l i fnd)
        by apply H
  end.
  induction l as [|n later IH]; intros i fnd; [reflexivity|].
  cbn [FindEventNode_loop]. rewrite <- IH. reflexivity.
Qed.

Lemma FindEvent_in_unfold parent filter after forward :
  FindEvent_in parent filter after forward
  = default (-1)%Z (FindEvent_loop filter after forward (childItems parent)).
Proof.
  destruct parent as [t g ic cs]. cbn [FindEvent_in childItems]. f_equal.
  induction cs as [|n later IH]; [reflexivity|].
  cbn [FindEvent_loop]. rewrite <- IH. reflexivity.
Qed.

Lemma AddDrawcall_unfold SetMarker d rest :
  AddDrawcall SetMarker d rest
  = let '(child, lastEID) :=
      AddDrawcalls SetMarker (newItem [name d; pretty (eventID d); "0.0"]) (children d) in
    let child :=
      if eventID d <? lastEID
      then setText COL_EID (range_text (eventID d) lastEID) child
      else child in
    let lastEID :=
      if lastEID =? 0 then childless_lastEID SetMarker d rest else lastEID in
    (setTag (EventItemTag2 (eventID d) lastEID) child, lastEID).
Proof.
  destruct d as [e di nm fl cs]. unfold AddDrawcalls. simpl children.
  cbn [AddDrawcall children].
  set (child := newItem _). generalize child 0. clear child.
  assert (Hloop : ∀ p l,
    (fix loop (parent : RDTreeWidgetItem) (lastEID : N)
         (draws : list DrawcallDescription) {struct draws} : RDTreeWidgetItem * N :=
       match draws with
       | [] => (parent, lastEID)
       | d' :: rest' =>
           let '(c, l) := AddDrawcall SetMarker d' rest' in
           loop (addChild parent c) l rest'
       end) p l cs = AddDrawcalls_loop SetMarker p l cs).
  { induction cs as [|d' rest' IH]; intros p l; simpl; [reflexivity|].
    destruct (AddDrawcall SetMarker d' rest') as [c l']. apply IH. }
  intros p l. rewrite Hloop. reflexivity.
Qed.

Lemma rows_below_unfold it :
  rows_below it = flat_map (λ c, c :: rows_below c) (childItems it).
Proof. destruct it; reflexivity. Qed.

Lemma visit_order_forward it :
  visit_order true it = flat_map (λ c, c :: visit_order true c) (childItems it).
Proof.
  destruct it as [t g ic cs]; simpl.
  induction cs as [|c later IH]; simpl; [reflexivity|]. by rewrite IH.
Qed.

Lemma visit_order_backward it :
  visit_order false it
  = flat_map (λ c, c :: visit_order false c) (reverse (childItems it)).
Proof.
  destruct it as [t g ic cs]; simpl.
  induction cs as [|c later IH]; simpl; [reflexivity|].
  rewrite IH, reverse_cons, flat_map_app. simpl. by rewrite app_nil_r.
Qed.

(** ** Which slot rows the pipeline viewer shows *)

(** C7. A slot row is displayed exactly when the slot is used by the
    shader, or it is bound but unused and "show disabled" is checked, or it
    is unbound and "show empty" is checked: this is what [showNode]
    computes, and the vertex-buffer loop adds the row of a slot exactly
    under that condition, for every slot inside the [usedVBuffers] array
    it reads the "used" mark from; for a slot outside the array the read,
    and so the row, is not defined. *)
Theorem slot_row_displayed_iff :
  (∀ ui usedSlot filledSlot,
     D3D12PipelineStateViewer.showNode ui usedSlot filledSlot = true ↔
       usedSlot = true ∨
       (filledSlot = true ∧ usedSlot = false ∧
        D3D12PipelineStateViewer.showDisabled ui = true) ∨
       (filledSlot = false ∧ D3D12PipelineStateViewer.showEmpty ui = true)) ∧
  (∀ ToQStr GetBuffer ui usedVBuffers i v,
     is_Some (D3D12PipelineStateViewer.vbufferRow ToQStr GetBuffer ui usedVBuffers i v) ↔
     (i < length usedVBuffers)%nat) ∧
  (∀ ToQStr GetBuffer ui usedVBuffers i v usedSlot,
     usedVBuffers !! i = Some usedSlot →
     let filledSlot := negb (D3D12PipelineStateViewer.Buffer v =? 0) in
     (∃ r, D3D12PipelineStateViewer.vbufferRow ToQStr GetBuffer ui usedVBuffers i v
           = Some (Some r)) ↔
       usedSlot = true ∨
       (filledSlot = true ∧ usedSlot = false ∧
        D3D12PipelineStateViewer.showDisabled ui = true) ∨
       (filledSlot = false ∧ D3D12PipelineStateViewer.showEmpty ui = true)).
Proof.
  assert (Hshow : ∀ ui u f,
    D3D12PipelineStateViewer.showNode ui u f = true ↔
      u = true ∨
      (f = true ∧ u = false ∧ D3D12PipelineStateViewer.showDisabled ui = true) ∨
      (f = false ∧ D3D12PipelineStateViewer.showEmpty ui = true)).
  { intros [sd se] u f. unfold D3D12PipelineStateViewer.showNode. simpl.
    destruct u, f, sd, se; simpl; intuition congruence. }
  split; [exact Hshow|]. split.
  - intros ToQStr GetBuffer ui used i v.
    rewrite <- lookup_lt_is_Some. unfold D3D12PipelineStateViewer.vbufferRow.
    destruct (used !! i) as [u|]; cbn.
    + split; intros _; eexists; reflexivity.
    + split; intros [x Hx]; discriminate.
  - intros ToQStr GetBuffer ui used i v usedSlot Hused filledSlot.
    rewrite <- Hshow. unfold D3D12PipelineStateViewer.vbufferRow.
    rewrite Hused. cbn [mbind option_bind]. fold filledSlot.
    destruct (D3D12PipelineStateViewer.showNode ui usedSlot filledSlot).
    + split; [reflexivity|]. intros _.
      destruct (negb filledSlot);
        destruct (GetBuffer (D3D12PipelineStateViewer.Buffer v)); eexists; reflexivity.
    + split; [intros [r Hr]; discriminate|discriminate].
Qed.

Lemma slot_row_displayed_iff_witness :
  (∃ r, D3D12PipelineStateViewer.vbufferRow (λ _, "id") (λ _, None)
          (D3D12PipelineStateViewer.mkUi true false) [false; true] 0
          (D3D12PipelineStateViewer.mkVB 7 16 0) = Some (Some r)) ∧
  D3D12PipelineStateViewer.vbufferRow (λ _, "id") (λ _, None)
    (D3D12PipelineStateViewer.mkUi true false) [false; true] 0
    (D3D12PipelineStateViewer.mkVB 0 16 0) = Some None ∧
  D3D12PipelineStateViewer.vbufferRow (λ _, "id") (λ _, None)
    (D3D12PipelineStateViewer.mkUi true false) [false; true] 2
    (D3D12PipelineStateViewer.mkVB 7 16 0) = None.
Proof.
  split; [|split; reflexivity].
  destruct slot_row_displayed_iff as (_ & _ & Hrow).
  apply (Hrow (λ _, "id") (λ _, None) (D3D12PipelineStateViewer.mkUi true false)
           [false; true] 0%nat (D3D12PipelineStateViewer.mkVB 7 16 0) false eq_refl).
  right; left. repeat split; reflexivity.
Defined.

(** ** [SelectEvent] when nothing is selected *)

Lemma FindEventNode_loop_none ppath e cs :
  ∀ i, Forall (λ c, ∀ pp, Forall (λ m, lastEID (tag m) < e) (rows_below c) →
                   FindEventNode None c pp e = (None, false)) cs →
  Forall (λ m, lastEID (tag m) < e) (flat_map (λ c, c :: rows_below c) cs) →
  FindEventNode_loop ppath e cs i None = (None, false).
Proof.
  induction cs as [|n later IH]; intros i Hrec Hlt; [reflexivity|].
  cbn [FindEventNode_loop flat_map] in *.
  apply Forall_cons_1 in Hrec as [Hn Hrec].
  apply Forall_cons_1 in Hlt as [Hlt1 Hlt].
  apply Forall_app in Hlt as [Hlt2 Hlt3].
  rewrite (IH (S i) Hrec Hlt3).
  assert (Hle : (e <=? lastEID (tag n)) = false) by (apply N.leb_gt; exact Hlt1).
  assert (Heq : (lastEID (tag n) =? e) = false) by (apply N.eqb_neq; lia).
  rewrite Hle, Heq. cbn [andb].
  case_bool_decide; [apply Hn; exact Hlt2|reflexivity].
Qed.

Lemma FindEventNode_none e parent :
  ∀ ppath, Forall (λ m, lastEID (tag m) < e) (rows_below parent) →
  FindEventNode None parent ppath e = (None, false).
Proof.
  induction parent as [parent IH] using item_ind. intros ppath Hlt.
  rewrite FindEventNode_unfold. apply FindEventNode_loop_none; [exact IH|].
  rewrite <- rows_below_unfold. exact Hlt.
Qed.

(** C9. Whenever [SelectEvent] returns false the browser is left exactly
    as it was (selection, expansion, tags and everything else); and it does
    return false when no log is loaded and when every row has a [lastEID]
    below the event asked for. *)
Theorem SelectEvent_false_unchanged eventID b :
  (∀ b', SelectEvent eventID b = Some (b', false) → b' = b) ∧
  (LogLoaded (m_Ctx b) = false → SelectEvent eventID b = Some (b, false)) ∧
  (∀ root, topLevelItem b 0 = Some root →
     (∀ n, n ∈ rows_below root → lastEID (tag n) < eventID) →
     SelectEvent eventID b = Some (b, false)).
Proof.
  unfold SelectEvent. split; [|split].
  - intros b'. destruct (LogLoaded (m_Ctx b)); simpl; [|congruence].
    destruct (topLevelItem b 0) as [root|]; simpl; [|discriminate].
    destruct (FindEventNode None root [0%nat] eventID).1 as [[p n]|]; congruence.
  - intros ->. reflexivity.
  - intros root Hroot Hlt. destruct (LogLoaded (m_Ctx b)); simpl; [|reflexivity].
    rewrite Hroot. simpl.
    rewrite FindEventNode_none; [reflexivity|]. apply Forall_forall. exact Hlt.
Qed.

(** ** Bookmarks *)

Lemma indexOf_ge l x : (-1 ≤ indexOf l x)%Z.
Proof.
  induction l as [|y l IH]; simpl; [lia|].
  case_bool_decide; [lia|]. destruct (indexOf l x <? 0)%Z eqn:E; lia.
Qed.

Lemma indexOf_absent l x : x ∉ l → indexOf l x = (-1)%Z.
Proof.
  induction l as [|y l IH]; simpl; [reflexivity|].
  intros Hx. apply not_elem_of_cons in Hx as [Hne Hx].
  rewrite bool_decide_false by congruence.
  rewrite (IH Hx). reflexivity.
Qed.

Lemma indexOf_present l x :
  x ∈ l → (0 ≤ indexOf l x)%Z ∧ l !! Z.to_nat (indexOf l x) = Some x.
Proof.
  induction l as [|y l IH]; simpl; [intros H; inversion H|].
  intros Hx. case_bool_decide as Hy; [subst; split; [lia|reflexivity]|].
  apply elem_of_cons in Hx as [->|Hx]; [congruence|].
  destruct (IH Hx) as [Hge Hlk].
  destruct (indexOf l x <? 0)%Z eqn:E; [lia|].
  split; [lia|].
  replace (Z.to_nat (indexOf l x + 1)) with (S (Z.to_nat (indexOf l x))) by lia.
  exact Hlk.
Qed.

Lemma indexOf_nonneg_iff l x : (0 <=? indexOf l x)%Z = true ↔ x ∈ l.
Proof.
  split.
  - intros H. destruct (decide (x ∈ l)) as [Hin|Hout]; [exact Hin|].
    rewrite (indexOf_absent _ _ Hout) in H. discriminate.
  - intros H. apply Z.leb_le. apply indexOf_present, H.
Qed.

Lemma filter_ne_absent (l : list N) x : x ∉ l → filter (λ y, y ≠ x) l = l.
Proof.
  induction l as [|z l IH]; intros Hx; [reflexivity|].
  apply not_elem_of_cons in Hx as [Hne Hx].
  rewrite filter_cons_True by congruence. f_equal. apply IH, Hx.
Qed.

Lemma delete_NoDup_filter (l : list N) i x :
  NoDup l → l !! i = Some x → delete i l = filter (λ y, y ≠ x) l.
Proof.
  revert i. induction l as [|y l IH]; intros i Hnd Hi; [discriminate|].
  apply NoDup_cons in Hnd as [Hy Hnd].
  destruct i as [|i]; simpl in *.
  - injection Hi as ->. rewrite filter_cons_False by (intros H; apply H; reflexivity).
    symmetry. apply filter_ne_absent, Hy.
  - assert (y ≠ x).
    { intros ->. apply Hy. eapply list_elem_of_lookup_2, Hi. }
    rewrite filter_cons_True by assumption. f_equal. apply IH; assumption.
Qed.

Lemma widgetModifyAt_lookup_0 f p items :
  is_Some (items !! 0%nat) → is_Some (widgetModifyAt f p items !! 0%nat).
Proof.
  intros [r Hr]. destruct p as [|i p]; simpl; [eauto|].
  destruct items as [|it items]; [discriminate|].
  destruct i; simpl; eauto.
Qed.

(** What [toggleBookmark] does to the two bookmark lists and to the strip. *)
Lemma toggleBookmark_lists eid b :
  is_Some (topLevelItem b 0) →
  ∃ b', toggleBookmark eid b = Some b' ∧
    is_Some (topLevelItem b' 0) ∧
    bookmarkStrip_visible b' = negb (bool_decide (m_BookmarkButtons b' = [])) ∧
    if (0 <=? indexOf (m_Bookmarks b) eid)%Z then
      m_Bookmarks b' = delete (Z.to_nat (indexOf (m_Bookmarks b) eid)) (m_Bookmarks b) ∧
      List.map but_eid (m_BookmarkButtons b')
      = delete (Z.to_nat (indexOf (m_Bookmarks b) eid))
          (List.map but_eid (m_BookmarkButtons b))
    else
      m_Bookmarks b' = m_Bookmarks b ++ [eid] ∧
      List.map but_eid (m_BookmarkButtons b')
      = List.map but_eid (m_BookmarkButtons b) ++ [eid].
Proof.
  intros [root Hroot]. unfold toggleBookmark. rewrite Hroot. cbn [mbind option_bind].
  unfold topLevelItem in *.
  eexists; split; [reflexivity|].
  assert (Hmap : ∀ (f : QToolButton → QToolButton) l,
            (∀ x, but_eid (f x) = but_eid x) →
            List.map but_eid (List.map f l) = List.map but_eid l).
  { intros f l Hf. rewrite List.map_map. apply List.map_ext. exact Hf. }
  destruct (0 <=? indexOf (m_Bookmarks b) eid)%Z;
    destruct (FindEventNode None root [0%nat] eid).1 as [[p n]|]; cbn;
    repeat split;
    try (apply widgetModifyAt_lookup_0); eauto;
    try (rewrite Hmap by reflexivity);
    try (rewrite List.map_app; reflexivity).
  all: try (generalize (Z.to_nat (indexOf (m_Bookmarks b) eid));
            generalize (m_BookmarkButtons b); clear;
            induction l as [|x l IH]; intros [|i]; simpl; try reflexivity;
            f_equal; apply IH).
Qed.

(** One call of [toggleBookmark] on a list without duplicates. *)
Lemma toggleBookmark_once eid b :
  NoDup (m_Bookmarks b) → is_Some (topLevelItem b 0) →
  ∃ b1, toggleBookmark eid b = Some b1 ∧
    is_Some (topLevelItem b1 0) ∧
    NoDup (m_Bookmarks b1) ∧
    (eid ∈ m_Bookmarks b →
       m_Bookmarks b1 = filter (λ x, x ≠ eid) (m_Bookmarks b)) ∧
    (eid ∉ m_Bookmarks b → m_Bookmarks b1 = m_Bookmarks b ++ [eid]).
Proof.
  intros Hnd Htop.
  destruct (toggleBookmark_lists eid b Htop) as (b1 & Hb1 & Htop1 & _ & Hl1).
  exists b1. split; [exact Hb1|]. split; [exact Htop1|].
  destruct (decide (eid ∈ m_Bookmarks b)) as [Hin|Hout].
  - destruct (indexOf_present _ _ Hin) as [Hge Hlk].
    apply Z.leb_le in Hge. rewrite Hge in Hl1. destruct Hl1 as [Hbm1 _].
    rewrite (delete_NoDup_filter _ _ _ Hnd Hlk) in Hbm1.
    split; [rewrite Hbm1; apply NoDup_filter, Hnd|].
    split; [intros _; exact Hbm1|intros H; contradiction].
  - rewrite (indexOf_absent _ _ Hout) in Hl1. cbn in Hl1. destruct Hl1 as [Hbm1 _].
    split; [|split; [intros H; contradiction|intros _; exact Hbm1]].
    rewrite Hbm1. apply NoDup_app. split; [exact Hnd|]. split.
    + intros x Hx Hx'. apply list_elem_of_singleton in Hx'. congruence.
    + apply NoDup_singleton.
Qed.

(** [toggleBookmark] keeps the two lists in step. *)
Lemma toggleBookmark_consistent eid b :
  bookmarks_consistent b → is_Some (topLevelItem b 0) →
  ∃ b', toggleBookmark eid b = Some b' ∧ bookmarks_consistent b'.
Proof.
  intros [Hmap Hvis] Htop.
  destruct (toggleBookmark_lists eid b Htop) as (b' & Hb' & _ & Hv & Hl).
  assert (Hmap' : List.map but_eid (m_BookmarkButtons b') = m_Bookmarks b').
  { destruct (0 <=? indexOf (m_Bookmarks b) eid)%Z; destruct Hl as [-> ->];
      rewrite Hmap; reflexivity. }
  exists b'. split; [exact Hb'|].
  split; [exact Hmap'|]. rewrite Hv, <- Hmap'.
  destruct (m_BookmarkButtons b'); reflexivity.
Qed.

(** C10. After [clearBookmarks], and after [toggleBookmark] from a state
    in which the two lists agree, the bookmark list and the button list have
    the same length, the button at each index carries the event ID at that
    index, and the strip is visible exactly when the list is non-empty. *)
Theorem bookmark_lists_consistent b :
  bookmarks_consistent (clearBookmarks b) ∧
  (∀ eid, bookmarks_consistent b → is_Some (topLevelItem b 0) →
     ∃ b', toggleBookmark eid b = Some b' ∧ bookmarks_consistent b' ∧
       length (m_BookmarkButtons b') = length (m_Bookmarks b') ∧
       (∀ i e, m_Bookmarks b' !! i = Some e →
               but_eid <$> m_BookmarkButtons b' !! i = Some e)).
Proof.
  split; [split; reflexivity|].
  intros eid Hc Htop.
  destruct (toggleBookmark_consistent eid b Hc Htop) as (b' & Hb' & Hc').
  exists b'. split; [exact Hb'|]. split; [exact Hc'|].
  destruct Hc' as [Hmap' _]. split.
  - rewrite <- Hmap'. rewrite length_map. reflexivity.
  - intros i e. rewrite <- Hmap'. change (List.map but_eid) with (fmap (M:=list) but_eid).
    rewrite list_lookup_fmap. auto.
Qed.

(** C6. [toggleBookmark(EID)] takes EID out of the bookmark list when it
    is there and appends it when it is not, so two calls in a row give back
    a list with the bookmarks it had before. *)
Theorem toggleBookmark_twice eid b :
  NoDup (m_Bookmarks b) → is_Some (topLevelItem b 0) →
  ∃ b1 b2, toggleBookmark eid b = Some b1 ∧ toggleBookmark eid b1 = Some b2 ∧
    (eid ∈ m_Bookmarks b →
       m_Bookmarks b1 = filter (λ x, x ≠ eid) (m_Bookmarks b) ∧ eid ∉ m_Bookmarks b1) ∧
    (eid ∉ m_Bookmarks b → m_Bookmarks b1 = m_Bookmarks b ++ [eid]) ∧
    NoDup (m_Bookmarks b1) ∧
    (∀ x, x ∈ m_Bookmarks b2 ↔ x ∈ m_Bookmarks b).
Proof.
  intros Hnd Htop.
  destruct (toggleBookmark_once eid b Hnd Htop) as (b1 & Hb1 & Htop1 & Hnd1 & Hin1 & Hout1).
  destruct (toggleBookmark_once eid b1 Hnd1 Htop1) as (b2 & Hb2 & _ & _ & Hin2 & Hout2).
  exists b1, b2. split; [exact Hb1|]. split; [exact Hb2|].
  assert (Hgone : ∀ l : list N, eid ∉ filter (λ x, x ≠ eid) l).
  { intros l H. apply list_elem_of_filter in H as [H _]. congruence. }
  split; [|split; [exact Hout1|split; [exact Hnd1|]]].
  - intros Hin. split; [apply Hin1, Hin|]. rewrite (Hin1 Hin). apply Hgone.
  - intros x. destruct (decide (eid ∈ m_Bookmarks b)) as [Hin|Hout].
    + rewrite Hout2 by (rewrite (Hin1 Hin); apply Hgone).
      rewrite (Hin1 Hin), elem_of_app, list_elem_of_filter, list_elem_of_singleton.
      destruct (decide (x = eid)) as [->|Hne]; intuition.
    + assert (Hnow : eid ∈ m_Bookmarks b1).
      { rewrite (Hout1 Hout). apply elem_of_app. right.
        apply list_elem_of_singleton. reflexivity. }
      rewrite (Hin2 Hnow), (Hout1 Hout), list_elem_of_filter, elem_of_app,
        list_elem_of_singleton.
      destruct (decide (x = eid)) as [->|Hne]; intuition.
Qed.

(** ** The bookmark lists in every reachable state *)

Lemma highlightBookmarks_lists b :
  m_Bookmarks (highlightBookmarks b) = m_Bookmarks b ∧
  List.map but_eid (m_BookmarkButtons (highlightBookmarks b))
  = List.map but_eid (m_BookmarkButtons b) ∧
  bookmarkStrip_visible (highlightBookmarks b) = bookmarkStrip_visible b.
Proof.
  split; [reflexivity|]. split; [|reflexivity].
  cbn. rewrite List.map_map. reflexivity.
Qed.

Lemma ExpandNode_loop_lists rp :
  ∀ b, m_Bookmarks (ExpandNode_loop rp b) = m_Bookmarks b ∧
       m_BookmarkButtons (ExpandNode_loop rp b) = m_BookmarkButtons b ∧
       bookmarkStrip_visible (ExpandNode_loop rp b) = bookmarkStrip_visible b.
Proof.
  induction rp as [|j up IH]; intros b; [auto|].
  cbn [ExpandNode_loop]. destruct (IH (expandItem (reverse (j :: up)) b)) as (-> & -> & ->).
  unfold expandItem. case_decide; auto.
Qed.

Lemma setCurrentItem_lists p b :
  m_Bookmarks (setCurrentItem p b) = m_Bookmarks b ∧
  List.map but_eid (m_BookmarkButtons (setCurrentItem p b))
  = List.map but_eid (m_BookmarkButtons b) ∧
  bookmarkStrip_visible (setCurrentItem p b) = bookmarkStrip_visible b.
Proof.
  unfold setCurrentItem. case_decide; [auto|].
  unfold on_events_currentItemChanged.
  destruct (events_current b) as [prev|]; cbn;
    match goal with |- context [widgetItemAt ?l ?q] => destruct (widgetItemAt l q) end;
    cbn; rewrite ?List.map_map; auto.
Qed.

Lemma SelectEvent_lists e b r :
  SelectEvent e b = Some r →
  m_Bookmarks r.1 = m_Bookmarks b ∧
  List.map but_eid (m_BookmarkButtons r.1) = List.map but_eid (m_BookmarkButtons b) ∧
  bookmarkStrip_visible r.1 = bookmarkStrip_visible b.
Proof.
  unfold SelectEvent. destruct (negb (LogLoaded (m_Ctx b))); [intros [= <-]; auto|].
  destruct (topLevelItem b 0) as [root|]; [|discriminate]. cbn [mbind option_bind].
  destruct (FindEventNode None root [0%nat] e).1 as [[p n]|]; intros [= <-]; [|auto].
  cbn [fst]. unfold ExpandNode.
  destruct (ExpandNode_loop_lists (reverse p) (setSelectedItem p (setCurrentItem p b)))
    as (-> & -> & ->).
  apply (setCurrentItem_lists p b).
Qed.

Lemma Find_lists fw b b' :
  Find fw b = Some b' →
  m_Bookmarks b' = m_Bookmarks b ∧
  List.map but_eid (m_BookmarkButtons b') = List.map but_eid (m_BookmarkButtons b) ∧
  bookmarkStrip_visible b' = bookmarkStrip_visible b.
Proof.
  unfold Find. case_bool_decide; [intros [= <-]; auto|].
  destruct (match events_selected b with Some _ => _ | None => _ end) as [cur|];
    [|discriminate].
  cbn [mbind option_bind].
  assert (Hsel : ∀ e, (r ← SelectEvent e b; Some (with_styleSheet "" r.1)) = Some b' →
            m_Bookmarks b' = m_Bookmarks b ∧
            List.map but_eid (m_BookmarkButtons b')
            = List.map but_eid (m_BookmarkButtons b) ∧
            bookmarkStrip_visible b' = bookmarkStrip_visible b).
  { intros e. destruct (SelectEvent e b) as [r|] eqn:Hr; [|discriminate].
    intros [= <-]. apply (SelectEvent_lists _ _ _ Hr). }
  destruct (0 <=? _)%Z; [apply Hsel|].
  destruct (0 <=? _)%Z; [apply Hsel|]. intros [= <-]. auto.
Qed.

(** In every reachable state the bookmark list has no duplicates and
    agrees with the button list and the strip. *)
Lemma reachable_bookmarks b :
  reachable b → NoDup (m_Bookmarks b) ∧ bookmarks_consistent b.
Proof.
  assert (Hkeep : ∀ b b',
    m_Bookmarks b' = m_Bookmarks b ∧
    List.map but_eid (m_BookmarkButtons b') = List.map but_eid (m_BookmarkButtons b) ∧
    bookmarkStrip_visible b' = bookmarkStrip_visible b →
    NoDup (m_Bookmarks b) ∧ bookmarks_consistent b →
    NoDup (m_Bookmarks b') ∧ bookmarks_consistent b').
  { intros b0 b' (Hb & Hm & Hv) [Hnd [Hmap Hvis]].
    unfold bookmarks_consistent. rewrite Hb, Hm, Hv. auto. }
  assert (Hclear : ∀ b', m_Bookmarks b' = [] → m_BookmarkButtons b' = [] →
                         bookmarkStrip_visible b' = false →
                         NoDup (m_Bookmarks b') ∧ bookmarks_consistent b').
  { intros b' Hb Hm Hv. unfold bookmarks_consistent. rewrite Hb, Hm, Hv.
    split; [constructor|split; reflexivity]. }
  induction 1 as [c|c b Hr IH|s b Hr IH|m b Hr IH|b Hr IH|e b b' Hr IH Hev
                  |e b r Hr IH Hsel|fw b b' Hr IH Hfind|e b b' Hr IH Htog].
  - apply Hclear; reflexivity.
  - apply (Hkeep b); [auto|exact IH].
  - apply (Hkeep b); [auto|exact IH].
  - unfold OnLogfileLoaded. destruct (AddDrawcalls _ _ _) as [frame l].
    apply Hclear; unfold expandItem; case_decide; reflexivity.
  - apply Hclear; reflexivity.
  - unfold OnEventChanged in Hev.
    destruct (SelectEvent e b) as [r|] eqn:Hsel; [|discriminate].
    injection Hev as <-.
    apply (Hkeep r.1); [apply highlightBookmarks_lists|].
    apply (Hkeep b); [apply (SelectEvent_lists _ _ _ Hsel)|exact IH].
  - apply (Hkeep b); [apply (SelectEvent_lists _ _ _ Hsel)|exact IH].
  - apply (Hkeep b); [apply (Find_lists _ _ _ Hfind)|exact IH].
  - destruct IH as [Hnd Hc].
    assert (Htop : is_Some (topLevelItem b 0)).
    { unfold toggleBookmark in Htog.
      destruct (topLevelItem b 0); [eauto|discriminate]. }
    destruct (toggleBookmark_once e b Hnd Htop) as (b1 & Hb1 & _ & Hnd1 & _).
    destruct (toggleBookmark_consistent e b Hc Htop) as (b2 & Hb2 & Hc2).
    rewrite Htog in Hb1, Hb2. injection Hb1 as <-. injection Hb2 as <-. auto.
Qed.

(** ** Rows built from draws *)

Section Rows.

Variable SetMarker : N.

Lemma AddDrawcall_snd d rest :
  (AddDrawcall SetMarker d rest).2 = lastEID (tag (AddDrawcall SetMarker d rest).1).
Proof.
  rewrite AddDrawcall_unfold.
  destruct (AddDrawcalls SetMarker _ (children d)) as [child l]. reflexivity.
Qed.

Lemma AddDrawcalls_loop_rows draws :
  ∀ parent l0,
    AddDrawcalls_loop SetMarker parent l0 draws
    = (mkItem (text parent) (tag parent) (icon parent)
         (childItems parent ++ build_rows SetMarker draws),
       default l0 ((λ r, lastEID (tag r)) <$> last (build_rows SetMarker draws))).
Proof.
  induction draws as [|d rest IH]; intros parent l0; cbn [AddDrawcalls_loop build_rows].
  - rewrite app_nil_r. destruct parent; reflexivity.
  - pose proof (AddDrawcall_snd d rest) as Hsnd.
    destruct (AddDrawcall SetMarker d rest) as [c l]. cbn [fst snd] in *.
    rewrite IH. cbn [addChild text tag icon childItems].
    rewrite <- app_assoc. f_equal.
    destruct rest as [|d' rest']; [cbn; congruence|].
    cbn [build_rows]. rewrite last_cons_cons.
    destruct (last (_ :: _)) eqn:E; [reflexivity|].
    apply last_None in E. discriminate.
Qed.

Lemma AddDrawcalls_rows parent draws :
  AddDrawcalls SetMarker parent draws
  = (mkItem (text parent) (tag parent) (icon parent)
       (childItems parent ++ build_rows SetMarker draws),
     last_lastEID (build_rows SetMarker draws)).
Proof. apply AddDrawcalls_loop_rows. Qed.

(** The row of one draw, written out. *)
Lemma AddDrawcall_row d rest :
  let rows := build_rows SetMarker (children d) in
  let L := last_lastEID rows in
  (AddDrawcall SetMarker d rest).1
  = mkItem [name d; if eventID d <? L then range_text (eventID d) L else pretty (eventID d);
            "0.0"]
      (EventItemTag2 (eventID d) (if L =? 0 then childless_lastEID SetMarker d rest else L))
      NoIcon rows.
Proof.
  intros rows L. rewrite AddDrawcall_unfold, AddDrawcalls_rows. fold rows. fold L.
  cbn [newItem text tag icon childItems app].
  destruct (eventID d <? L); reflexivity.
Qed.

Lemma build_rows_length draws : length (build_rows SetMarker draws) = length draws.
Proof. induction draws as [|d rest IH]; simpl; [reflexivity|]. by rewrite IH. Qed.

Lemma row_shape_AddDrawcall d :
  ∀ rest, row_shape (AddDrawcall SetMarker d rest).1 = draw_shape d.
Proof.
  induction d as [d IH] using draw_ind. intros rest.
  rewrite AddDrawcall_row. destruct d as [e di nm fl cs].
  cbn [row_shape draw_shape childItems children name eventID tag EID textAt text].
  f_equal. cbn [children] in IH.
  induction cs as [|c cs' IHcs]; [reflexivity|].
  apply Forall_cons_1 in IH as [Hc Hcs].
  cbn [build_rows List.map]. rewrite Hc. f_equal. apply IHcs, Hcs.
Qed.

Lemma build_rows_shape draws :
  List.map row_shape (build_rows SetMarker draws) = List.map draw_shape draws.
Proof.
  induction draws as [|d rest IH]; [reflexivity|].
  cbn [build_rows List.map]. rewrite row_shape_AddDrawcall, IH. reflexivity.
Qed.

End Rows.

(** C5. [AddDrawcalls] appends to the parent one row per draw of the list,
    with one row per child draw below it and so on, siblings in the order of
    the list; the draw list of the context is the same before and after a
    capture is loaded. *)
Theorem AddDrawcalls_one_row_per_draw SetMarker :
  (∀ parent draws, ∃ rows,
     (AddDrawcalls SetMarker parent draws).1
     = mkItem (text parent) (tag parent) (icon parent) (childItems parent ++ rows) ∧
     length rows = length draws ∧
     List.map row_shape rows = List.map draw_shape draws) ∧
  (∀ b, CurDrawcalls (m_Ctx (OnLogfileLoaded SetMarker b)) = CurDrawcalls (m_Ctx b) ∧
        ∃ frame framestart rows,
          events_items (OnLogfileLoaded SetMarker b) = events_items b ++ [frame] ∧
          childItems frame = framestart :: rows ∧
          List.map row_shape rows = List.map draw_shape (CurDrawcalls (m_Ctx b))).
Proof.
  split.
  - intros parent draws. exists (build_rows SetMarker draws).
    rewrite AddDrawcalls_rows. cbn [fst].
    split; [reflexivity|]. split; [apply build_rows_length|apply build_rows_shape].
  - intros b. unfold OnLogfileLoaded. rewrite AddDrawcalls_rows.
    split.
    + unfold expandItem. case_decide; reflexivity.
    + eexists _, _, (build_rows SetMarker (CurDrawcalls (m_Ctx b))).
      split; [|split; [|apply build_rows_shape]].
      * unfold expandItem. case_decide; reflexivity.
      * reflexivity.
Qed.

(** ** Increasing event IDs *)

Lemma preorder_eids_unfold d :
  preorder_eids d = eventID d :: flat_map preorder_eids (children d).
Proof. destruct d; reflexivity. Qed.

Lemma increasing_cons d rest :
  increasing (d :: rest) →
  increasing (children d) ∧ increasing rest ∧
  Forall (N.lt (eventID d)) (flat_map preorder_eids (children d)) ∧
  Forall (N.lt (eventID d)) (flat_map preorder_eids rest).
Proof.
  unfold increasing. cbn [flat_map]. rewrite preorder_eids_unfold.
  rewrite <- app_comm_cons. intros H.
  apply StronglySorted_cons in H as [Hall H].
  apply Forall_app in Hall as [Hall1 Hall2].
  apply StronglySorted_app in H as (_ & H1 & H2). auto.
Qed.

Lemma increasing_last ds c : increasing ds → last ds = Some c → increasing [c].
Proof.
  intros H Hlast. apply last_Some in Hlast as [l' ->].
  unfold increasing in *. rewrite flat_map_app in H.
  apply StronglySorted_app_1_r in H. exact H.
Qed.

Lemma eventID_in_preorder ds c :
  c ∈ ds → eventID c ∈ flat_map preorder_eids ds.
Proof.
  intros Hc. apply list_elem_of_In, in_flat_map. exists c.
  split; [apply list_elem_of_In, Hc|]. rewrite preorder_eids_unfold. left. reflexivity.
Qed.

Lemma append_empty_r (s : string) : s +:+ "" = s.
Proof.
  induction s as [|c s IH]; [reflexivity|].
  change (String c (s +:+ "") = String c s). f_equal. exact IH.
Qed.

Lemma pretty_ne_range (e l : N) : pretty e ≠ range_text e l.
Proof.
  unfold range_text. intros H.
  rewrite <- (append_empty_r (pretty e)) in H at 1.
  apply String.app_inj in H. discriminate.
Qed.

Section RowTags.

Variable SetMarker : N.

Lemma build_rows_last ds c :
  last ds = Some c →
  last (build_rows SetMarker ds) = Some (AddDrawcall SetMarker c []).1.
Proof.
  induction ds as [|d rest IH]; [discriminate|].
  destruct rest as [|d' rest'].
  - cbn. intros [= ->]. reflexivity.
  - rewrite last_cons_cons. intros H. cbn [build_rows] in *.
    rewrite last_cons_cons. apply IH, H.
Qed.

Lemma row_matches_unfold P d rest r :
  row_matches P d rest r
  = (P d rest r ∧ rows_match P (children d) (childItems r)).
Proof.
  destruct d as [e di nm fl cs]. cbn [row_matches children]. f_equal.
  generalize (childItems r).
  induction cs as [|c cs' IH]; intros [|r' rs']; try reflexivity.
  cbn [rows_match]. rewrite <- IH. reflexivity.
Qed.

Lemma AddDrawcall_tag_ok d :
  ∀ rest, increasing (d :: rest) →
    eventID d ≤ lastEID (tag (AddDrawcall SetMarker d rest).1) ∧
    (children d ≠ [] →
     eventID d < last_lastEID (build_rows SetMarker (children d))).
Proof.
  induction d as [d IH] using draw_ind. intros rest Hinc.
  destruct (increasing_cons _ _ Hinc) as (Hcs & Hrest & Hbelow & Hafter).
  assert (Hkids : children d ≠ [] →
            eventID d < last_lastEID (build_rows SetMarker (children d))).
  { intros Hne. apply last_is_Some in Hne as [c Hc].
    unfold last_lastEID. rewrite (build_rows_last _ _ Hc).
    change (eventID d < lastEID (tag (AddDrawcall SetMarker c []).1)).
    assert (Hin : c ∈ children d).
    { apply last_Some in Hc as [l' ->]. apply elem_of_app. right. by apply list_elem_of_singleton. }
    pose proof (proj1 (Forall_forall _ _) IH c Hin [] (increasing_last _ _ Hcs Hc)) as [Hge _].
    pose proof (proj1 (Forall_forall _ _) Hbelow _ (eventID_in_preorder _ _ Hin)) as Hlt.
    simpl in Hlt. lia. }
  split; [|exact Hkids].
  rewrite AddDrawcall_row. cbn [tag lastEID EventItemTag2].
  destruct (children d) as [|c cs] eqn:Hch.
  - cbn. unfold childless_lastEID. destruct rest as [|next rest']; [lia|].
    destruct (has_flag (flags d) SetMarker); [|lia].
    cbn [flat_map] in Hafter. rewrite preorder_eids_unfold in Hafter.
    apply Forall_cons_1 in Hafter as [Hlt _]. simpl in Hlt. lia.
  - assert (Hlt : eventID d < last_lastEID (build_rows SetMarker (c :: cs)))
      by (apply Hkids; discriminate).
    destruct (N.eqb_spec (last_lastEID (build_rows SetMarker (c :: cs))) 0); lia.
Qed.

Lemma build_rows_match P ds :
  Forall (λ d, ∀ rest, increasing (d :: rest) →
                 row_matches P d rest (AddDrawcall SetMarker d rest).1) ds →
  increasing ds → rows_match P ds (build_rows SetMarker ds).
Proof.
  induction ds as [|d rest IH]; intros Hall Hinc; [exact I|].
  apply Forall_cons_1 in Hall as [Hd Hall].
  cbn [build_rows rows_match]. split; [apply Hd, Hinc|].
  apply IH; [exact Hall|]. apply (increasing_cons _ _ Hinc).
Qed.

Lemma row_built d :
  ∀ rest, increasing (d :: rest) →
    row_matches (row_as_built SetMarker) d rest (AddDrawcall SetMarker d rest).1.
Proof.
  induction d as [d IH] using draw_ind. intros rest Hinc.
  rewrite row_matches_unfold.
  destruct (AddDrawcall_tag_ok d rest Hinc) as [Hge Hkids].
  destruct (increasing_cons _ _ Hinc) as (Hcs & _).
  rewrite AddDrawcall_row in *. cbn [tag lastEID EID EventItemTag2 childItems] in *.
  split; [|apply build_rows_match; assumption].
  unfold row_as_built.
  cbn [tag lastEID EID EventItemTag2 textAt text COL_EID lookup list_lookup default].
  destruct (children d) as [|c cs] eqn:Hch.
  - change (last_lastEID (build_rows SetMarker [])) with 0 in *.
    assert (E1 : (eventID d <? 0) = false) by (apply N.ltb_ge; lia).
    rewrite E1 in *. cbn [N.eqb] in *.
    split; [reflexivity|]. split; [exact Hge|]. split; [reflexivity|].
    split; [|reflexivity].
    split; [intros Heq; exfalso; exact (pretty_ne_range _ _ Heq)|].
    intros [_ Hne]. congruence.
  - assert (Hlt : eventID d < last_lastEID (build_rows SetMarker (c :: cs)))
      by (apply Hkids; discriminate).
    set (L := last_lastEID (build_rows SetMarker (c :: cs))) in *.
    assert (E1 : (eventID d <? L) = true) by (apply N.ltb_lt; exact Hlt).
    assert (E2 : (L =? 0) = false) by (apply N.eqb_neq; lia).
    rewrite E1, E2 in *.
    split; [reflexivity|]. split; [exact Hge|]. split; [discriminate|].
    split; [|discriminate].
    split; [intros _; split; [exact Hlt|discriminate]|reflexivity].
Qed.

End RowTags.

(** C4 (as amended). For a draw list whose event IDs increase strictly in
    traversal order, every row gets a tag with EID at most lastEID; a
    childless draw gets its own event ID as lastEID, except a childless
    SetMarker draw followed by a sibling, which gets that sibling's event
    ID; the EID column shows the range exactly for the draws that have
    children, a childless draw always showing its own event ID; and the value
    returned is the lastEID of the last row added (0 for an empty list). *)
Theorem AddDrawcalls_tags SetMarker parent draws :
  increasing draws →
  ∃ rows,
    AddDrawcalls SetMarker parent draws
    = (mkItem (text parent) (tag parent) (icon parent) (childItems parent ++ rows),
       last_lastEID rows) ∧
    rows_match (row_as_built SetMarker) draws rows.
Proof.
  intros Hinc. exists (build_rows SetMarker draws).
  split; [apply AddDrawcalls_rows|].
  apply build_rows_match; [|exact Hinc].
  apply Forall_forall. intros d _. apply row_built.
Qed.

(** ** The row [FindEventNode] finds *)

Lemma childCount_0 n : childCount n = 0%nat → rows_below n = [].
Proof.
  intros H. rewrite rows_below_unfold. unfold childCount in H.
  destruct (childItems n); [reflexivity|discriminate].
Qed.

Lemma child_in_rows_below p c : c ∈ childItems p → c ∈ rows_below p.
Proof.
  intros Hc. rewrite rows_below_unfold. apply list_elem_of_In, in_flat_map.
  exists c. split; [apply list_elem_of_In, Hc|left; reflexivity].
Qed.

Lemma rows_below_trans p c m : c ∈ childItems p → m ∈ rows_below c → m ∈ rows_below p.
Proof.
  intros Hc Hm. rewrite rows_below_unfold. apply list_elem_of_In, in_flat_map.
  exists c. split; [apply list_elem_of_In, Hc|right; apply list_elem_of_In, Hm].
Qed.

Lemma itemAt_in_rows_below q :
  ∀ p n, q ≠ [] → itemAt p q = Some n → n ∈ rows_below p.
Proof.
  induction q as [|j q IH]; intros p n Hne Hat; [congruence|].
  cbn [itemAt] in Hat.
  destruct (childItems p !! j) as [c|] eqn:Hj; [|discriminate]. cbn in Hat.
  assert (Hc : c ∈ childItems p) by (eapply list_elem_of_lookup_2, Hj).
  destruct q as [|j' q'].
  - injection Hat as ->. apply child_in_rows_below, Hc.
  - eapply rows_below_trans; [exact Hc|]. apply IH; [discriminate|exact Hat].
Qed.

Section NearestRow.

Variable e : N.

Lemma search_post_loop ppath cs :
  Forall (λ c, ∀ found pp,
            (∀ l, found_eid found = Some l → e ≤ l) →
            search_post e (rows_below c)
              (λ f, ∃ q, q ≠ [] ∧ f.1 = pp ++ q ∧ itemAt c q = Some f.2)
              found (FindEventNode found c pp e)) cs →
  ∀ i found,
    (∀ l, found_eid found = Some l → e ≤ l) →
    search_post e (flat_map (λ c, c :: rows_below c) cs)
      (λ f, ∃ j c q, cs !! j = Some c ∧ f.1 = ppath ++ (i + j)%nat :: q ∧
                     itemAt c q = Some f.2)
      found (FindEventNode_loop ppath e cs i found).
Proof.
  induction cs as [|n later IH]; intros Hrec i found Hwf.
  { cbn. repeat split; auto.
    - intros l Hl. eauto using N.le_refl.
    - discriminate.
    - intros _ m Hm. inversion Hm. }
  apply Forall_cons_1 in Hrec as [Hn Hrec].
  cbn [FindEventNode_loop flat_map].
  destruct (IH Hrec (S i) found Hwf) as (W1 & I1 & O1 & T1 & F1).
  destruct (FindEventNode_loop ppath e later (S i) found) as [f1 ret1].
  cbn [fst snd] in *.
  (* rows picked up among the later children are rows of the whole list *)
  assert (O1' : f1 = found ∨
                ∃ f, f1 = Some f ∧
                     ∃ j c q, (n :: later) !! j = Some c ∧
                              f.1 = ppath ++ (i + j)%nat :: q ∧ itemAt c q = Some f.2).
  { destruct O1 as [->|(f & -> & j & c & q & Hj & Hp & Hq)]; [left; reflexivity|].
    right. exists f. split; [reflexivity|]. exists (S j), c, q.
    split; [exact Hj|]. split; [|exact Hq].
    rewrite Hp. do 2 f_equal. lia. }
  destruct ret1.
  { split; [exact W1|]. split; [exact I1|]. split; [exact O1'|].
    split; [intros _; apply T1; reflexivity|discriminate]. }
  (* the body of the loop for [n] *)
  set (nEID := lastEID (tag n)).
  set (fEID := match f1 with Some (_, f) => lastEID (tag f) | None => 0 end).
  set (take := (e <=? nEID) && (bool_decide (f1 = None) || (nEID <=? fEID))).
  set (f2 := if take then Some (ppath ++ [i], n) else f1).
  assert (HfEID : ∀ l, found_eid f1 = Some l → l = fEID).
  { intros l. unfold fEID. destruct f1 as [[p f]|]; cbn; congruence. }
  assert (W2 : ∀ l, found_eid f2 = Some l → e ≤ l).
  { unfold f2. destruct take eqn:Ht; [|exact W1].
    intros l [= <-]. apply andb_true_iff in Ht as [Ht _]. apply N.leb_le, Ht. }
  assert (I2 : ∀ l, found_eid f1 = Some l → ∃ l', found_eid f2 = Some l' ∧ l' ≤ l).
  { intros l Hl. unfold f2. destruct take eqn:Ht; [|eauto using N.le_refl].
    exists nEID. split; [reflexivity|].
    apply andb_true_iff in Ht as [_ Ht]. apply orb_true_iff in Ht as [Ht|Ht].
    - apply bool_decide_eq_true in Ht. subst f1. discriminate.
    - rewrite (HfEID _ Hl). apply N.leb_le, Ht. }
  assert (I2' : ∀ l, found_eid found = Some l → ∃ l', found_eid f2 = Some l' ∧ l' ≤ l).
  { intros l Hl. destruct (I1 _ Hl) as (l1 & Hl1 & Hle1).
    destruct (I2 _ Hl1) as (l2 & Hl2 & Hle2). exists l2. split; [exact Hl2|lia]. }
  assert (O2 : f2 = found ∨
               ∃ f, f2 = Some f ∧
                    ∃ j c q, (n :: later) !! j = Some c ∧
                             f.1 = ppath ++ (i + j)%nat :: q ∧ itemAt c q = Some f.2).
  { unfold f2. destruct take; [|exact O1'].
    right. eexists. split; [reflexivity|]. exists 0%nat, n, [].
    split; [reflexivity|]. split; [|reflexivity].
    cbn [fst]. do 2 f_equal. lia. }
  assert (N2 : e ≤ nEID → ∃ l, found_eid f2 = Some l ∧ l ≤ nEID).
  { intros Hle. unfold f2, take.
    rewrite (proj2 (N.leb_le _ _) Hle). cbn [andb].
    destruct f1 as [[p f]|] eqn:Hf1.
    - rewrite bool_decide_false by discriminate. cbn [orb].
      destruct (N.leb_spec nEID fEID) as [H|H].
      + exists nEID. split; [reflexivity|lia].
      + exists fEID. split; [reflexivity|lia].
    - exists nEID. split; [reflexivity|lia]. }
  assert (F2 : ∀ m, m ∈ later ≫= (λ c, c :: rows_below c) ∨ m = n →
               e ≤ lastEID (tag m) → ∃ l, found_eid f2 = Some l ∧ l ≤ lastEID (tag m)).
  { intros m [Hm| ->] Hle; [|apply N2, Hle].
    destruct (F1 eq_refl m) as (l & Hl & Hlm); [|exact Hle|].
    - apply list_elem_of_In. apply list_elem_of_In in Hm. exact Hm.
    - destruct (I2 _ Hl) as (l2 & Hl2 & Hle2). exists l2. split; [exact Hl2|lia]. }
  fold nEID. fold fEID. fold take. fold f2.
  destruct ((nEID =? e) && bool_decide (childCount n = 0%nat)) eqn:Hexact.
  { (* exact hit on a leaf *)
    apply andb_true_iff in Hexact as [Heq _]. apply N.eqb_eq in Heq.
    unfold search_post. cbn [fst snd].
    split; [exact W2|]. split; [exact I2'|]. split; [exact O2|].
    split; [|discriminate]. intros _.
    destruct N2 as (l & Hl & Hle); [lia|].
    rewrite Hl. f_equal. pose proof (W2 _ Hl). lia. }
  destruct (bool_decide (0 < childCount n)%nat) eqn:Hkids.
  - (* descend into [n] *)
    destruct (Hn f2 (ppath ++ [i]) W2) as (W3 & I3 & O3 & T3 & F3).
    destruct (FindEventNode f2 n (ppath ++ [i]) e) as [f3 ret3].
    unfold search_post. cbn [fst snd] in *.
    split; [exact W3|]. split; [|split; [|split; [exact T3|]]].
    + intros l Hl. destruct (I2' _ Hl) as (l2 & Hl2 & Hle2).
      destruct (I3 _ Hl2) as (l3 & Hl3 & Hle3). exists l3. split; [exact Hl3|lia].
    + destruct O3 as [->|(f & -> & q & Hq & Hp & Hat)]; [exact O2|].
      right. exists f. split; [reflexivity|]. exists 0%nat, n, q.
      split; [reflexivity|]. split; [|exact Hat].
      rewrite Hp, <- app_assoc. cbn [app]. do 2 f_equal. lia.
    + intros Hret m Hm Hle.
      apply elem_of_cons in Hm as [->|Hm]; [|apply elem_of_app in Hm as [Hm|Hm]].
      * destruct (N2 Hle) as (l2 & Hl2 & Hle2).
        destruct (I3 _ Hl2) as (l3 & Hl3 & Hle3). exists l3.
        split; [exact Hl3|]. fold nEID. lia.
      * apply (F3 Hret m Hm Hle).
      * destruct (F2 m (or_introl Hm) Hle) as (l2 & Hl2 & Hle2).
        destruct (I3 _ Hl2) as (l3 & Hl3 & Hle3). exists l3. split; [exact Hl3|lia].
  - (* a leaf that is not an exact hit *)
    apply bool_decide_eq_false in Hkids.
    assert (Hleaf : rows_below n = []) by (apply childCount_0; lia).
    unfold search_post. cbn [fst snd].
    split; [exact W2|]. split; [exact I2'|]. split; [exact O2|].
    split; [discriminate|]. intros _ m Hm Hle. rewrite Hleaf in Hm.
    apply elem_of_cons in Hm as [->|Hm]; [apply N2, Hle|].
    cbn [app] in Hm. apply F2; [left; exact Hm|exact Hle].
Qed.

Lemma search_post_node parent :
  ∀ found ppath,
    (∀ l, found_eid found = Some l → e ≤ l) →
    search_post e (rows_below parent)
      (λ f, ∃ q, q ≠ [] ∧ f.1 = ppath ++ q ∧ itemAt parent q = Some f.2)
      found (FindEventNode found parent ppath e).
Proof.
  induction parent as [parent IH] using item_ind. intros found ppath Hwf.
  rewrite FindEventNode_unfold, rows_below_unfold.
  destruct (search_post_loop ppath (childItems parent) IH 0%nat found Hwf)
    as (W & I & O & T & F).
  split; [exact W|]. split; [exact I|]. split; [|split; [exact T|exact F]].
  destruct O as [->|(f & -> & j & c & q & Hj & Hp & Hat)]; [left; reflexivity|].
  right. exists f. split; [reflexivity|]. exists (j :: q).
  split; [discriminate|]. split; [exact Hp|].
  cbn [itemAt]. rewrite Hj. exact Hat.
Qed.

End NearestRow.

(** ** What [SelectEvent] selects *)

Lemma ExpandNode_loop_keeps rp :
  ∀ b, events_current (ExpandNode_loop rp b) = events_current b ∧
       events_selected (ExpandNode_loop rp b) = events_selected b.
Proof.
  induction rp as [|j up IH]; intros b; [split; reflexivity|].
  cbn [ExpandNode_loop]. destruct (IH (expandItem (reverse (j :: up)) b)) as [-> ->].
  unfold expandItem. case_decide; split; reflexivity.
Qed.

Lemma setCurrentItem_current p b : events_current (setCurrentItem p b) = Some p.
Proof.
  unfold setCurrentItem. case_decide as Hc; [exact Hc|].
  unfold on_events_currentItemChanged.
  destruct (events_current b) as [prev|]; cbn;
    match goal with |- context [widgetItemAt ?l ?q] => destruct (widgetItemAt l q) end;
    reflexivity.
Qed.

Lemma select_marks p b :
  let b' := ExpandNode p (setSelectedItem p (setCurrentItem p b)) in
  events_current b' = Some p ∧ events_selected b' = Some p.
Proof.
  intros b'. unfold b', ExpandNode.
  destruct (ExpandNode_loop_keeps (reverse p) (setSelectedItem p (setCurrentItem p b)))
    as [-> ->].
  split; [apply setCurrentItem_current|reflexivity].
Qed.

(** C1. With a log loaded, [SelectEvent(eventID)] makes current and
    selected a row whose stored lastEID is the smallest lastEID that is at
    least eventID, and returns true; when every row has a lastEID below
    eventID it returns false.  (This holds for every tree, so in particular
    for those with increasing event IDs.) *)
Theorem SelectEvent_selects_nearest eventID b root :
  LogLoaded (m_Ctx b) = true →
  topLevelItem b 0 = Some root →
  ((∃ m, m ∈ rows_below root ∧ eventID ≤ lastEID (tag m)) →
     ∃ b' p n,
       SelectEvent eventID b = Some (b', true) ∧
       events_current b' = Some p ∧ events_selected b' = Some p ∧
       widgetItemAt (events_items b) p = Some n ∧
       n ∈ rows_below root ∧
       eventID ≤ lastEID (tag n) ∧
       ∀ m, m ∈ rows_below root → eventID ≤ lastEID (tag m) →
            lastEID (tag n) ≤ lastEID (tag m)) ∧
  ((∀ m, m ∈ rows_below root → lastEID (tag m) < eventID) →
     SelectEvent eventID b = Some (b, false)).
Proof.
  intros Hlog Hroot. split.
  - intros (m0 & Hm0 & Hle0).
    unfold SelectEvent. rewrite Hlog, Hroot. cbn [negb mbind option_bind].
    destruct (search_post_node eventID root None [0%nat]) as (W & _ & O & T & F);
      [discriminate|].
    destruct (FindEventNode None root [0%nat] eventID) as [fnd ret]. cbn [fst snd] in *.
    assert (Hsome : ∃ f, fnd = Some f).
    { destruct ret.
      - destruct fnd; [eauto|]. specialize (T eq_refl). discriminate.
      - destruct (F eq_refl m0 Hm0 Hle0) as (l & Hl & _).
        destruct fnd; [eauto|discriminate]. }
    destruct Hsome as [[p n] ->].
    destruct O as [O|(f & [= <-] & q & Hq & Hp & Hat)]; [discriminate|].
    cbn [fst snd] in *. subst p.
    destruct (select_marks ([0%nat] ++ q) b) as [Hcur Hsel].
    eexists _, _, n. split; [reflexivity|].
    split; [exact Hcur|]. split; [exact Hsel|]. split; [|split; [|split]].
    + cbn. unfold topLevelItem in Hroot. rewrite Hroot. exact Hat.
    + apply itemAt_in_rows_below with q; assumption.
    + apply W. reflexivity.
    + intros m Hm Hle. destruct ret.
      * specialize (T eq_refl). injection T as T. cbn in T. lia.
      * destruct (F eq_refl m Hm Hle) as (l & [= <-] & Hl). exact Hl.
  - intros Hlt. unfold SelectEvent. rewrite Hlog, Hroot. cbn [negb mbind option_bind].
    rewrite FindEventNode_none; [reflexivity|]. apply Forall_forall. exact Hlt.
Qed.

(** ** The first hit of [FindEvent] *)

Lemma find_app {A} (f : A → bool) l1 l2 :
  List.find f (l1 ++ l2)
  = match List.find f l1 with Some x => Some x | None => List.find f l2 end.
Proof.
  induction l1 as [|x l1 IH]; [reflexivity|].
  cbn [app List.find]. destruct (f x); [reflexivity|exact IH].
Qed.

Lemma visit_order_list forward it :
  visit_order forward it = visit_list forward (childItems it).
Proof.
  unfold visit_list.
  destruct forward; [apply visit_order_forward|apply visit_order_backward].
Qed.

Lemma visit_list_cons_forward c later :
  visit_list true (c :: later) = (c :: visit_order true c) ++ visit_list true later.
Proof. reflexivity. Qed.

Lemma visit_list_cons_backward c later :
  visit_list false (c :: later) = visit_list false later ++ (c :: visit_order false c).
Proof.
  unfold visit_list. rewrite reverse_cons, flat_map_app. cbn [flat_map].
  by rewrite app_nil_r.
Qed.

Lemma visit_list_elem forward cs m :
  m ∈ visit_list forward cs ↔ ∃ c, c ∈ cs ∧ (m = c ∨ m ∈ visit_order forward c).
Proof.
  unfold visit_list. rewrite list_elem_of_In, in_flat_map. split.
  - intros (c & Hc & Hm). exists c. split.
    + apply list_elem_of_In in Hc. destruct forward; [exact Hc|].
      apply elem_of_reverse, Hc.
    + destruct Hm as [->|Hm]; [left; reflexivity|right; apply list_elem_of_In, Hm].
  - intros (c & Hc & Hm). exists c. split.
    + apply list_elem_of_In. destruct forward; [exact Hc|]. apply elem_of_reverse, Hc.
    + destruct Hm as [->|Hm]; [left; reflexivity|right; apply list_elem_of_In, Hm].
Qed.

Lemma rows_below_elem it m :
  m ∈ rows_below it ↔ ∃ c, c ∈ childItems it ∧ (m = c ∨ m ∈ rows_below c).
Proof.
  rewrite rows_below_unfold, list_elem_of_In, in_flat_map. split.
  - intros (c & Hc & Hm). exists c. split; [apply list_elem_of_In, Hc|].
    destruct Hm as [->|Hm]; [left; reflexivity|right; apply list_elem_of_In, Hm].
  - intros (c & Hc & Hm). exists c. split; [apply list_elem_of_In, Hc|].
    destruct Hm as [->|Hm]; [left; reflexivity|right; apply list_elem_of_In, Hm].
Qed.

(** Both directions meet exactly the rows below the item. *)
Lemma visit_order_elem forward it :
  ∀ m, m ∈ visit_order forward it ↔ m ∈ rows_below it.
Proof.
  induction it as [it IH] using item_ind. intros m.
  rewrite visit_order_list, visit_list_elem, rows_below_elem.
  split; intros (c & Hc & Hm); exists c; (split; [exact Hc|]);
    (destruct Hm as [->|Hm]; [left; reflexivity|right]);
    apply (proj1 (Forall_forall _ _) IH c Hc); exact Hm.
Qed.

Lemma visit_order_document it : visit_order true it = rows_below it.
Proof.
  induction it as [it IH] using item_ind.
  rewrite visit_order_forward, rows_below_unfold.
  induction (childItems it) as [|c cs IHcs]; [reflexivity|].
  apply Forall_cons_1 in IH as [Hc Hcs]. cbn [flat_map].
  rewrite Hc, (IHcs Hcs). reflexivity.
Qed.

Lemma to_int_small n : n < 2 ^ 31 → to_int n = Z.of_N n.
Proof.
  intros H. unfold to_int.
  assert (Hz : (0 ≤ Z.of_N n < 2 ^ 31)%Z) by lia.
  rewrite Z.mod_small by lia.
  destruct (Z.ltb_spec (Z.of_N n) (2 ^ 31)); lia.
Qed.

Section FirstHit.

Variables (filter : string) (after : N) (forward : bool).

Lemma FindEvent_body_first n :
  lastEID (tag n) < 2 ^ 31 → positive_int n →
  FindEvent_in n filter after forward = first_hit filter after forward (visit_order forward n) →
  FindEvent_body filter after forward n
  = row_eid <$> List.find (is_hit filter after forward) (n :: visit_order forward n).
Proof.
  intros Hn Hpos Hrec. unfold FindEvent_body. cbn [List.find].
  set (hit := is_hit filter after forward).
  unfold hit at 1, is_hit.
  destruct (matchesAfter forward after (lastEID (tag n)) &&
            contains_ci (textAt COL_NAME n) filter).
  { cbn. rewrite to_int_small by exact Hn. reflexivity. }
  destruct (bool_decide (0 < childCount n)%nat) eqn:Hkids.
  - rewrite Hrec. unfold first_hit. fold hit.
    destruct (List.find hit (visit_order forward n)) as [m|] eqn:Hfind; [|reflexivity].
    apply find_some in Hfind as [Hm _].
    apply list_elem_of_In in Hm. apply (proj1 (visit_order_elem forward n m)) in Hm.
    apply Hpos in Hm.
    cbn. unfold row_eid.
    destruct (Z.ltb_spec 0 (Z.of_N (lastEID (tag m)))); [reflexivity|lia].
  - apply bool_decide_eq_false in Hkids.
    assert (Hleaf : rows_below n = []) by (apply childCount_0; lia).
    destruct (visit_order forward n) as [|m l] eqn:Hv; [reflexivity|].
    assert (Hm : m ∈ rows_below n).
    { apply (proj1 (visit_order_elem forward n m)). rewrite Hv. left. }
    rewrite Hleaf in Hm. inversion Hm.
Qed.

Lemma FindEvent_loop_first cs :
  Forall (λ c, lastEID (tag c) < 2 ^ 31 ∧ positive_int c ∧
               FindEvent_in c filter after forward
               = first_hit filter after forward (visit_order forward c)) cs →
  FindEvent_loop filter after forward cs
  = row_eid <$> List.find (is_hit filter after forward) (visit_list forward cs).
Proof.
  induction cs as [|n later IH]; intros Hall.
  { destruct forward; reflexivity. }
  apply Forall_cons_1 in Hall as [(Hn & Hpos & Hrec) Hall].
  cbn [FindEvent_loop].
  rewrite (FindEvent_body_first n Hn Hpos Hrec), (IH Hall).
  set (hit := is_hit filter after forward).
  destruct forward.
  - rewrite visit_list_cons_forward, find_app.
    destruct (List.find hit (n :: visit_order true n)); reflexivity.
  - rewrite visit_list_cons_backward, find_app.
    destruct (List.find hit (visit_list false later)); reflexivity.
Qed.

Lemma positive_int_child c n : positive_int c → n ∈ childItems c →
  lastEID (tag n) < 2 ^ 31 ∧ positive_int n.
Proof.
  intros Hpos Hn. split; [apply Hpos, child_in_rows_below, Hn|].
  intros m Hm. apply Hpos. eapply rows_below_trans; eassumption.
Qed.

Lemma FindEvent_in_first_nested c :
  positive_int c →
  FindEvent_in c filter after forward
  = first_hit filter after forward (visit_order forward c).
Proof.
  induction c as [c IH] using item_ind. intros Hpos.
  rewrite FindEvent_in_unfold, FindEvent_loop_first.
  - rewrite visit_order_list. unfold first_hit.
    destruct (List.find _ (visit_list forward (childItems c))); reflexivity.
  - apply Forall_forall. intros n Hn.
    destruct (positive_int_child c n Hpos Hn) as [Hlt Hpn].
    split; [exact Hlt|]. split; [exact Hpn|].
    apply (proj1 (Forall_forall _ _) IH n Hn Hpn).
Qed.

Lemma FindEvent_in_first root :
  fits_int root → nested_nonzero root →
  FindEvent_in root filter after forward
  = first_hit filter after forward (visit_order forward root).
Proof.
  intros Hfit Hnz.
  rewrite FindEvent_in_unfold, FindEvent_loop_first.
  - rewrite visit_order_list. unfold first_hit.
    destruct (List.find _ (visit_list forward (childItems root))); reflexivity.
  - apply Forall_forall. intros c Hc.
    assert (Hpos : positive_int c).
    { intros m Hm. split; [eapply Hnz; eassumption|].
      apply Hfit. eapply rows_below_trans; eassumption. }
    split; [apply Hfit, child_in_rows_below, Hc|]. split; [exact Hpos|].
    apply FindEvent_in_first_nested, Hpos.
Qed.

End FirstHit.

(** C2 (as amended). For a loaded log whose rows have a lastEID below
    2^31, non-zero for the rows nested under a child of the top-level item,
    [FindEvent(filter, after, forward)] returns the lastEID of the first row
    met whose name contains the filter (case-insensitively) and whose
    lastEID is strictly beyond [after] in the search direction, or -1 if
    there is none.  Forwards the rows are met in document order; backwards
    the siblings are met from last to first, each row still before the rows
    below it. *)
Theorem FindEvent_first_hit b root filter after forward :
  LogLoaded (m_Ctx b) = true →
  topLevelItem b 0 = Some root →
  fits_int root → nested_nonzero root →
  FindEvent b filter after forward
  = first_hit filter after forward (visit_order forward root) ∧
  (∀ it, visit_order true it = rows_below it) ∧
  (∀ it, visit_order false it
         = flat_map (λ c, c :: visit_order false c) (reverse (childItems it))).
Proof.
  intros Hlog Hroot Hfit Hnz. split; [|split].
  - unfold FindEvent. rewrite Hlog, Hroot. cbn [negb FindEvent_node].
    apply FindEvent_in_first; assumption.
  - apply visit_order_document.
  - apply visit_order_backward.
Qed.

(** ** [Find] and its second search *)

Lemma SelectEvent_total eventID b :
  is_Some (topLevelItem b 0) → is_Some (SelectEvent eventID b).
Proof.
  intros [root Hroot]. unfold SelectEvent.
  destruct (negb (LogLoaded (m_Ctx b))); [eauto|].
  rewrite Hroot. cbn [mbind option_bind].
  destruct (FindEventNode None root [0%nat] eventID).1 as [[p n]|]; eauto.
Qed.

Lemma first_hit_nonneg filter after forward order :
  (0 <=? first_hit filter after forward order)%Z = true ↔
  ∃ n, n ∈ order ∧ is_hit filter after forward n = true.
Proof.
  unfold first_hit.
  destruct (List.find (is_hit filter after forward) order) as [n|] eqn:Hfind.
  - split; [|intros _; apply Z.leb_le; lia].
    intros _. apply find_some in Hfind as [Hin Hhit].
    exists n. split; [apply list_elem_of_In, Hin|exact Hhit].
  - split; [discriminate|]. intros (n & Hin & Hhit).
    apply list_elem_of_In in Hin.
    rewrite (find_none _ _ Hfind n Hin) in Hhit. discriminate.
Qed.

Lemma Find_unfold forward b :
  findEvent_text b ≠ "" →
  Find forward b
  = (curEID ← Find_curEID b;
     let eid := FindEvent b (findEvent_text b) curEID forward in
     if (0 <=? eid)%Z then
       r ← SelectEvent (Z.to_N eid) b; Some (with_styleSheet "" r.1)
     else
       let eid := FindEvent b (findEvent_text b) (wrap_start forward) forward in
       if (0 <=? eid)%Z then
         r ← SelectEvent (Z.to_N eid) b; Some (with_styleSheet "" r.1)
       else Some (with_styleSheet RED b)).
Proof.
  intros Htext. unfold Find. rewrite bool_decide_false by exact Htext. reflexivity.
Qed.

(** When [Find] turns the find box red, for rows whose lastEID is below
    2^31 and non-zero when nested: exactly when every row containing the
    filter has lastEID 0 and the search goes forwards, or no row contains
    the filter. *)
Lemma Find_red_iff forward b root :
  LogLoaded (m_Ctx b) = true →
  topLevelItem b 0 = Some root →
  findEvent_text b ≠ "" →
  is_Some (Find_curEID b) →
  fits_int root → nested_nonzero root →
  ∃ b',
    Find forward b = Some b' ∧
    (findEvent_styleSheet b' = RED ↔
       ∀ n, n ∈ rows_below root →
            contains_ci (textAt COL_NAME n) (findEvent_text b) = true →
            forward = true ∧ lastEID (tag n) = 0) ∧
    (findEvent_styleSheet b' = RED → b' = with_styleSheet RED b) ∧
    (∀ cur, Find_curEID b = Some cur →
       (FindEvent b (findEvent_text b) cur forward < 0)%Z →
       Find forward b
       = let eid := FindEvent b (findEvent_text b) (wrap_start forward) forward in
         if (0 <=? eid)%Z then
           r ← SelectEvent (Z.to_N eid) b; Some (with_styleSheet "" r.1)
         else Some (with_styleSheet RED b)).
Proof.
  intros Hlog Hroot Htext [cur Hcur] Hfit Hnz.
  assert (Hsearch : ∀ after,
    FindEvent b (findEvent_text b) after forward
    = first_hit (findEvent_text b) after forward (visit_order forward root)).
  { intros after. unfold FindEvent. rewrite Hlog, Hroot. cbn [negb FindEvent_node].
    apply FindEvent_in_first; assumption. }
  (* a hit of either search is a row that a red box would rule out *)
  assert (Hhit : ∀ after,
    (∃ n, n ∈ visit_order forward root ∧
          is_hit (findEvent_text b) after forward n = true) →
    ¬ ∀ n, n ∈ rows_below root →
           contains_ci (textAt COL_NAME n) (findEvent_text b) = true →
           forward = true ∧ lastEID (tag n) = 0).
  { intros after (n & Hn & Hit) Hall.
    apply (proj1 (visit_order_elem forward root n)) in Hn.
    unfold is_hit in Hit. apply andb_true_iff in Hit as [Hafter Hname].
    destruct (Hall n Hn Hname) as [-> Hzero].
    unfold matchesAfter in Hafter. cbn in Hafter. rewrite orb_false_r in Hafter.
    apply N.ltb_lt in Hafter. lia. }
  assert (Hsel : ∀ e, ∃ r, SelectEvent e b = Some r).
  { intros e. apply SelectEvent_total. rewrite Hroot. eauto. }
  assert (Hred : RED ≠ "") by discriminate.
  rewrite (Find_unfold forward b Htext), Hcur. cbn [mbind option_bind].
  rewrite !Hsearch.
  destruct (0 <=? first_hit (findEvent_text b) cur forward (visit_order forward root))%Z
    eqn:H1.
  { destruct (Hsel (Z.to_N (first_hit (findEvent_text b) cur forward
                              (visit_order forward root)))) as [r Hr].
    rewrite Hr. cbn [mbind option_bind]. eexists. split; [reflexivity|].
    apply first_hit_nonneg in H1.
    split; [|split].
    - cbn. split; [intros H; symmetry in H; contradiction|].
      intros Hall. exfalso. exact (Hhit cur H1 Hall).
    - cbn. intros H. symmetry in H. contradiction.
    - intros cur' [= <-] Hneg. rewrite Hsearch in Hneg.
      apply first_hit_nonneg, Z.leb_le in H1. lia. }
  cbn zeta.
  destruct (0 <=? first_hit (findEvent_text b) (wrap_start forward) forward
                    (visit_order forward root))%Z eqn:H2.
  { destruct (Hsel (Z.to_N (first_hit (findEvent_text b) (wrap_start forward) forward
                              (visit_order forward root)))) as [r Hr].
    rewrite Hr. cbn [mbind option_bind]. eexists. split; [reflexivity|].
    pose proof H2 as H2'. apply first_hit_nonneg in H2'.
    split; [|split].
    - cbn. split; [intros H; symmetry in H; contradiction|].
      intros Hall. exfalso. exact (Hhit _ H2' Hall).
    - cbn. intros H. symmetry in H. contradiction.
    - intros cur' [= <-] _. reflexivity. }
  eexists. split; [reflexivity|]. split; [|split].
  - cbn. split; [|reflexivity]. intros _ n Hn Hname.
    destruct (decide (is_hit (findEvent_text b) (wrap_start forward) forward n = true))
      as [Hit|Hno].
    + assert (H2' : (0 <=? first_hit (findEvent_text b) (wrap_start forward) forward
                              (visit_order forward root))%Z = true).
      { apply first_hit_nonneg. exists n. split; [|exact Hit].
        apply (proj2 (visit_order_elem forward root n)), Hn. }
      congruence.
    + unfold is_hit in Hno. rewrite Hname, andb_true_r in Hno.
      unfold matchesAfter, wrap_start in Hno. pose proof (Hfit n Hn) as Hlt.
      destruct forward; cbn in Hno.
      * rewrite orb_false_r in Hno. split; [reflexivity|].
        destruct (N.ltb_spec 0 (lastEID (tag n))); [congruence|lia].
      * exfalso. apply Hno. apply N.ltb_lt. unfold UINT_MAX. lia.
  - reflexivity.
  - intros cur' [= <-] _. reflexivity.
Qed.

(** ** The rows of a loaded capture are in range *)

Section InRange.

Variable SetMarker : N.

Lemma eids_in_range_cons d rest :
  eids_in_range (d :: rest) →
  0 < eventID d < 2 ^ 31 ∧ eids_in_range (children d) ∧ eids_in_range rest.
Proof.
  unfold eids_in_range. cbn [flat_map]. rewrite preorder_eids_unfold.
  rewrite <- app_comm_cons. intros H.
  apply Forall_cons_1 in H as [Hd H]. apply Forall_app in H as [Hc Hr]. auto.
Qed.

Lemma build_rows_in_range ds :
  Forall (λ d, ∀ rest, eids_in_range (d :: rest) →
                 0 < lastEID (tag (AddDrawcall SetMarker d rest).1) < 2 ^ 31 ∧
                 positive_int (AddDrawcall SetMarker d rest).1) ds →
  eids_in_range ds →
  Forall (λ r, 0 < lastEID (tag r) < 2 ^ 31 ∧ positive_int r) (build_rows SetMarker ds).
Proof.
  induction ds as [|d rest IH]; intros Hall Hrange; [constructor|].
  apply Forall_cons_1 in Hall as [Hd Hall]. cbn [build_rows].
  constructor; [apply Hd, Hrange|].
  apply IH; [exact Hall|]. apply (eids_in_range_cons _ _ Hrange).
Qed.

Lemma rows_in_range_below (it : RDTreeWidgetItem) :
  Forall (λ r, 0 < lastEID (tag r) < 2 ^ 31 ∧ positive_int r) (childItems it) →
  positive_int it.
Proof.
  intros Hall m Hm. apply rows_below_elem in Hm as (c & Hc & Hm).
  destruct (proj1 (Forall_forall _ _) Hall c Hc) as [Hlt Hpos].
  destruct Hm as [->|Hm]; [exact Hlt|apply Hpos, Hm].
Qed.

Lemma row_in_range d :
  ∀ rest, eids_in_range (d :: rest) →
    0 < lastEID (tag (AddDrawcall SetMarker d rest).1) < 2 ^ 31 ∧
    positive_int (AddDrawcall SetMarker d rest).1.
Proof.
  induction d as [d IH] using draw_ind. intros rest Hrange.
  destruct (eids_in_range_cons _ _ Hrange) as (Hd & Hkids & Hrest).
  pose proof (build_rows_in_range (children d) IH Hkids) as Hrows.
  rewrite AddDrawcall_row. split.
  - cbn [tag lastEID EventItemTag2].
    destruct (N.eqb_spec (last_lastEID (build_rows SetMarker (children d))) 0) as [_|Hne].
    + unfold childless_lastEID. destruct rest as [|next rest']; [exact Hd|].
      destruct (has_flag (flags d) SetMarker); [|exact Hd].
      apply (eids_in_range_cons _ _ Hrest).
    + unfold last_lastEID in *.
      destruct (last (build_rows SetMarker (children d))) as [r|] eqn:Hlast;
        [|cbn in Hne; congruence].
      cbn. apply last_Some in Hlast as [l' Hl']. rewrite Hl' in Hrows.
      apply Forall_app in Hrows as [_ Hr]. apply Forall_cons_1 in Hr as [[Hr _] _].
      exact Hr.
  - apply rows_in_range_below. exact Hrows.
Qed.

(** After [OnLogfileLoaded] on an empty tree, for draws with event IDs
    between 1 and 2^31 - 1, the top-level item satisfies the two conditions
    under which [FindEvent] and [Find] are characterised above. *)
Lemma loaded_tree_in_range b :
  events_items b = [] →
  eids_in_range (CurDrawcalls (m_Ctx b)) →
  ∃ root, topLevelItem (OnLogfileLoaded SetMarker b) 0 = Some root ∧
          fits_int root ∧ nested_nonzero root.
Proof.
  intros Hempty Hrange.
  assert (Hrows : Forall (λ r, 0 < lastEID (tag r) < 2 ^ 31 ∧ positive_int r)
                    (build_rows SetMarker (CurDrawcalls (m_Ctx b)))).
  { apply build_rows_in_range; [|exact Hrange].
    apply Forall_forall. intros d _. apply row_in_range. }
  unfold OnLogfileLoaded. rewrite AddDrawcalls_rows.
  eexists. split.
  - unfold topLevelItem, expandItem. case_decide; cbn; rewrite Hempty; reflexivity.
  - cbn [setTag text tag icon childItems addChild newItem app]. split.
    + intros m Hm. apply rows_below_elem in Hm as (c & Hc & Hm).
      cbn [childItems] in Hc. apply elem_of_cons in Hc as [->|Hc].
      * destruct Hm as [->|Hm]; [cbn; lia|]. cbn in Hm. inversion Hm.
      * destruct (proj1 (Forall_forall _ _) Hrows c Hc) as [Hlt Hpos].
        destruct Hm as [->|Hm]; [lia|]. apply (Hpos m Hm).
    + intros c m Hc Hm. cbn [childItems] in Hc. apply elem_of_cons in Hc as [->|Hc].
      * cbn in Hm. inversion Hm.
      * destruct (proj1 (Forall_forall _ _) Hrows c Hc) as [_ Hpos]. apply (Hpos m Hm).
Qed.

End InRange.

(** C3 (as amended). With a log loaded and a non-empty filter, when the
    search from the current event finds nothing [Find(forward)] searches
    again, from event 0 forwards and from the largest 32-bit value
    backwards.  For rows whose lastEID is below 2^31, non-zero when nested
    under a child of the top-level item and, when searching forwards,
    non-zero when the name contains the filter, it reports failure (red find
    box, nothing else changed) exactly when no row below the top-level item
    has a name containing the filter. *)
Theorem Find_reports_failure forward b root :
  LogLoaded (m_Ctx b) = true →
  topLevelItem b 0 = Some root →
  findEvent_text b ≠ "" →
  is_Some (Find_curEID b) →
  fits_int root → nested_nonzero root →
  (forward = true →
   ∀ n, n ∈ rows_below root →
        contains_ci (textAt COL_NAME n) (findEvent_text b) = true →
        0 < lastEID (tag n)) →
  ∃ b',
    Find forward b = Some b' ∧
    (findEvent_styleSheet b' = RED ↔
       ∀ n, n ∈ rows_below root →
            contains_ci (textAt COL_NAME n) (findEvent_text b) = false) ∧
    (findEvent_styleSheet b' = RED → b' = with_styleSheet RED b) ∧
    (∀ cur, Find_curEID b = Some cur →
       (FindEvent b (findEvent_text b) cur forward < 0)%Z →
       Find forward b
       = let eid := FindEvent b (findEvent_text b) (wrap_start forward) forward in
         if (0 <=? eid)%Z then
           r ← SelectEvent (Z.to_N eid) b; Some (with_styleSheet "" r.1)
         else Some (with_styleSheet RED b)).
Proof.
  intros Hlog Hroot Htext Hcur Hfit Hnz Hfwd.
  destruct (Find_red_iff forward b root Hlog Hroot Htext Hcur Hfit Hnz)
    as (b' & Hb' & Hred & Hsame & Hretry).
  exists b'. split; [exact Hb'|]. split; [|split; [exact Hsame|exact Hretry]].
  rewrite Hred. split.
  - intros Hall n Hn.
    destruct (contains_ci (textAt COL_NAME n) (findEvent_text b)) eqn:Hname;
      [|reflexivity].
    destruct (Hall n Hn Hname) as [Hf Hzero].
    pose proof (Hfwd Hf n Hn Hname). lia.
  - intros Hnone n Hn Hname. rewrite (Hnone n Hn) in Hname. discriminate.
Qed.

(** ** The example capture *)

Example demo_browser_loaded :
  OnLogfileLoaded 16 (EventBrowser_new (mkCtx true 0 0 demo_draws 7)) = demo_browser.
Proof. vm_compute. reflexivity. Qed.

Example demo_increasing : increasing demo_draws.
Proof. unfold increasing. cbn. repeat constructor. Qed.

Lemma fits_int_Forall root :
  Forall (λ n, lastEID (tag n) < 2 ^ 31) (rows_below root) → fits_int root.
Proof. intros H n Hn. exact (proj1 (Forall_forall _ _) H n Hn). Qed.

Lemma nested_nonzero_Forall root :
  Forall (λ c, Forall (λ n, 0 < lastEID (tag n)) (rows_below c)) (childItems root) →
  nested_nonzero root.
Proof.
  intros H c n Hc Hn.
  exact (proj1 (Forall_forall _ _) (proj1 (Forall_forall _ _) H c Hc) n Hn).
Qed.

Example demo_fits_int : fits_int demo_root.
Proof. apply fits_int_Forall. cbn. repeat constructor. Qed.

Example demo_nested_nonzero : nested_nonzero demo_root.
Proof. apply nested_nonzero_Forall. cbn. repeat constructor. Qed.

(** C2, counterexample.  Searching backwards for "foo" from event 10, the
    marker region "foo pass" (lastEID 4) is met before the draws below it,
    so [FindEvent] returns 4; in the reverse of document order the draw
    "foo" (lastEID 3) comes before its parent. *)
Lemma FindEvent_backward_counterexample :
  LogLoaded (m_Ctx demo_browser) = true ∧
  topLevelItem demo_browser 0 = Some demo_root ∧
  FindEvent demo_browser "foo" 10 false = 4%Z ∧
  document_order_search demo_root "foo" 10 false = 3%Z ∧
  FindEvent demo_browser "foo" 10 false ≠ document_order_search demo_root "foo" 10 false.
Proof.
  assert (H1 : FindEvent demo_browser "foo" 10 false = 4%Z) by (vm_compute; reflexivity).
  assert (H2 : document_order_search demo_root "foo" 10 false = 3%Z)
    by (vm_compute; reflexivity).
  split; [reflexivity|]. split; [reflexivity|]. split; [exact H1|]. split; [exact H2|].
  rewrite H1, H2. discriminate.
Qed.

(** Why the characterisation asks for lastEIDs below 2^31: a row with
    lastEID 2^31 + 1 is a hit of the forward search from 0, but the cast to
    [int] makes its event ID negative. *)
Example FindEvent_int_cast :
  FindEvent_in
    (mkItem ["Frame"] EventItemTag0 NoIcon
       [mkItem ["foo"; "2147483649"; "0.0"] (EventItemTag1 2147483649) NoIcon []])
    "foo" 0 true
  = (-2147483647)%Z.
Proof. vm_compute. reflexivity. Qed.

(** Why it asks for non-zero lastEIDs on nested rows: a nested hit with
    lastEID 0 is dropped by the test [found > 0] of the enclosing call. *)
Example FindEvent_nested_zero :
  FindEvent_in
    (mkItem ["Frame"] EventItemTag0 NoIcon
       [mkItem ["pass"; "0"; "0.0"] (EventItemTag1 0) NoIcon
          [mkItem ["foo"; "0"; "0.0"] (EventItemTag1 0) NoIcon []]])
    "foo" 5 false
  = (-1)%Z.
Proof. vm_compute. reflexivity. Qed.

(** C3, counterexample.  With "#7" in the find box, [Find] turns the box
    red in both directions although a node of the tree, the top-level item
    "Frame #7", contains the filter: the search only looks at the rows below
    the top-level item. *)
Lemma Find_top_level_counterexample :
  topLevelItem demo_browser 0 = Some demo_root ∧
  contains_ci (textAt COL_NAME demo_root) "#7" = true ∧
  (∃ b', Find true (with_findText "#7" demo_browser) = Some b' ∧
         findEvent_styleSheet b' = RED) ∧
  (∃ b', Find false (with_findText "#7" demo_browser) = Some b' ∧
         findEvent_styleSheet b' = RED).
Proof.
  split; [reflexivity|]. split; [vm_compute; reflexivity|].
  split; (eexists; split; [vm_compute; reflexivity|reflexivity]).
Qed.

(** With "start" in the find box, [Find(true)] turns the box red although
    the row "Frame Start" contains the filter: its lastEID is 0, which no
    forward search goes beyond, while [Find(false)] selects it. *)
Example Find_forward_misses_frame_start :
  (∃ b', Find true (with_findText "start" demo_browser) = Some b' ∧
         findEvent_styleSheet b' = RED) ∧
  (∃ b', Find false (with_findText "start" demo_browser) = Some b' ∧
         findEvent_styleSheet b' = "" ∧
         events_selected b' = Some [0%nat; 0%nat]).
Proof.
  split; eexists; (split; [vm_compute; reflexivity|]); [reflexivity|].
  split; reflexivity.
Qed.

(** C4, counterexample.  The set-marker "Begin" (event 1) is childless and
    followed by a sibling, so its tag is (1, 2); its EID column still shows
    "1", not the range "1-2". *)
Lemma AddDrawcalls_range_counterexample :
  increasing demo_draws ∧
  AddDrawcalls 16 (newItem ["Frame"]) demo_draws
  = (mkItem ["Frame"] EventItemTag0 NoIcon demo_rows, 5) ∧
  (∃ r, demo_rows !! 0%nat = Some r ∧
        EID (tag r) < lastEID (tag r) ∧
        textAt COL_EID r = "1" ∧
        textAt COL_EID r ≠ range_text (EID (tag r)) (lastEID (tag r))) ∧
  ¬ rows_match (row_as_stated 16) demo_draws demo_rows.
Proof.
  split; [exact demo_increasing|]. split; [vm_compute; reflexivity|]. split.
  - eexists. split; [reflexivity|]. split; [reflexivity|]. split; [reflexivity|].
    vm_compute. discriminate.
  - intros [Hrow _]. rewrite row_matches_unfold in Hrow.
    destruct Hrow as [(_ & _ & _ & Hiff) _].
    assert (Hlt : EID (EventItemTag2 1 2) < lastEID (EventItemTag2 1 2)) by reflexivity.
    apply Hiff in Hlt. vm_compute in Hlt. discriminate.
Qed.


(** ** The properties at work on the example capture *)

(** C1 on the example capture: event 3 selects a row with lastEID 3. *)
Lemma SelectEvent_selects_nearest_witness :
  LogLoaded (m_Ctx demo_browser) = true ∧
  topLevelItem demo_browser 0 = Some demo_root ∧
  ∃ b' p n,
    SelectEvent 3 demo_browser = Some (b', true) ∧
    events_selected b' = Some p ∧
    widgetItemAt (events_items demo_browser) p = Some n ∧
    3 ≤ lastEID (tag n) ≤ 3.
Proof.
  split; [reflexivity|]. split; [reflexivity|].
  destruct (SelectEvent_selects_nearest 3 demo_browser demo_root eq_refl eq_refl)
    as [Hsel _].
  set (foo := mkItem ["foo"; "3"; "0.0"] (EventItemTag2 3 3) NoIcon []).
  assert (Hfoo : foo ∈ rows_below demo_root) by (cbn; repeat constructor).
  destruct Hsel as (b' & p & n & Hs & _ & Hp & Hat & _ & Hge & Hmin).
  - exists foo. split; [exact Hfoo|]. cbn. lia.
  - exists b', p, n. split; [exact Hs|]. split; [exact Hp|]. split; [exact Hat|].
    split; [exact Hge|]. apply (Hmin foo Hfoo). cbn. lia.
Defined.

(** C2 on the example capture, searching backwards for "foo" from 10. *)
Lemma FindEvent_first_hit_witness :
  LogLoaded (m_Ctx demo_browser) = true ∧
  topLevelItem demo_browser 0 = Some demo_root ∧
  fits_int demo_root ∧ nested_nonzero demo_root ∧
  FindEvent demo_browser "foo" 10 false
  = first_hit "foo" 10 false (visit_order false demo_root).
Proof.
  assert (Hfit : fits_int demo_root)
    by (apply fits_int_Forall; cbn; repeat constructor).
  assert (Hnz : nested_nonzero demo_root)
    by (apply nested_nonzero_Forall; cbn; repeat constructor).
  split; [reflexivity|]. split; [reflexivity|]. split; [exact Hfit|]. split; [exact Hnz|].
  apply (FindEvent_first_hit demo_browser demo_root "foo" 10 false eq_refl eq_refl Hfit Hnz).
Defined.

(** C3 on the example capture: "bar" is found, the box does not turn red. *)
Lemma Find_reports_failure_witness :
  LogLoaded (m_Ctx (with_findText "bar" demo_browser)) = true ∧
  topLevelItem (with_findText "bar" demo_browser) 0 = Some demo_root ∧
  findEvent_text (with_findText "bar" demo_browser) ≠ "" ∧
  is_Some (Find_curEID (with_findText "bar" demo_browser)) ∧
  fits_int demo_root ∧ nested_nonzero demo_root ∧
  ∃ b', Find true (with_findText "bar" demo_browser) = Some b' ∧
        findEvent_styleSheet b' ≠ RED.
Proof.
  assert (Hfit : fits_int demo_root)
    by (apply fits_int_Forall; cbn; repeat constructor).
  assert (Hnz : nested_nonzero demo_root)
    by (apply nested_nonzero_Forall; cbn; repeat constructor).
  assert (Htext : findEvent_text (with_findText "bar" demo_browser) ≠ "")
    by discriminate.
  assert (Hcur : is_Some (Find_curEID (with_findText "bar" demo_browser)))
    by (eexists; reflexivity).
  assert (Hfwd : true = true →
            ∀ n, n ∈ rows_below demo_root →
                 contains_ci (textAt COL_NAME n)
                   (findEvent_text (with_findText "bar" demo_browser)) = true →
                 0 < lastEID (tag n)).
  { intros _.
    apply (proj1 (Forall_forall
             (λ n, contains_ci (textAt COL_NAME n)
                     (findEvent_text (with_findText "bar" demo_browser)) = true →
                   0 < lastEID (tag n)) (rows_below demo_root))).
    cbn [rows_below demo_root demo_rows childItems flat_map app].
    repeat (constructor; [vm_compute; intros Hc; first [discriminate Hc|reflexivity]|]).
    constructor. }
  split; [reflexivity|]. split; [reflexivity|]. split; [exact Htext|].
  split; [exact Hcur|]. split; [exact Hfit|]. split; [exact Hnz|].
  destruct (Find_reports_failure true (with_findText "bar" demo_browser) demo_root
              eq_refl eq_refl Htext Hcur Hfit Hnz Hfwd) as (b' & Hb' & Hred & _).
  exists b'. split; [exact Hb'|]. intros H. pose proof (proj1 Hred H) as Hall.
  set (bar := mkItem ["bar"; "4"; "0.0"] (EventItemTag2 4 4) NoIcon []).
  assert (Hbar : bar ∈ rows_below demo_root) by (cbn; repeat constructor).
  specialize (Hall bar Hbar). vm_compute in Hall. discriminate.
Defined.

(** C4 on the draws of the example capture. *)
Lemma AddDrawcalls_tags_witness :
  increasing demo_draws ∧
  ∃ rows, AddDrawcalls 16 (newItem ["Frame"]) demo_draws
          = (mkItem ["Frame"] EventItemTag0 NoIcon rows, last_lastEID rows) ∧
          rows_match (row_as_built 16) demo_draws rows.
Proof.
  assert (Hinc : increasing demo_draws)
    by (unfold increasing; cbn; repeat constructor).
  split; [exact Hinc|].
  exact (AddDrawcalls_tags 16 (newItem ["Frame"]) demo_draws Hinc).
Defined.

(** C6 on the example capture: bookmarking event 4 and taking it back. *)
Lemma toggleBookmark_twice_witness :
  NoDup (m_Bookmarks demo_browser) ∧
  is_Some (topLevelItem demo_browser 0) ∧
  ∃ b1 b2, toggleBookmark 4 demo_browser = Some b1 ∧ toggleBookmark 4 b1 = Some b2 ∧
           m_Bookmarks b1 = [4] ∧ ∀ x, x ∈ m_Bookmarks b2 ↔ x ∈ [].
Proof.
  assert (Hnd : NoDup (m_Bookmarks demo_browser)) by (cbn; constructor).
  assert (Htop : is_Some (topLevelItem demo_browser 0)) by (eexists; reflexivity).
  split; [exact Hnd|]. split; [exact Htop|].
  destruct (toggleBookmark_twice 4 demo_browser Hnd Htop)
    as (b1 & b2 & H1 & H2 & _ & Hadd & _ & Hsame).
  exists b1, b2. split; [exact H1|]. split; [exact H2|]. split; [|exact Hsame].
  apply Hadd. cbn. intros H. inversion H.
Defined.

(** C9 on the example capture: no row reaches event 6. *)
Lemma SelectEvent_false_unchanged_witness :
  topLevelItem demo_browser 0 = Some demo_root ∧
  SelectEvent 6 demo_browser = Some (demo_browser, false).
Proof.
  split; [reflexivity|].
  destruct (SelectEvent_false_unchanged 6 demo_browser) as (_ & _ & Hnone).
  apply (Hnone demo_root eq_refl).
  intros n Hn. revert n Hn. apply Forall_forall. cbn. repeat constructor.
Defined.

(** C10 on the example capture: bookmarking event 4. *)
Lemma bookmark_lists_consistent_witness :
  bookmarks_consistent demo_browser ∧
  is_Some (topLevelItem demo_browser 0) ∧
  ∃ b', toggleBookmark 4 demo_browser = Some b' ∧ bookmarks_consistent b'.
Proof.
  assert (Hc : bookmarks_consistent demo_browser) by (split; reflexivity).
  assert (Htop : is_Some (topLevelItem demo_browser 0)) by (eexists; reflexivity).
  split; [exact Hc|]. split; [exact Htop|].
  destruct (bookmark_lists_consistent demo_browser) as [_ Htoggle].
  destruct (Htoggle 4 Hc Htop) as (b' & Hb' & Hc' & _).
  exists b'. split; [exact Hb'|exact Hc'].
Defined.

(** * Further properties *)

(** ** Find icons *)

Lemma ClearFindIcons_in_unfold p :
  ClearFindIcons_in p = setChildren (ClearFindIcons_loop (childItems p)) p.
Proof. destruct p; reflexivity. Qed.

Lemma SetFindIcons_in_unfold p filter :
  SetFindIcons_in p filter
  = let '(cs, r) := SetFindIcons_loop filter (childItems p) 0%Z in (setChildren cs p, r).
Proof.
  destruct p as [t g ic cs]. cbn [SetFindIcons_in childItems].
  match goal with
  | |- (let '(_, _) := ?loop cs 0%Z in _) = _ =>
      enough (H : ∀ l r, loop l r = SetFindIcons_loop filter l r) by (rewrite H; reflexivity)
  end.
  induction l as [|n later IH]; intros r; [reflexivity|].
  cbn [SetFindIcons_loop].
  destruct (contains_ci (textAt COL_NAME n) filter);
    destruct (bool_decide (0 < childCount n)%nat);
    try destruct (SetFindIcons_in n filter) as [m r'];
    rewrite IH; reflexivity.
Qed.

Lemma rows_below_setChildren cs it :
  rows_below (setChildren cs it) = flat_map (λ c, c :: rows_below c) cs.
Proof. rewrite rows_below_unfold. reflexivity. Qed.

Lemma rows_below_retag f n : rows_below (retag f n) = rows_below n.
Proof.
  rewrite !rows_below_unfold. unfold retag, RefreshIcon.
  destruct (current (f (tag n))), (bookmark (f (tag n))), (find (f (tag n))); reflexivity.
Qed.

Lemma childItems_retag f n : childItems (retag f n) = childItems n.
Proof.
  unfold retag, RefreshIcon.
  destruct (current (f (tag n))), (bookmark (f (tag n))), (find (f (tag n))); reflexivity.
Qed.

Lemma text_retag f n : text (retag f n) = text n.
Proof.
  unfold retag, RefreshIcon.
  destruct (current (f (tag n))), (bookmark (f (tag n))), (find (f (tag n))); reflexivity.
Qed.

Lemma tag_retag f n : tag (retag f n) = f (tag n).
Proof.
  unfold retag, RefreshIcon.
  destruct (current (f (tag n))), (bookmark (f (tag n))), (find (f (tag n))); reflexivity.
Qed.

Lemma no_children_rows n : ¬ (0 < childCount n)%nat → childItems n = [].
Proof. unfold childCount. destruct (childItems n); simpl; [reflexivity|lia]. Qed.

(** The row that the loops put in the place of [n]: [n] with the tag and
    icon of [n'] and the children of [m]. *)
Lemma row_view_setChildren cs n : row_view (setChildren cs n) = row_view n.
Proof. reflexivity. Qed.

Lemma ClearFindIcons_loop_rows cs :
  Forall (λ c, List.map row_view (rows_below (ClearFindIcons_in c))
               = List.map (λ n, row_view (retag (set_find false) n)) (rows_below c)) cs →
  List.map row_view (flat_map (λ c, c :: rows_below c) (ClearFindIcons_loop cs))
  = List.map (λ n, row_view (retag (set_find false) n))
      (flat_map (λ c, c :: rows_below c) cs).
Proof.
  induction cs as [|n later IH]; intros Hall; [reflexivity|].
  apply Forall_cons_1 in Hall as [Hn Hall].
  cbn [ClearFindIcons_loop flat_map]. rewrite !List.map_app. cbn [List.map].
  rewrite (IH Hall). f_equal.
  destruct (bool_decide (0 < childCount n)%nat) eqn:Hkids.
  - rewrite row_view_setChildren, rows_below_setChildren, <- rows_below_unfold, Hn.
    reflexivity.
  - apply bool_decide_eq_false in Hkids. apply no_children_rows in Hkids.
    rewrite rows_below_retag, (rows_below_unfold n), Hkids. reflexivity.
Qed.

Lemma ClearFindIcons_in_rows p :
  List.map row_view (rows_below (ClearFindIcons_in p))
  = List.map (λ n, row_view (retag (set_find false) n)) (rows_below p).
Proof.
  induction p as [p IH] using item_ind.
  rewrite ClearFindIcons_in_unfold, rows_below_setChildren, (rows_below_unfold p).
  apply ClearFindIcons_loop_rows, IH.
Qed.

Lemma skeleton_unfold it :
  skeleton it
  = SkelNode (text it) (EID (tag it)) (lastEID (tag it)) (List.map skeleton (childItems it)).
Proof. destruct it; reflexivity. Qed.

Lemma skeleton_retag_children f n cs :
  (∀ t, EID (f t) = EID t ∧ lastEID (f t) = lastEID t) →
  skeleton (setChildren cs (retag f n))
  = SkelNode (text n) (EID (tag n)) (lastEID (tag n)) (List.map skeleton cs).
Proof.
  intros Hf. rewrite skeleton_unfold. cbn [setChildren text tag childItems].
  rewrite text_retag, tag_retag. destruct (Hf (tag n)) as [-> ->]. reflexivity.
Qed.

Lemma skeleton_retag f n :
  (∀ t, EID (f t) = EID t ∧ lastEID (f t) = lastEID t) →
  skeleton (retag f n) = skeleton n.
Proof.
  intros Hf. rewrite !skeleton_unfold, text_retag, tag_retag, childItems_retag.
  destruct (Hf (tag n)) as [-> ->]. reflexivity.
Qed.

Lemma ClearFindIcons_in_top p :
  text (ClearFindIcons_in p) = text p ∧ tag (ClearFindIcons_in p) = tag p ∧
  icon (ClearFindIcons_in p) = icon p.
Proof. rewrite ClearFindIcons_in_unfold. auto. Qed.

Lemma ClearFindIcons_in_skeleton p : skeleton (ClearFindIcons_in p) = skeleton p.
Proof.
  induction p as [p IH] using item_ind.
  rewrite ClearFindIcons_in_unfold, !skeleton_unfold. cbn [setChildren text tag childItems].
  f_equal. induction (childItems p) as [|n later IHl]; [reflexivity|].
  apply Forall_cons_1 in IH as [Hn Hall]. cbn [ClearFindIcons_loop List.map].
  rewrite (IHl Hall). f_equal.
  destruct (bool_decide (0 < childCount n)%nat).
  - rewrite skeleton_retag_children by (intros t; split; reflexivity).
    transitivity (skeleton (ClearFindIcons_in n)); [|exact Hn].
    rewrite (skeleton_unfold (ClearFindIcons_in n)).
    destruct (ClearFindIcons_in_top n) as (-> & -> & _). reflexivity.
  - apply skeleton_retag. intros t; split; reflexivity.
Qed.

Lemma count_matches_app filter l1 l2 :
  count_matches filter (l1 ++ l2)
  = (count_matches filter l1 + count_matches filter l2)%Z.
Proof.
  unfold count_matches. rewrite List.filter_app, length_app. lia.
Qed.

Lemma count_matches_cons filter n l :
  count_matches filter (n :: l)
  = ((if name_matches filter n then 1 else 0) + count_matches filter l)%Z.
Proof.
  unfold count_matches. cbn [List.filter].
  destruct (name_matches filter n); cbn [length]; lia.
Qed.

Lemma row_view_mark_found filter n :
  row_view (mark_found filter n)
  = if name_matches filter n then row_view (retag (set_find true) n) else row_view n.
Proof. unfold mark_found. destruct (name_matches filter n); reflexivity. Qed.

(** What a call of [SetFindIcons] on an item, or a run of its loop over a
    list of children, guarantees. *)
Lemma SetFindIcons_loop_spec filter cs :
  Forall (λ c,
    List.map row_view (rows_below (SetFindIcons_in c filter).1)
    = List.map (λ n, row_view (mark_found filter n)) (rows_below c) ∧
    (SetFindIcons_in c filter).2 = count_matches filter (rows_below c) ∧
    skeleton (SetFindIcons_in c filter).1 = skeleton c) cs →
  ∀ r0,
    List.map row_view
      (flat_map (λ c, c :: rows_below c) (SetFindIcons_loop filter cs r0).1)
    = List.map (λ n, row_view (mark_found filter n))
        (flat_map (λ c, c :: rows_below c) cs) ∧
    (SetFindIcons_loop filter cs r0).2
    = (r0 + count_matches filter (flat_map (λ c, c :: rows_below c) cs))%Z ∧
    List.map skeleton (SetFindIcons_loop filter cs r0).1 = List.map skeleton cs.
Proof.
  induction cs as [|n later IH]; intros Hall r0.
  { cbn. split; [reflexivity|]. split; [unfold count_matches; cbn; lia|reflexivity]. }
  apply Forall_cons_1 in Hall as [(Hrows & Hcount & Hskel) Hall].
  cbn [SetFindIcons_loop flat_map].
  rewrite count_matches_app, count_matches_cons.
  pose proof (row_view_mark_found filter n) as Hview.
  assert (Hmark : skeleton (if name_matches filter n then retag (set_find true) n else n)
                  = skeleton n).
  { destruct (name_matches filter n); [|reflexivity].
    apply skeleton_retag. intros t; split; reflexivity. }
  change (contains_ci (textAt COL_NAME n) filter) with (name_matches filter n).
  destruct (name_matches filter n) eqn:Hname;
    destruct (bool_decide (0 < childCount n)%nat) eqn:Hk;
    try (destruct (SetFindIcons_in n filter) as [m r] eqn:Hm; cbn [fst snd] in *);
    match goal with
    | |- context [SetFindIcons_loop filter later ?r1] =>
        destruct (IH Hall r1) as (IH1 & IH2 & IH3);
        destruct (SetFindIcons_loop filter later r1) as [rest r2]; cbn [fst snd] in *
    end;
    cbn [flat_map]; rewrite !List.map_app; cbn [List.map];
    rewrite IH1, IH2, IH3, Hview; try rewrite Hcount.
  - rewrite row_view_setChildren, rows_below_setChildren, <- rows_below_unfold, Hrows.
    split; [reflexivity|]. split; [lia|]. f_equal.
    rewrite skeleton_unfold. cbn [setChildren text tag childItems].
    rewrite text_retag, tag_retag. cbn [set_find EID lastEID].
    rewrite <- Hskel, (skeleton_unfold m).
    rewrite (skeleton_unfold m), (skeleton_unfold n) in Hskel.
    injection Hskel as H1 H2 H3 H4. rewrite H1, H2, H3. reflexivity.
  - apply bool_decide_eq_false, no_children_rows in Hk.
    rewrite rows_below_retag, (rows_below_unfold n), Hk. cbn.
    split; [reflexivity|]. split; [unfold count_matches; cbn; lia|]. f_equal.
    exact Hmark.
  - rewrite row_view_setChildren, rows_below_setChildren, <- rows_below_unfold, Hrows.
    split; [reflexivity|]. split; [lia|]. f_equal.
    rewrite skeleton_unfold. cbn [setChildren text tag childItems].
    rewrite <- Hskel, (skeleton_unfold m).
    rewrite (skeleton_unfold m), (skeleton_unfold n) in Hskel.
    injection Hskel as H1 H2 H3 H4. rewrite H1, H2, H3. reflexivity.
  - apply bool_decide_eq_false, no_children_rows in Hk.
    rewrite (rows_below_unfold n), Hk. cbn.
    split; [reflexivity|]. split; [unfold count_matches; cbn; lia|reflexivity].
Qed.

Lemma SetFindIcons_in_spec filter p :
  List.map row_view (rows_below (SetFindIcons_in p filter).1)
  = List.map (λ n, row_view (mark_found filter n)) (rows_below p) ∧
  (SetFindIcons_in p filter).2 = count_matches filter (rows_below p) ∧
  skeleton (SetFindIcons_in p filter).1 = skeleton p.
Proof.
  induction p as [p IH] using item_ind.
  rewrite SetFindIcons_in_unfold.
  destruct (SetFindIcons_loop_spec filter (childItems p) IH 0%Z) as (H1 & H2 & H3).
  destruct (SetFindIcons_loop filter (childItems p) 0%Z) as [cs r]. cbn [fst snd] in *.
  rewrite rows_below_setChildren, (rows_below_unfold p), H1, H2.
  split; [reflexivity|]. split; [lia|].
  rewrite !skeleton_unfold. cbn [setChildren text tag childItems]. rewrite H3. reflexivity.
Qed.

Lemma count_matches_texts filter l1 l2 :
  List.map text l1 = List.map text l2 →
  count_matches filter l1 = count_matches filter l2.
Proof.
  revert l2. induction l1 as [|a l1 IH]; intros [|c l2] H; try discriminate;
    [reflexivity|].
  injection H as Ha Hl. rewrite !count_matches_cons, (IH l2 Hl).
  unfold name_matches, textAt. rewrite Ha. reflexivity.
Qed.

Lemma count_matches_pos filter l :
  (0 <? count_matches filter l)%Z = false ↔ ∀ n, n ∈ l → name_matches filter n = false.
Proof.
  induction l as [|a l IH].
  - split; [intros _ n Hn; inversion Hn|reflexivity].
  - rewrite count_matches_cons. split.
    + intros H n Hn. assert (0 ≤ count_matches filter l)%Z by (unfold count_matches; lia).
      destruct (name_matches filter a) eqn:Ha.
      * apply Z.ltb_ge in H. lia.
      * apply elem_of_cons in Hn as [->|Hn]; [exact Ha|]. apply IH; [|exact Hn].
        apply Z.ltb_ge. apply Z.ltb_ge in H. lia.
    + intros H. rewrite (H a) by left. apply IH. intros n Hn. apply H. right. exact Hn.
Qed.

Lemma topLevelItem_replaced b root r :
  topLevelItem b 0 = Some root →
  topLevelItem (with_items (<[0%nat := r]> (events_items b)) b) 0 = Some r.
Proof.
  unfold topLevelItem. cbn. intros H. apply list_lookup_insert_eq.
  eapply lookup_lt_Some, H.
Qed.

(** X1. [SetFindIcons(filter)] with a non-empty filter returns the number
    of rows below the top-level item whose name contains the filter, gives
    exactly those rows the find flag (and the icon that goes with their tag),
    and leaves every text, event ID and the nesting as they were; with an
    empty filter it returns 0 and marks nothing, although every name
    contains the empty string. *)
Theorem SetFindIcons_counts filter b :
  SetFindIcons "" b = Some (b, 0%Z) ∧
  ∀ root, filter ≠ "" → topLevelItem b 0 = Some root →
    ∃ b' root',
      SetFindIcons filter b = Some (b', count_matches filter (rows_below root)) ∧
      topLevelItem b' 0 = Some root' ∧
      List.map row_view (rows_below root')
      = List.map (λ n, row_view (mark_found filter n)) (rows_below root) ∧
      row_view root' = row_view root ∧
      skeleton root' = skeleton root.
Proof.
  split; [reflexivity|]. intros root Hne Hroot.
  unfold SetFindIcons. rewrite bool_decide_false by exact Hne.
  rewrite Hroot. cbn [mbind option_bind].
  destruct (SetFindIcons_in_spec filter root) as (H1 & H2 & H3).
  assert (Hview : row_view (SetFindIcons_in root filter).1 = row_view root).
  { rewrite SetFindIcons_in_unfold.
    destruct (SetFindIcons_loop filter (childItems root) 0); reflexivity. }
  destruct (SetFindIcons_in root filter) as [root' r]. cbn [fst snd] in *. subst r.
  eexists _, root'. split; [reflexivity|].
  split; [apply (topLevelItem_replaced b root root' Hroot)|]. auto.
Qed.

Lemma SetFindIcons_counts_witness :
  ∃ b', SetFindIcons "foo" demo_browser = Some (b', 2%Z).
Proof.
  destruct (SetFindIcons_counts "foo" demo_browser) as [_ H].
  destruct (H demo_root) as (b' & root' & Hb' & _); [discriminate|reflexivity|].
  exists b'. exact Hb'.
Defined.

Lemma findHighlight_timeout_effect b root :
  LogLoaded (m_Ctx b) = true → topLevelItem b 0 = Some root →
  ∃ b' root',
    findHighlight_timeout b = Some b' ∧
    topLevelItem b' 0 = Some root' ∧
    (findEvent_styleSheet b' = RED ↔
       findEvent_text b = "" ∨
       ∀ n, n ∈ rows_below root → name_matches (findEvent_text b) n = false) ∧
    List.map (λ n, find (tag n)) (rows_below root')
    = List.map (λ n, bool_decide (findEvent_text b ≠ "") &&
                     name_matches (findEvent_text b) n) (rows_below root) ∧
    skeleton root' = skeleton root.
Proof.
  intros Hlog Hroot.
  unfold findHighlight_timeout, ClearFindIcons. rewrite Hlog, Hroot.
  cbn [mbind option_bind].
  set (root1 := ClearFindIcons_in root).
  set (b1 := with_items (<[0%nat := root1]> (events_items b)) b).
  assert (Hroot1 : topLevelItem b1 0 = Some root1)
    by apply (topLevelItem_replaced b root root1 Hroot).
  assert (Hrows1 : List.map row_view (rows_below root1)
                   = List.map (λ n, row_view (retag (set_find false) n)) (rows_below root))
    by apply ClearFindIcons_in_rows.
  assert (Hflags1 : List.map (λ n, find (tag n)) (rows_below root1)
                    = List.map (λ _, false) (rows_below root)).
  { change (λ n, find (tag n)) with (λ n, find (row_view n).1.2).
    rewrite <- (List.map_map row_view (λ v, find v.1.2)), Hrows1, List.map_map.
    apply List.map_ext. intros n. cbn. rewrite tag_retag. reflexivity. }
  change (findEvent_text b1) with (findEvent_text b).
  destruct (decide (findEvent_text b = "")) as [Hempty|Hne].
  - rewrite Hempty. cbn [SetFindIcons bool_decide decide_rel]. cbn.
    eexists _, root1. split; [reflexivity|]. split; [exact Hroot1|].
    split; [split; [auto|reflexivity]|]. split; [|apply ClearFindIcons_in_skeleton].
    rewrite Hflags1. apply List.map_ext. intros n.
    rewrite bool_decide_false; [reflexivity|]. intros H. apply H. reflexivity.
  - unfold SetFindIcons. rewrite bool_decide_false by exact Hne.
    rewrite Hroot1. cbn [mbind option_bind].
    destruct (SetFindIcons_in_spec (findEvent_text b) root1) as (H1 & H2 & H3).
    destruct (SetFindIcons_in root1 (findEvent_text b)) as [root2 r]. cbn [fst snd] in *.
    set (filter := findEvent_text b) in *.
    assert (Htexts : List.map text (rows_below root1) = List.map text (rows_below root)).
    { change text with (λ n, (row_view n).1.1).
      rewrite <- (List.map_map row_view (λ v, v.1.1)), Hrows1, List.map_map.
      apply List.map_ext. intros n. cbn. apply text_retag. }
    assert (Hcount : r = count_matches filter (rows_below root)).
    { rewrite H2. apply count_matches_texts, Htexts. }
    set (h := λ v : list string * EventItemTag * Icon,
                contains_ci (default "" (v.1.1 !! COL_NAME)) filter || find v.1.2).
    assert (Hflags : List.map (λ n, find (tag n)) (rows_below root2)
                     = List.map (name_matches filter) (rows_below root)).
    { change (λ n, find (tag n)) with (λ n, find (row_view n).1.2).
      rewrite <- (List.map_map row_view (λ v, find v.1.2)), H1, List.map_map.
      transitivity (List.map h (List.map row_view (rows_below root1))).
      - rewrite List.map_map. apply List.map_ext. intros n.
        unfold mark_found, h, name_matches, textAt. cbn [row_view fst snd].
        destruct (contains_ci (default "" (text n !! COL_NAME)) filter);
          [rewrite tag_retag|]; reflexivity.
      - rewrite Hrows1, List.map_map. apply List.map_ext. intros n.
        unfold h, name_matches, textAt. cbn [row_view fst snd].
        rewrite text_retag, tag_retag. cbn. apply orb_false_r. }
    exists (with_styleSheet (if (0 <? r)%Z then "" else RED)
              (with_items (<[0%nat := root2]> (events_items b1)) b1)), root2.
    split; [cbn [mbind option_bind fst snd]; destruct (0 <? r)%Z; reflexivity|].
    split; [apply (topLevelItem_replaced b1 root1 root2 Hroot1)|].
    split; [|split].
    + cbn [findEvent_styleSheet with_styleSheet].
      destruct (0 <? r)%Z eqn:Hpos.
      * split; [discriminate|]. intros [H|H]; [contradiction|].
        apply count_matches_pos in H. fold filter in H. congruence.
      * split; [|reflexivity]. intros _. right.
        apply count_matches_pos. congruence.
    + rewrite Hflags. apply List.map_ext. intros n.
      rewrite bool_decide_true by exact Hne. reflexivity.
    + rewrite H3. apply ClearFindIcons_in_skeleton.
Qed.

(** X2. With a log loaded, [findHighlight_timeout] turns the find box red
    exactly when the filter is empty or no row below the top-level item has
    a name containing it; afterwards a row carries the find flag exactly
    when the filter is non-empty and its name contains it, whatever was
    flagged before, and texts, event IDs and nesting are unchanged. *)
Theorem findHighlight_timeout_red b root :
  LogLoaded (m_Ctx b) = true → topLevelItem b 0 = Some root →
  ∃ b' root',
    findHighlight_timeout b = Some b' ∧
    topLevelItem b' 0 = Some root' ∧
    (findEvent_styleSheet b' = RED ↔
       findEvent_text b = "" ∨
       ∀ n, n ∈ rows_below root → name_matches (findEvent_text b) n = false) ∧
    List.map (λ n, find (tag n)) (rows_below root')
    = List.map (λ n, bool_decide (findEvent_text b ≠ "") &&
                     name_matches (findEvent_text b) n) (rows_below root) ∧
    skeleton root' = skeleton root.
Proof. apply findHighlight_timeout_effect. Qed.

Lemma findHighlight_timeout_red_witness :
  ∃ b', findHighlight_timeout (with_findText "start" demo_browser) = Some b' ∧
        findEvent_styleSheet b' ≠ RED.
Proof.
  destruct (findHighlight_timeout_red (with_findText "start" demo_browser) demo_root
              eq_refl eq_refl) as (b' & root' & Hb' & _ & Hred & _).
  exists b'. split; [exact Hb'|]. intros H. apply (proj1 Hred) in H as [H|H].
  - discriminate H.
  - specialize (H (mkItem ["Frame Start"; "0"; ""] EventItemTag0 NoIcon [])).
    assert (Hin : mkItem ["Frame Start"; "0"; ""] EventItemTag0 NoIcon []
                  ∈ rows_below demo_root) by (cbn; left).
    specialize (H Hin). vm_compute in H. discriminate H.
Defined.

(** ** [FindNode] *)

Lemma FindNode_unfold parent ppath filter after :
  FindNode parent ppath filter after
  = FindNode_loop ppath filter after (childItems parent) 0%nat.
Proof.
  destruct parent as [t g ic cs]. cbn [FindNode childItems].
  match goal with
  | |- ?loop cs 0%nat = _ =>
      enough (H : ∀ l i, loop l i = FindNode_loop ppath filter after l i) by apply H
  end.
  induction l as [|n later IH]; intros i; [reflexivity|].
  cbn [FindNode_loop]. rewrite <- IH. reflexivity.
Qed.

Lemma is_hit_forward filter after n :
  is_hit filter after true n = (after <? lastEID (tag n)) && name_matches filter n.
Proof. unfold is_hit, matchesAfter, name_matches. cbn. rewrite orb_false_r. reflexivity. Qed.

Lemma FindNode_loop_spec filter after ppath cs :
  Forall (λ c, ∀ pp,
            snd <$> FindNode c pp filter after
            = List.find (is_hit filter after true) (rows_below c) ∧
            ∀ f, FindNode c pp filter after = Some f →
                 ∃ q, q ≠ [] ∧ f.1 = pp ++ q ∧ itemAt c q = Some f.2) cs →
  ∀ i,
    snd <$> FindNode_loop ppath filter after cs i
    = List.find (is_hit filter after true) (flat_map (λ c, c :: rows_below c) cs) ∧
    ∀ f, FindNode_loop ppath filter after cs i = Some f →
         ∃ j c q, cs !! j = Some c ∧ f.1 = ppath ++ (i + j)%nat :: q ∧
                  itemAt c q = Some f.2.
Proof.
  induction cs as [|n later IH]; intros Hrec i; [split; [reflexivity|discriminate]|].
  apply Forall_cons_1 in Hrec as [Hn Hrec].
  destruct (IH Hrec (S i)) as [IH1 IH2].
  cbn [FindNode_loop flat_map]. change ((n :: rows_below n) ++ ?l) with (n :: (rows_below n ++ l)).
  cbn [List.find]. rewrite is_hit_forward. unfold name_matches.
  destruct ((after <? lastEID (tag n)) && contains_ci (textAt COL_NAME n) filter).
  { split; [reflexivity|]. intros f [= <-]. exists 0%nat, n, [].
    split; [reflexivity|]. split; [|reflexivity]. cbn [fst]. do 2 f_equal. lia. }
  rewrite find_app.
  assert (Hshift : ∀ f, FindNode_loop ppath filter after later (S i) = Some f →
            ∃ j c q, (n :: later) !! j = Some c ∧ f.1 = ppath ++ (i + j)%nat :: q ∧
                     itemAt c q = Some f.2).
  { intros f Hf. destruct (IH2 f Hf) as (j & c & q & Hj & Hp & Hq).
    exists (S j), c, q. split; [exact Hj|]. split; [|exact Hq].
    rewrite Hp. do 2 f_equal. lia. }
  destruct (bool_decide (0 < childCount n)%nat) eqn:Hkids.
  - destruct (Hn (ppath ++ [i])) as [Hn1 Hn2].
    destruct (FindNode n (ppath ++ [i]) filter after) as [found|].
    + cbn in Hn1. rewrite <- Hn1. split; [reflexivity|].
      intros f [= <-]. destruct (Hn2 found eq_refl) as (q & _ & Hp & Hq).
      exists 0%nat, n, q. split; [reflexivity|]. split; [|exact Hq].
      rewrite Hp, <- app_assoc. cbn [app]. do 2 f_equal. lia.
    + cbn in Hn1. rewrite <- Hn1. split; [exact IH1|exact Hshift].
  - apply bool_decide_eq_false in Hkids.
    rewrite (childCount_0 n) by lia. cbn [List.find]. split; [exact IH1|exact Hshift].
Qed.

Lemma FindNode_spec filter after parent :
  ∀ ppath,
    snd <$> FindNode parent ppath filter after
    = List.find (is_hit filter after true) (rows_below parent) ∧
    ∀ f, FindNode parent ppath filter after = Some f →
         ∃ q, q ≠ [] ∧ f.1 = ppath ++ q ∧ itemAt parent q = Some f.2.
Proof.
  induction parent as [parent IH] using item_ind. intros ppath.
  rewrite FindNode_unfold, rows_below_unfold.
  destruct (FindNode_loop_spec filter after ppath (childItems parent) IH 0%nat) as [H1 H2].
  split; [exact H1|]. intros f Hf.
  destruct (H2 f Hf) as (j & c & q & Hj & Hp & Hq).
  exists (j :: q). split; [discriminate|]. split; [exact Hp|].
  cbn [itemAt]. rewrite Hj. exact Hq.
Qed.

(** X3. [FindNode(parent, filter, after)] returns the first row below
    [parent], in document order, whose lastEID is greater than [after] and
    whose name contains the filter, and the null pointer when there is no
    such row; the pointer returned leads to that row from [parent]. *)
Theorem FindNode_first parent ppath filter after :
  snd <$> FindNode parent ppath filter after
  = List.find (λ n, (after <? lastEID (tag n)) && name_matches filter n)
      (rows_below parent) ∧
  (FindNode parent ppath filter after = None ↔
     ∀ n, n ∈ rows_below parent →
          lastEID (tag n) ≤ after ∨ name_matches filter n = false) ∧
  ∀ p n, FindNode parent ppath filter after = Some (p, n) →
    n ∈ rows_below parent ∧
    ∃ q, q ≠ [] ∧ p = ppath ++ q ∧ itemAt parent q = Some n.
Proof.
  destruct (FindNode_spec filter after parent ppath) as [H1 H2].
  assert (Hfind : List.find (is_hit filter after true) (rows_below parent)
                  = List.find (λ n, (after <? lastEID (tag n)) && name_matches filter n)
                      (rows_below parent)).
  { clear. induction (rows_below parent) as [|a l IH]; [reflexivity|].
    cbn [List.find]. rewrite is_hit_forward, IH. reflexivity. }
  split; [rewrite H1; exact Hfind|]. split.
  - split.
    + intros Hnone n Hn. rewrite Hnone in H1. cbn in H1. symmetry in H1.
      pose proof (find_none _ _ H1 n (proj1 (list_elem_of_In _ _) Hn)) as Hhit.
      rewrite is_hit_forward in Hhit. apply andb_false_iff in Hhit as [Hhit|Hhit].
      * left. apply N.ltb_ge, Hhit.
      * right. exact Hhit.
    + intros Hall. destruct (FindNode parent ppath filter after) as [[p n]|]; [|reflexivity].
      cbn in H1. symmetry in H1. apply find_some in H1 as [Hin Hhit].
      rewrite is_hit_forward in Hhit. apply andb_true_iff in Hhit as [Hlt Hname].
      apply N.ltb_lt in Hlt.
      destruct (Hall n (proj2 (list_elem_of_In _ _) Hin)) as [H|H]; [lia|congruence].
  - intros p n Hf. destruct (H2 _ Hf) as (q & Hq & Hp & Hat). split.
    + eapply itemAt_in_rows_below; [exact Hq|exact Hat].
    + exists q. auto.
Qed.

(** X4. On a tree whose rows have a lastEID below 2^31, non-zero for the
    rows nested under a child, the forward search of [FindEvent] returns the
    lastEID of the row [FindNode] returns, and -1 when [FindNode] returns
    the null pointer. *)
Theorem FindEvent_agrees_FindNode root ppath filter after :
  fits_int root → nested_nonzero root →
  FindEvent_in root filter after true
  = match FindNode root ppath filter after with
    | Some f => Z.of_N (lastEID (tag f.2))
    | None => (-1)%Z
    end.
Proof.
  intros Hfit Hnz.
  rewrite (FindEvent_in_first filter after true root Hfit Hnz), visit_order_document.
  destruct (FindNode_spec filter after root ppath) as [H1 _].
  unfold first_hit. rewrite <- H1.
  destruct (FindNode root ppath filter after) as [[p n]|]; reflexivity.
Qed.

Lemma FindEvent_agrees_FindNode_witness :
  FindEvent_in demo_root "foo" 2 true = 4%Z ∧
  snd <$> FindNode demo_root [0%nat] "foo" 2
  = Some (mkItem ["foo pass"; "2-4"; "0.0"] (EventItemTag2 2 4) NoIcon
            [ mkItem ["foo"; "3"; "0.0"] (EventItemTag2 3 3) NoIcon [];
              mkItem ["bar"; "4"; "0.0"] (EventItemTag2 4 4) NoIcon [] ]).
Proof.
  split; [|vm_compute; reflexivity].
  rewrite (FindEvent_agrees_FindNode demo_root [0%nat] "foo" 2
             demo_fits_int demo_nested_nonzero).
  vm_compute. reflexivity.
Defined.

(** ** Writing through an item pointer *)

Lemma itemAt_modifyAt g p :
  (∀ x, childItems (g x) = childItems x) →
  ∀ it q,
    row_view <$> itemAt (modifyAt g p it) q
    = (λ n, if decide (q = p) then row_view (g n) else row_view n) <$> itemAt it q.
Proof.
  intros Hg. induction p as [|i p IH]; intros it q.
  - cbn [modifyAt]. destruct q as [|j q]; [reflexivity|].
    cbn [itemAt]. rewrite Hg. destruct (childItems it !! j) as [c|]; [|reflexivity].
    cbn. destruct (itemAt c q); reflexivity.
  - cbn [modifyAt]. destruct q as [|j q]; [reflexivity|].
    cbn [itemAt childItems]. destruct (decide (j = i)) as [->|Hne].
    + rewrite list_lookup_alter_eq. destruct (childItems it !! i) as [c|]; [|reflexivity].
      cbn. rewrite IH. destruct (itemAt c q) as [n|]; [|reflexivity]. cbn.
      repeat case_decide; try reflexivity; congruence.
    + rewrite list_lookup_alter_ne by congruence.
      destruct (childItems it !! j) as [c|]; [|reflexivity]. cbn.
      destruct (itemAt c q) as [n|]; [|reflexivity]. cbn.
      repeat case_decide; try reflexivity; congruence.
Qed.

Lemma widgetItemAt_modify g p items :
  (∀ x, childItems (g x) = childItems x) →
  ∀ q, row_view <$> widgetItemAt (widgetModifyAt g p items) q
       = (λ n, if decide (q = p) then row_view (g n) else row_view n)
           <$> widgetItemAt items q.
Proof.
  intros Hg q. destruct p as [|i p].
  - cbn [widgetModifyAt]. destruct q as [|j q]; [reflexivity|].
    destruct (widgetItemAt items (j :: q)); reflexivity.
  - cbn [widgetModifyAt]. destruct q as [|j q]; [reflexivity|].
    cbn [widgetItemAt]. destruct (decide (j = i)) as [->|Hne].
    + rewrite list_lookup_alter_eq. destruct (items !! i) as [c|]; [|reflexivity].
      cbn. rewrite (itemAt_modifyAt g p Hg). destruct (itemAt c q) as [n|]; [|reflexivity].
      cbn. repeat case_decide; try reflexivity; congruence.
    + rewrite list_lookup_alter_ne by congruence.
      destruct (items !! j) as [c|]; [|reflexivity]. cbn.
      destruct (itemAt c q) as [n|]; [|reflexivity]. cbn.
      repeat case_decide; try reflexivity; congruence.
Qed.

Lemma skeleton_modifyAt g p :
  (∀ x, skeleton (g x) = skeleton x) →
  ∀ it, skeleton (modifyAt g p it) = skeleton it.
Proof.
  intros Hg. induction p as [|i p IH]; intros it; [apply Hg|].
  cbn [modifyAt]. rewrite !skeleton_unfold. cbn [text tag childItems]. f_equal.
  generalize (childItems it) as cs. clear it. intros cs. revert i.
  induction cs as [|c cs IHc]; intros [|i]; cbn; try reflexivity.
  - rewrite IH. reflexivity.
  - rewrite IHc. reflexivity.
Qed.

Lemma skeleton_widgetModifyAt g p items :
  (∀ x, skeleton (g x) = skeleton x) →
  List.map skeleton (widgetModifyAt g p items) = List.map skeleton items.
Proof.
  intros Hg. destruct p as [|i p]; [reflexivity|]. cbn [widgetModifyAt].
  revert i. induction items as [|c cs IHc]; intros [|i]; cbn; try reflexivity.
  - rewrite (skeleton_modifyAt g p Hg). reflexivity.
  - rewrite IHc. reflexivity.
Qed.

Lemma retagged_modify f p items :
  retagged f items (widgetModifyAt (retag f) p items).
Proof.
  intros q.
  pose proof (widgetItemAt_modify (retag f) p items (childItems_retag f) q) as H.
  destruct (widgetItemAt items q) as [n|],
           (widgetItemAt (widgetModifyAt (retag f) p items) q) as [n'|];
    cbn in H; try discriminate; [|exact I].
  destruct (decide (q = p)); [right|left]; congruence.
Qed.

Lemma retagged_refl f items : retagged f items items.
Proof. intros q. destruct (widgetItemAt items q); [left; reflexivity|exact I]. Qed.

(** ** Rewriting every row below an item *)

Lemma setChildren_same x : setChildren (childItems x) x = x.
Proof. destruct x; reflexivity. Qed.

Lemma map_below_unfold g it :
  map_below g it
  = setChildren
      (List.map (λ c, setChildren (childItems (map_below g c)) (g c)) (childItems it)) it.
Proof. destruct it; reflexivity. Qed.

Lemma ClearFindIcons_in_map p :
  ClearFindIcons_in p = map_below (retag (set_find false)) p.
Proof.
  induction p as [p IH] using item_ind.
  rewrite ClearFindIcons_in_unfold, map_below_unfold. f_equal.
  induction (childItems p) as [|n later IHl]; [reflexivity|].
  apply Forall_cons_1 in IH as [Hn Hall]. cbn [ClearFindIcons_loop List.map].
  rewrite (IHl Hall), <- Hn. f_equal.
  destruct (bool_decide (0 < childCount n)%nat) eqn:Hkids; [reflexivity|].
  apply bool_decide_eq_false, no_children_rows in Hkids.
  rewrite ClearFindIcons_in_unfold, Hkids. cbn [ClearFindIcons_loop setChildren childItems].
  rewrite <- (setChildren_same (retag (set_find false) n)) at 1.
  rewrite childItems_retag, Hkids. reflexivity.
Qed.

Lemma SetFindIcons_loop_map filter cs :
  Forall (λ c, (SetFindIcons_in c filter).1 = map_below (mark_found filter) c) cs →
  ∀ r0, (SetFindIcons_loop filter cs r0).1
        = List.map (λ c, setChildren (childItems (map_below (mark_found filter) c))
                           (mark_found filter c)) cs.
Proof.
  induction cs as [|n later IH]; intros Hall r0; [reflexivity|].
  apply Forall_cons_1 in Hall as [Hn Hall].
  cbn [SetFindIcons_loop List.map]. rewrite <- Hn.
  change (mark_found filter n)
    with (if contains_ci (textAt COL_NAME n) filter then retag (set_find true) n else n).
  assert (Hleaf : bool_decide (0 < childCount n)%nat = false →
                  ∀ x, childItems x = childItems n →
                       x = setChildren (childItems (SetFindIcons_in n filter).1) x).
  { intros Hkids x Hx. apply bool_decide_eq_false, no_children_rows in Hkids.
    rewrite SetFindIcons_in_unfold, Hkids. cbn [SetFindIcons_loop setChildren childItems fst].
    rewrite <- (setChildren_same x) at 1. rewrite Hx, Hkids. reflexivity. }
  destruct (contains_ci (textAt COL_NAME n) filter);
    destruct (bool_decide (0 < childCount n)%nat) eqn:Hk;
    try (destruct (SetFindIcons_in n filter) as [m r] eqn:Hm; cbn [fst snd] in * );
    match goal with
    | |- context [SetFindIcons_loop filter later ?r1] =>
        specialize (IH Hall r1);
        destruct (SetFindIcons_loop filter later r1) as [rest r2]; cbn [fst snd] in *
    end; rewrite IH; f_equal; try reflexivity.
  - apply (Hleaf eq_refl), childItems_retag.
  - apply (Hleaf eq_refl). reflexivity.
Qed.

Lemma SetFindIcons_in_map filter p :
  (SetFindIcons_in p filter).1 = map_below (mark_found filter) p.
Proof.
  induction p as [p IH] using item_ind.
  rewrite SetFindIcons_in_unfold, map_below_unfold.
  pose proof (SetFindIcons_loop_map filter (childItems p) IH 0%Z) as H.
  destruct (SetFindIcons_loop filter (childItems p) 0) as [cs r]. cbn [fst] in *.
  rewrite H. reflexivity.
Qed.

Lemma itemAt_map_below g q :
  ∀ it, q ≠ [] →
    row_view <$> itemAt (map_below g it) q = (λ n, row_view (g n)) <$> itemAt it q.
Proof.
  induction q as [|j q IH]; intros it Hq; [congruence|].
  rewrite map_below_unfold. cbn [itemAt setChildren childItems].
  rewrite list_lookup_fmap. destruct (childItems it !! j) as [c|]; [|reflexivity].
  cbn [fmap option_fmap option_map mbind option_bind].
  destruct q as [|k q']; [reflexivity|].
  rewrite <- (IH c) by discriminate. reflexivity.
Qed.

Lemma retagged_map_below f g items root :
  items !! 0%nat = Some root →
  (∀ n, row_view (g n) = row_view n ∨ row_view (g n) = row_view (retag f n)) →
  retagged f items (<[0%nat := map_below g root]> items).
Proof.
  intros Hroot Hg [|i q]; [exact I|]. cbn [widgetItemAt].
  destruct i as [|i].
  - rewrite list_lookup_insert_eq by (eapply lookup_lt_Some, Hroot).
    rewrite Hroot. cbn [mbind option_bind].
    destruct q as [|k q']; [left; rewrite map_below_unfold; reflexivity|].
    pose proof (itemAt_map_below g (k :: q') root) as H.
    destruct (itemAt root (k :: q')) as [n|], (itemAt (map_below g root) (k :: q')) as [n'|];
      cbn in H; try (specialize (H ltac:(discriminate)); discriminate); [|exact I].
    specialize (H ltac:(discriminate)).
    assert (Hv : row_view n' = row_view (g n)) by congruence. rewrite Hv.
    destruct (Hg n) as [Hn|Hn]; [left|right]; exact Hn.
  - rewrite list_lookup_insert_ne by discriminate.
    destruct (items !! S i) as [c|]; [|exact I]. cbn.
    destruct (itemAt c q); [left; reflexivity|exact I].
Qed.

Lemma skeleton_insert_0 items root r :
  items !! 0%nat = Some root → skeleton r = skeleton root →
  List.map skeleton (<[0%nat := r]> items) = List.map skeleton items.
Proof.
  destruct items as [|x items]; [discriminate|]. intros [= ->] H. cbn. rewrite H. reflexivity.
Qed.

(** ** Rows and the paths that lead to them *)

Lemma rows_below_path it :
  ∀ n, n ∈ rows_below it → ∃ q, q ≠ [] ∧ itemAt it q = Some n.
Proof.
  induction it as [it IH] using item_ind. intros n Hn.
  apply rows_below_elem in Hn as (c & Hc & Hn).
  apply list_elem_of_lookup_1 in Hc as Hj. destruct Hj as [j Hj].
  destruct Hn as [->|Hn].
  - exists [j]. split; [discriminate|]. cbn [itemAt]. rewrite Hj. reflexivity.
  - pose proof (proj1 (Forall_forall _ _) IH c Hc n Hn) as (q & Hq & Hat).
    exists (j :: q). split; [discriminate|]. cbn [itemAt]. rewrite Hj. exact Hat.
Qed.

Lemma browser_rows_path b n :
  n ∈ browser_rows b ↔ ∃ p, widgetItemAt (events_items b) p = Some n.
Proof.
  unfold browser_rows. split.
  - intros Hn. apply list_elem_of_In, in_flat_map in Hn as (it & Hit & Hn).
    apply list_elem_of_In, list_elem_of_lookup_1 in Hit as [i Hi].
    apply list_elem_of_In, elem_of_cons in Hn as [->|Hn].
    + exists [i]. cbn [widgetItemAt]. rewrite Hi. reflexivity.
    + apply rows_below_path in Hn as (q & _ & Hat).
      exists (i :: q). cbn [widgetItemAt]. rewrite Hi. exact Hat.
  - intros [[|i q] Hp]; [discriminate|]. cbn [widgetItemAt] in Hp.
    destruct (events_items b !! i) as [it|] eqn:Hi; [|discriminate]. cbn in Hp.
    apply list_elem_of_In, in_flat_map. exists it.
    split; [eapply list_elem_of_In, list_elem_of_lookup_2, Hi|].
    apply list_elem_of_In. destruct q as [|k q'].
    + injection Hp as ->. left.
    + right. eapply itemAt_in_rows_below; [|exact Hp]. discriminate.
Qed.

(** ** What a change of the tree preserves *)

Lemma icons_ok_paths b :
  icons_ok b ↔
  ∀ p n, widgetItemAt (events_items b) p = Some n → icon n = tag_icon (tag n).
Proof.
  unfold icons_ok. split.
  - intros H p n Hp. apply H, browser_rows_path. exists p. exact Hp.
  - intros H n Hn. apply browser_rows_path in Hn as [p Hp]. exact (H p n Hp).
Qed.

Lemma icon_retag f n : icon (retag f n) = tag_icon (tag (retag f n)).
Proof.
  rewrite tag_retag. unfold retag, RefreshIcon, tag_icon.
  destruct (current (f (tag n))), (bookmark (f (tag n))), (find (f (tag n))); reflexivity.
Qed.

Lemma row_view_eq n m :
  row_view n = row_view m → text n = text m ∧ tag n = tag m ∧ icon n = icon m.
Proof. unfold row_view. intros [= -> -> ->]. auto. Qed.

Lemma retagged_icons f items items' :
  retagged f items items' →
  (∀ p n, widgetItemAt items p = Some n → icon n = tag_icon (tag n)) →
  ∀ p n, widgetItemAt items' p = Some n → icon n = tag_icon (tag n).
Proof.
  intros Hr Hok p n' Hp. specialize (Hr p). rewrite Hp in Hr.
  destruct (widgetItemAt items p) as [n|] eqn:Hn; [|contradiction].
  destruct Hr as [Hv|Hv]; apply row_view_eq in Hv as (_ & -> & ->).
  - exact (Hok p n Hn).
  - apply icon_retag.
Qed.

Lemma retagged_trans_icons f g items1 items2 items3 :
  retagged f items1 items2 → retagged g items2 items3 →
  (∀ p n, widgetItemAt items1 p = Some n → icon n = tag_icon (tag n)) →
  ∀ p n, widgetItemAt items3 p = Some n → icon n = tag_icon (tag n).
Proof. intros H1 H2 Hok. eapply retagged_icons, retagged_icons; eauto. Qed.

Lemma setCurrentItem_items p b :
  events_items (setCurrentItem p b)
  = if decide (events_current b = Some p) then events_items b
    else widgetModifyAt (retag (set_current true)) p
           (match events_current b with
            | Some pp => widgetModifyAt (retag (set_current false)) pp (events_items b)
            | None => events_items b
            end).
Proof.
  unfold setCurrentItem. destruct (decide (events_current b = Some p)); [reflexivity|].
  unfold on_events_currentItemChanged. cbn.
  destruct (events_current b) as [pp|]; cbn;
    match goal with |- context [widgetItemAt ?l p] => destruct (widgetItemAt l p) end;
    reflexivity.
Qed.

Lemma setCurrentItem_retagged p b :
  ∃ items1,
    retagged (set_current false) (events_items b) items1 ∧
    retagged (set_current true) items1 (events_items (setCurrentItem p b)) ∧
    List.map skeleton (events_items (setCurrentItem p b))
    = List.map skeleton (events_items b).
Proof.
  rewrite setCurrentItem_items.
  assert (Hs : ∀ v x, skeleton (retag (set_current v) x) = skeleton x).
  { intros v x. apply skeleton_retag. intros t. split; reflexivity. }
  destruct (decide (events_current b = Some p)).
  { exists (events_items b). split; [apply retagged_refl|].
    split; [apply retagged_refl|reflexivity]. }
  destruct (events_current b) as [pp|].
  - exists (widgetModifyAt (retag (set_current false)) pp (events_items b)).
    split; [apply retagged_modify|]. split; [apply retagged_modify|].
    rewrite !skeleton_widgetModifyAt by apply Hs. reflexivity.
  - exists (events_items b). split; [apply retagged_refl|].
    split; [apply retagged_modify|].
    rewrite skeleton_widgetModifyAt by apply Hs. reflexivity.
Qed.

Lemma tree_change_icons b b' : tree_change b b' → icons_ok b → icons_ok b'.
Proof.
  induction 1 as [b b' Hi Hc|f b b' Hf Hr Hs Hc|p b b' Hp Hi Hc|b1 b2 b3 _ IH1 _ IH2];
    intros Hok.
  - unfold icons_ok, browser_rows in *. rewrite Hi. exact Hok.
  - apply icons_ok_paths. eapply retagged_icons; [exact Hr|]. apply icons_ok_paths, Hok.
  - apply icons_ok_paths. rewrite Hi.
    destruct (setCurrentItem_retagged p b) as (items1 & H1 & H2 & _).
    eapply retagged_trans_icons; [exact H1|exact H2|]. apply icons_ok_paths, Hok.
  - auto.
Qed.

Lemma tree_change_skeleton b b' :
  tree_change b b' →
  List.map skeleton (events_items b') = List.map skeleton (events_items b).
Proof.
  induction 1 as [b b' Hi Hc|f b b' Hf Hr Hs Hc|p b b' Hp Hi Hc|b1 b2 b3 _ IH1 _ IH2].
  - rewrite Hi. reflexivity.
  - exact Hs.
  - rewrite Hi. destruct (setCurrentItem_retagged p b) as (_ & _ & _ & H). exact H.
  - congruence.
Qed.

Lemma tree_change_current b b' : tree_change b b' → current_ok b → current_ok b'.
Proof.
  induction 1 as [b b' Hi Hc|f b b' Hf Hr Hs Hc|p b b' Hp Hi Hc|b1 b2 b3 _ IH1 _ IH2];
    intros [Hflag Hcur].
  - unfold current_ok. rewrite Hi, Hc. auto.
  - assert (Hsame : ∀ q n', widgetItemAt (events_items b') q = Some n' →
              ∃ n, widgetItemAt (events_items b) q = Some n ∧
                   current (tag n') = current (tag n)).
    { intros q n' Hq. specialize (Hr q). rewrite Hq in Hr.
      destruct (widgetItemAt (events_items b) q) as [n|]; [|contradiction].
      exists n. split; [reflexivity|].
      destruct Hr as [Hv|Hv]; apply row_view_eq in Hv as (_ & -> & _); [reflexivity|].
      rewrite tag_retag. apply Hf. }
    split.
    + intros q n' Hq Hfl. destruct (Hsame q n' Hq) as (n & Hn & Heq).
      rewrite Hc. apply (Hflag q n Hn). congruence.
    + intros q Hq. rewrite Hc in Hq. destruct (Hcur q Hq) as (n & Hn & Hfl).
      specialize (Hr q). rewrite Hn in Hr.
      destruct (widgetItemAt (events_items b') q) as [n'|] eqn:Hq'; [|contradiction].
      exists n'. split; [reflexivity|].
      destruct (Hsame q n' Hq') as (n0 & Hn0 & Heq). congruence.
  - unfold current_ok. rewrite Hi, Hc, setCurrentItem_items.
    destruct (decide (events_current b = Some p)) as [Heq|Hne].
    { rewrite <- Heq. split; [exact Hflag|exact Hcur]. }
    set (items1 := match events_current b with
                   | Some pp => widgetModifyAt (retag (set_current false)) pp (events_items b)
                   | None => events_items b
                   end).
    assert (H1 : ∀ q, row_view <$> widgetItemAt items1 q
                      = (λ n, if decide (Some q = events_current b)
                              then row_view (retag (set_current false) n)
                              else row_view n) <$> widgetItemAt (events_items b) q).
    { intros q. unfold items1. destruct (events_current b) as [pp|].
      - rewrite (widgetItemAt_modify _ pp _ (childItems_retag _)).
        destruct (widgetItemAt (events_items b) q); [|reflexivity]. cbn.
        repeat case_decide; try reflexivity; congruence.
      - destruct (widgetItemAt (events_items b) q); [|reflexivity]. cbn.
        rewrite decide_False by discriminate. reflexivity. }
    assert (H2 : ∀ q, row_view <$> widgetItemAt
                        (widgetModifyAt (retag (set_current true)) p items1) q
                      = (λ n, if decide (q = p)
                              then row_view (retag (set_current true) n)
                              else row_view n) <$> widgetItemAt items1 q)
      by (intros q; apply widgetItemAt_modify, childItems_retag).
    split.
    + intros q n' Hq Hfl. destruct (decide (q = p)) as [->|Hqp]; [reflexivity|].
      exfalso. specialize (H2 q). rewrite Hq in H2. specialize (H1 q).
      destruct (widgetItemAt items1 q) as [n1|]; [|discriminate].
      destruct (widgetItemAt (events_items b) q) as [n|] eqn:Hn; [|discriminate].
      cbn [fmap option_fmap option_map] in H1, H2.
      rewrite decide_False in H2 by exact Hqp.
      assert (Hv2 : row_view n' = row_view n1) by congruence.
      apply row_view_eq in Hv2 as (_ & Ht2 & _).
      destruct (decide (Some q = events_current b)) as [Hcq|Hcq]; cbv beta iota in H1.
      * assert (Hv1 : row_view n1 = row_view (retag (set_current false) n)) by congruence.
        apply row_view_eq in Hv1 as (_ & Ht1 & _).
        rewrite Ht2, Ht1, tag_retag in Hfl. discriminate.
      * assert (Hv1 : row_view n1 = row_view n) by congruence.
        apply row_view_eq in Hv1 as (_ & Ht1 & _).
        rewrite Ht2, Ht1 in Hfl. apply Hcq. symmetry. exact (Hflag q n Hn Hfl).
    + intros q [= <-]. destruct Hp as [n Hn].
      specialize (H2 p). specialize (H1 p). rewrite Hn in H1.
      destruct (widgetItemAt items1 p) as [n1|]; [|discriminate].
      destruct (widgetItemAt (widgetModifyAt (retag (set_current true)) p items1) p)
        as [n'|]; [|discriminate].
      exists n'. split; [reflexivity|]. cbn [fmap option_fmap option_map] in H2.
      rewrite decide_True in H2 by reflexivity.
      assert (Hv2 : row_view n' = row_view (retag (set_current true) n1)) by congruence.
      apply row_view_eq in Hv2 as (_ & -> & _). rewrite tag_retag. reflexivity.
  - apply IH2, IH1. split; assumption.
Qed.

(** ** What each function does to the tree *)

Lemma ExpandNode_loop_items rp :
  ∀ b, events_items (ExpandNode_loop rp b) = events_items b.
Proof.
  induction rp as [|i rp IH]; intros b; [reflexivity|].
  cbn [ExpandNode_loop]. rewrite IH. unfold expandItem.
  destruct (decide _); reflexivity.
Qed.

Lemma FindEventNode_valid e root p n :
  (FindEventNode None root [0%nat] e).1 = Some (p, n) →
  ∃ q, q ≠ [] ∧ p = 0%nat :: q ∧ itemAt root q = Some n.
Proof.
  intros Hf.
  destruct (search_post_node e root None [0%nat]) as (_ & _ & Hv & _); [discriminate|].
  rewrite Hf in Hv. destruct Hv as [Hv|(f & [= <-] & q & Hq & Hp & Hat)]; [discriminate|].
  exists q. auto.
Qed.

Lemma FindEventNode_widget e b root p n :
  topLevelItem b 0 = Some root →
  (FindEventNode None root [0%nat] e).1 = Some (p, n) →
  widgetItemAt (events_items b) p = Some n.
Proof.
  intros Hroot Hf. destruct (FindEventNode_valid e root p n Hf) as (q & _ & -> & Hat).
  cbn [widgetItemAt]. unfold topLevelItem in Hroot. rewrite Hroot. exact Hat.
Qed.

Lemma SelectEvent_change e b r : SelectEvent e b = Some r → tree_change b r.1.
Proof.
  unfold SelectEvent.
  destruct (negb (LogLoaded (m_Ctx b))); [intros [= <-]; apply change_none; reflexivity|].
  destruct (topLevelItem b 0) as [root|] eqn:Hroot; [|discriminate].
  cbn [mbind option_bind].
  destruct (FindEventNode None root [0%nat] e).1 as [[p n]|] eqn:Hf;
    intros [= <-]; [|apply change_none; reflexivity].
  cbn [fst]. apply (change_current p).
  - exists n. eapply FindEventNode_widget; eauto.
  - unfold ExpandNode. rewrite ExpandNode_loop_items. reflexivity.
  - apply select_marks.
Qed.

Lemma tree_change_same b b' b'' :
  tree_change b b' → events_items b'' = events_items b' →
  events_current b'' = events_current b' → tree_change b b''.
Proof. intros H Hi Hc. eapply change_trans; [exact H|]. apply change_none; assumption. Qed.

Lemma OnEventChanged_change e b b' : OnEventChanged e b = Some b' → tree_change b b'.
Proof.
  unfold OnEventChanged. destruct (SelectEvent e b) as [r|] eqn:Hs; [|discriminate].
  intros [= <-]. eapply tree_change_same; [eapply SelectEvent_change, Hs| |]; reflexivity.
Qed.

Lemma Find_change fw b b' : Find fw b = Some b' → tree_change b b'.
Proof.
  unfold Find. destruct (bool_decide (findEvent_text b = ""));
    [intros [= <-]; apply change_none; reflexivity|].
  destruct (match events_selected b with
            | Some p => _
            | None => _
            end) as [curEID|]; [|discriminate].
  cbn [mbind option_bind].
  destruct (0 <=? FindEvent b (findEvent_text b) curEID fw)%Z.
  - destruct (SelectEvent _ b) as [r|] eqn:Hs; [|discriminate]. intros [= <-].
    eapply tree_change_same; [eapply SelectEvent_change, Hs| |]; reflexivity.
  - destruct (0 <=? FindEvent b (findEvent_text b) _ fw)%Z.
    + destruct (SelectEvent _ b) as [r|] eqn:Hs; [|discriminate]. intros [= <-].
      eapply tree_change_same; [eapply SelectEvent_change, Hs| |]; reflexivity.
    + intros [= <-]. apply change_none; reflexivity.
Qed.

Lemma set_bookmark_keeps v t :
  EID (set_bookmark v t) = EID t ∧ lastEID (set_bookmark v t) = lastEID t ∧
  current (set_bookmark v t) = current t.
Proof. auto. Qed.

Lemma set_find_keeps v t :
  EID (set_find v t) = EID t ∧ lastEID (set_find v t) = lastEID t ∧
  current (set_find v t) = current t.
Proof. auto. Qed.

Lemma modify_change f p b b' :
  (∀ t, EID (f t) = EID t ∧ lastEID (f t) = lastEID t ∧ current (f t) = current t) →
  events_items b' = widgetModifyAt (retag f) p (events_items b) →
  events_current b' = events_current b →
  tree_change b b'.
Proof.
  intros Hf Hi Hc. apply (change_retag f); [exact Hf| | |exact Hc]; rewrite Hi.
  - apply retagged_modify.
  - apply skeleton_widgetModifyAt. intros x. apply skeleton_retag.
    intros t. destruct (Hf t) as (? & ? & _). auto.
Qed.

Lemma toggleBookmark_change e b b' : toggleBookmark e b = Some b' → tree_change b b'.
Proof.
  unfold toggleBookmark. destruct (topLevelItem b 0) as [root|]; [|discriminate].
  cbn [mbind option_bind]. intros [= <-].
  destruct (0 <=? indexOf (m_Bookmarks b) e)%Z;
    destruct (FindEventNode None root [0%nat] e).1 as [[p n]|];
    first [ apply change_none; reflexivity
          | eapply modify_change; [apply set_bookmark_keeps|reflexivity|reflexivity] ].
Qed.

Lemma on_bookmark_clicked_change b b' : on_bookmark_clicked b = Some b' → tree_change b b'.
Proof.
  unfold on_bookmark_clicked. destruct (events_current b) as [p|];
    [|intros [= <-]; apply change_none; reflexivity].
  destruct (widgetItemAt (events_items b) p) as [n|]; [|discriminate].
  cbn [mbind option_bind]. apply toggleBookmark_change.
Qed.

Lemma jumpToBookmark_change idx b b' : jumpToBookmark idx b = Some b' → tree_change b b'.
Proof.
  unfold jumpToBookmark. destruct (_ || _ || _);
    [intros [= <-]; apply change_none; reflexivity|].
  destruct (m_Bookmarks b !! Z.to_nat idx) as [eid|]; [|discriminate].
  cbn [mbind option_bind].
  destruct (SelectEvent eid b) as [r|] eqn:Hs; [|discriminate]. intros [= <-].
  eapply SelectEvent_change, Hs.
Qed.

Lemma bookmarkButton_clicked_change i b b' :
  bookmarkButton_clicked i b = Some b' → tree_change b b'.
Proof.
  unfold bookmarkButton_clicked. destruct (m_BookmarkButtons b !! i) as [but|]; [|discriminate].
  cbn [mbind option_bind].
  destruct (SelectEvent (but_eid but) _) as [r|] eqn:Hs; [|discriminate]. intros [= <-].
  eapply change_trans; [|eapply tree_change_same;
                          [eapply SelectEvent_change, Hs|reflexivity|reflexivity]].
  apply change_none; reflexivity.
Qed.

Lemma ClearFindIcons_change b b' : ClearFindIcons b = Some b' → tree_change b b'.
Proof.
  unfold ClearFindIcons. destruct (LogLoaded (m_Ctx b));
    [|intros [= <-]; apply change_none; reflexivity].
  destruct (topLevelItem b 0) as [root|] eqn:Hroot; [|discriminate].
  cbn [mbind option_bind]. intros [= <-].
  apply (change_retag (set_find false)); [apply set_find_keeps| | |reflexivity].
  - cbn. rewrite ClearFindIcons_in_map. apply retagged_map_below; [exact Hroot|].
    intros n. right. reflexivity.
  - cbn. eapply skeleton_insert_0; [exact Hroot|apply ClearFindIcons_in_skeleton].
Qed.

Lemma SetFindIcons_change filter b r : SetFindIcons filter b = Some r → tree_change b r.1.
Proof.
  unfold SetFindIcons. destruct (bool_decide (filter = ""));
    [intros [= <-]; apply change_none; reflexivity|].
  destruct (topLevelItem b 0) as [root|] eqn:Hroot; [|discriminate].
  cbn [mbind option_bind].
  pose proof (SetFindIcons_in_map filter root) as Hmap.
  destruct (SetFindIcons_in_spec filter root) as (_ & _ & Hskel).
  destruct (SetFindIcons_in root filter) as [root' n]. cbn [fst] in *. intros [= <-].
  apply (change_retag (set_find true)); [apply set_find_keeps| | |reflexivity].
  - cbn. rewrite Hmap. apply retagged_map_below; [exact Hroot|].
    intros x. unfold mark_found. destruct (name_matches filter x); [right|left]; reflexivity.
  - cbn. eapply skeleton_insert_0; [exact Hroot|exact Hskel].
Qed.

Lemma findHighlight_timeout_change b b' :
  findHighlight_timeout b = Some b' → tree_change b b'.
Proof.
  unfold findHighlight_timeout.
  destruct (ClearFindIcons b) as [b1|] eqn:H1; [|discriminate]. cbn [mbind option_bind].
  destruct (SetFindIcons (findEvent_text b1) b1) as [r|] eqn:H2; [|discriminate].
  cbn [mbind option_bind]. intros Hb'.
  eapply change_trans; [eapply ClearFindIcons_change, H1|].
  eapply tree_change_same; [eapply SetFindIcons_change, H2| |];
    destruct (0 <? r.2)%Z; injection Hb' as <-; reflexivity.
Qed.

Lemma on_findEvent_returnPressed_change b b' :
  on_findEvent_returnPressed b = Some b' → tree_change b b'.
Proof.
  unfold on_findEvent_returnPressed. destruct (bool_decide (findEvent_text b = "")).
  - cbn [mbind option_bind]. apply findHighlight_timeout_change.
  - destruct (Find true b) as [b1|] eqn:H1; [|discriminate]. cbn [mbind option_bind].
    intros H. eapply change_trans;
      [eapply Find_change, H1|eapply findHighlight_timeout_change, H].
Qed.

Lemma on_findEvent_keyPress_F3_change shift b b' :
  on_findEvent_keyPress_F3 shift b = Some b' → tree_change b b'.
Proof.
  unfold on_findEvent_keyPress_F3. destruct (bool_decide (findEvent_text b = "")).
  - cbn [mbind option_bind]. apply findHighlight_timeout_change.
  - destruct (Find _ b) as [b1|] eqn:H1; [|discriminate]. cbn [mbind option_bind].
    intros H. eapply change_trans;
      [eapply Find_change, H1|eapply findHighlight_timeout_change, H].
Qed.

Lemma on_findEvent_textEdited_change s b b' :
  on_findEvent_textEdited s b = Some b' → tree_change b b'.
Proof.
  unfold on_findEvent_textEdited. destruct (bool_decide (s = ""));
    [|intros [= <-]; apply change_none; reflexivity].
  intros H. eapply change_trans; [|eapply ClearFindIcons_change, H].
  apply change_none; reflexivity.
Qed.

Lemma on_HideFindJump_change b b' : on_HideFindJump b = Some b' → tree_change b b'.
Proof.
  unfold on_HideFindJump. destruct (ClearFindIcons b) as [b1|] eqn:H1; [|discriminate].
  cbn [mbind option_bind]. intros [= <-].
  eapply tree_change_same; [eapply ClearFindIcons_change, H1| |]; reflexivity.
Qed.

Lemma ui_step_change b b' : ui_step b b' → tree_change b b'.
Proof.
  destruct 1.
  - apply change_none; reflexivity.
  - apply (change_current p); [assumption|reflexivity|apply setCurrentItem_current].
  - eapply OnEventChanged_change; eassumption.
  - eapply SelectEvent_change; eassumption.
  - eapply Find_change; eassumption.
  - eapply toggleBookmark_change; eassumption.
  - eapply on_bookmark_clicked_change; eassumption.
  - eapply jumpToBookmark_change; eassumption.
  - eapply bookmarkButton_clicked_change; eassumption.
  - eapply findHighlight_timeout_change; eassumption.
  - eapply on_findEvent_returnPressed_change; eassumption.
  - eapply on_findEvent_keyPress_F3_change; eassumption.
  - eapply on_findEvent_textEdited_change; eassumption.
  - eapply on_HideFindJump_change; eassumption.
Qed.

(** ** The tree after a capture is opened *)

Lemma OnLogfileLoaded_fields m b :
  let rows := build_rows m (CurDrawcalls (m_Ctx b)) in
  events_items (OnLogfileLoaded m b)
  = events_items b ++
    [mkItem ["Frame #" +:+ pretty (frameNumber (m_Ctx b)); ""; ""]
       (EventItemTag2 0 (last_lastEID rows)) NoIcon
       (mkItem ["Frame Start"; "0"; ""] EventItemTag0 NoIcon [] :: rows)] ∧
  events_current (OnLogfileLoaded m b) = events_current b ∧
  m_Ctx (OnLogfileLoaded m b)
  = SetEventID (last_lastEID rows) (last_lastEID rows) (m_Ctx b).
Proof.
  unfold OnLogfileLoaded. rewrite AddDrawcalls_rows. cbn. unfold expandItem.
  destruct (decide _); cbn; auto.
Qed.

Lemma build_rows_fresh m ds :
  Forall (λ d, ∀ rest, Forall fresh ((AddDrawcall m d rest).1
                                     :: rows_below (AddDrawcall m d rest).1)) ds →
  Forall fresh (flat_map (λ c, c :: rows_below c) (build_rows m ds)).
Proof.
  induction ds as [|d rest IH]; intros Hall; [constructor|].
  apply Forall_cons_1 in Hall as [Hd Hall]. cbn [build_rows flat_map].
  apply Forall_app. split; [apply Hd|apply IH, Hall].
Qed.

Lemma AddDrawcall_fresh m d :
  ∀ rest, Forall fresh ((AddDrawcall m d rest).1 :: rows_below (AddDrawcall m d rest).1).
Proof.
  induction d as [d IH] using draw_ind. intros rest.
  rewrite AddDrawcall_row. cbv zeta. constructor.
  - repeat split.
  - rewrite rows_below_unfold. cbn [childItems]. apply build_rows_fresh, IH.
Qed.

Lemma loaded_frame_fresh m draws t :
  Forall fresh
    (flat_map (λ c, c :: rows_below c)
       [mkItem t (EventItemTag2 0 (last_lastEID (build_rows m draws))) NoIcon
          (mkItem ["Frame Start"; "0"; ""] EventItemTag0 NoIcon [] :: build_rows m draws)]).
Proof.
  cbn [flat_map]. rewrite app_nil_r. constructor; [repeat split|].
  rewrite rows_below_unfold. cbn [childItems flat_map].
  constructor; [repeat split|]. rewrite (rows_below_unfold (mkItem _ _ _ [])).
  cbn [childItems flat_map app]. apply build_rows_fresh.
  apply Forall_forall. intros d _. apply AddDrawcall_fresh.
Qed.

Lemma fresh_icon n : fresh n → icon n = tag_icon (tag n).
Proof. intros (-> & Hc & Hb & Hf). unfold tag_icon. rewrite Hc, Hb, Hf. reflexivity. Qed.

Lemma browser_rows_loaded m b :
  ∀ n, n ∈ browser_rows (OnLogfileLoaded m b) → n ∈ browser_rows b ∨ fresh n.
Proof.
  intros n. unfold browser_rows.
  destruct (OnLogfileLoaded_fields m b) as (-> & _ & _).
  rewrite flat_map_app. intros Hn. apply elem_of_app in Hn as [Hn|Hn]; [left; exact Hn|].
  right. exact (proj1 (Forall_forall _ _) (loaded_frame_fresh _ _ _) n Hn).
Qed.

(** X5. In every state the browser goes through, each row of the tree
    shows the icon of its tag: the green flag on the current row, else the
    asterisk on a bookmarked row, else the magnifier on a row the find box
    matched, else no icon. *)
Theorem icons_follow_tags b :
  ui_reachable b → ∀ n, n ∈ browser_rows b → icon n = tag_icon (tag n).
Proof.
  intros Hr. change (icons_ok b).
  induction Hr as [c|c b _ IH|m b _ IH|b _ IH|b b' _ IH Hstep].
  - intros n Hn. inversion Hn.
  - exact IH.
  - intros n Hn. apply browser_rows_loaded in Hn as [Hn|Hn]; [apply IH, Hn|].
    apply fresh_icon, Hn.
  - intros n Hn. inversion Hn.
  - eapply tree_change_icons; [apply ui_step_change, Hstep|exact IH].
Qed.

Lemma icons_follow_tags_witness :
  Forall (λ n, icon n = tag_icon (tag n)) (browser_rows demo_browser).
Proof.
  apply Forall_forall, icons_follow_tags. rewrite <- demo_browser_loaded.
  apply ui_load, ui_new.
Defined.

Lemma widgetItemAt_app_l items extra p n :
  widgetItemAt items p = Some n → widgetItemAt (items ++ extra) p = Some n.
Proof.
  destruct p as [|i q]; [discriminate|]. cbn [widgetItemAt].
  destruct (items !! i) as [it|] eqn:Hi; [|discriminate].
  rewrite (lookup_app_l_Some _ _ _ _ Hi). auto.
Qed.

(** X6. In every state the browser goes through, the row carrying the
    [current] flag is the current item of the tree, and the current item is
    a row of the tree that carries the flag: at most one row is flagged. *)
Theorem current_flag_on_current_item b :
  ui_reachable b →
  (∀ p n, widgetItemAt (events_items b) p = Some n →
          current (tag n) = true → events_current b = Some p) ∧
  (∀ p, events_current b = Some p →
        ∃ n, widgetItemAt (events_items b) p = Some n ∧ current (tag n) = true).
Proof.
  intros Hr. change (current_ok b).
  induction Hr as [c|c b _ IH|m b _ IH|b _ IH|b b' _ IH Hstep].
  - split; [intros [|i q] n Hn; discriminate|discriminate].
  - exact IH.
  - destruct IH as [Hflag Hcur]. unfold current_ok.
    destruct (OnLogfileLoaded_fields m b) as (Hi & -> & _). split.
    + intros p n Hp Hfl.
      destruct (widgetItemAt (events_items b) p) as [n0|] eqn:Hold.
      * rewrite Hi in Hp.
        rewrite (widgetItemAt_app_l _ _ _ _ Hold) in Hp. injection Hp as <-.
        exact (Hflag p n0 Hold Hfl).
      * exfalso.
        assert (Hrow : n ∈ browser_rows (OnLogfileLoaded m b))
          by (apply browser_rows_path; exists p; exact Hp).
        apply browser_rows_loaded in Hrow as [Hrow|(_ & Hc & _)]; [|congruence].
        apply browser_rows_path in Hrow as [p' Hp'].
        destruct p as [|i q]; [discriminate|]. rewrite Hi in Hp. cbn [widgetItemAt] in *.
        destruct (events_items b !! i) as [it|] eqn:Hit.
        -- rewrite (lookup_app_l_Some _ _ _ _ Hit) in Hp. congruence.
        -- apply lookup_ge_None in Hit.
           rewrite lookup_app_r in Hp by exact Hit.
           destruct (i - length (events_items b))%nat as [|k] eqn:Hk; [|discriminate].
           cbn in Hp.
           assert (Hin : n ∈ flat_map (λ c, c :: rows_below c)
                           [mkItem ["Frame #" +:+ pretty (frameNumber (m_Ctx b)); ""; ""]
                              (EventItemTag2 0
                                 (last_lastEID (build_rows m (CurDrawcalls (m_Ctx b)))))
                              NoIcon
                              (mkItem ["Frame Start"; "0"; ""] EventItemTag0 NoIcon []
                               :: build_rows m (CurDrawcalls (m_Ctx b)))]).
           { cbn [flat_map]. rewrite app_nil_r. destruct q as [|j q'].
             - injection Hp as <-. left.
             - right. eapply itemAt_in_rows_below; [|exact Hp]. discriminate. }
           destruct (proj1 (Forall_forall _ _) (loaded_frame_fresh _ _ _) n Hin)
             as (_ & Hc & _).
           congruence.
    + intros p Hp. destruct (Hcur p Hp) as (n & Hn & Hfl). exists n.
      split; [|exact Hfl]. rewrite Hi. apply widgetItemAt_app_l, Hn.
  - split; [intros [|i q] n Hn; discriminate|discriminate].
  - eapply tree_change_current; [apply ui_step_change, Hstep|exact IH].
Qed.

Lemma current_flag_on_current_item_witness : current_ok demo_browser.
Proof.
  apply current_flag_on_current_item. rewrite <- demo_browser_loaded.
  apply ui_load, ui_new.
Defined.

(** X7. No function that navigates or marks rows changes what the rows
    say: after any of them every item has the texts, event IDs, lastEIDs and
    children, level by level, that it had before. *)
Theorem ui_step_keeps_rows b b' :
  ui_step b b' →
  List.map skeleton (events_items b') = List.map skeleton (events_items b).
Proof. intros Hstep. apply tree_change_skeleton, ui_step_change, Hstep. Qed.

Lemma ui_step_keeps_rows_witness :
  ∃ b', toggleBookmark 4 demo_browser = Some b' ∧
        List.map skeleton (events_items b')
        = List.map skeleton (events_items demo_browser).
Proof.
  destruct (toggleBookmark 4 demo_browser) as [b'|] eqn:H;
    [|vm_compute in H; discriminate].
  exists b'. split; [reflexivity|].
  apply ui_step_keeps_rows, (step_toggle 4), H.
Defined.

(** ** What selecting a row does to the context *)

Lemma row_view_retag f n :
  row_view (retag f n) = (text n, f (tag n), tag_icon (f (tag n))).
Proof.
  unfold row_view. rewrite text_retag, icon_retag, tag_retag. reflexivity.
Qed.

Lemma ExpandNode_loop_ctx rp :
  ∀ b, m_Ctx (ExpandNode_loop rp b) = m_Ctx b.
Proof.
  induction rp as [|i rp IH]; intros b; [reflexivity|].
  cbn [ExpandNode_loop]. rewrite IH. unfold expandItem.
  destruct (decide _); reflexivity.
Qed.

Lemma setCurrentItem_moves p b n :
  widgetItemAt (events_items b) p = Some n → events_current b ≠ Some p →
  ∃ n', widgetItemAt (events_items (setCurrentItem p b)) p = Some n' ∧
        row_view n' = row_view (retag (set_current true) n) ∧
        m_Ctx (setCurrentItem p b) = SetEventID (EID (tag n)) (lastEID (tag n)) (m_Ctx b) ∧
        m_BookmarkButtons (setCurrentItem p b)
        = List.map (λ but, mkButton (but_text but) (but_eid but)
                             (bool_decide (but_eid but = lastEID (tag n))))
            (m_BookmarkButtons b).
Proof.
  intros Hn Hne. unfold setCurrentItem. rewrite decide_False by exact Hne.
  unfold on_events_currentItemChanged.
  set (b1 := match events_current b with
             | Some pp => with_items (widgetModifyAt (retag (set_current false)) pp
                                        (events_items (with_current (Some p) b)))
                            (with_current (Some p) b)
             | None => with_current (Some p) b
             end).
  assert (H1 : ∃ n1, widgetItemAt (events_items b1) p = Some n1 ∧ row_view n1 = row_view n).
  { unfold b1. destruct (events_current b) as [pp|]; [|exists n; auto].
    pose proof (widgetItemAt_modify (retag (set_current false)) pp (events_items b)
                  (childItems_retag _) p) as H.
    rewrite Hn in H. cbn [fmap option_fmap option_map] in H.
    rewrite decide_False in H by congruence. cbn [events_items with_items with_current].
    destruct (widgetItemAt (widgetModifyAt (retag (set_current false)) pp (events_items b)) p)
      as [n1|] eqn:Hn1; [|discriminate].
    exists n1. split; [reflexivity|]. cbn [fmap option_fmap option_map] in H. congruence. }
  destruct H1 as (n1 & Hn1 & Hv1).
  assert (Hctx : m_Ctx b1 = m_Ctx b ∧ m_BookmarkButtons b1 = m_BookmarkButtons b)
    by (unfold b1; destruct (events_current b); auto).
  destruct Hctx as [Hctx Hbut].
  pose proof (widgetItemAt_modify (retag (set_current true)) p (events_items b1)
                (childItems_retag _) p) as H2.
  rewrite Hn1 in H2. cbn [fmap option_fmap option_map] in H2.
  rewrite decide_True in H2 by reflexivity.
  cbn [events_items with_items].
  destruct (widgetItemAt (widgetModifyAt (retag (set_current true)) p (events_items b1)) p)
    as [n'|] eqn:Hn'; [|discriminate].
  cbn [fmap option_fmap option_map] in H2.
  assert (Hv' : row_view n' = row_view (retag (set_current true) n)).
  { rewrite row_view_retag. apply row_view_eq in Hv1 as (<- & <- & _).
    rewrite <- row_view_retag. congruence. }
  exists n'. split; [exact Hn'|]. split; [exact Hv'|].
  apply row_view_eq in Hv' as (_ & Ht & _). rewrite tag_retag in Ht.
  unfold highlightBookmarks. cbn. rewrite Ht, Hctx, Hbut. split; reflexivity.
Qed.

Lemma SelectEvent_event_row e b :
  LogLoaded (m_Ctx b) = true →
  SelectEvent e b
  = match topLevelItem b 0 with
    | None => None
    | Some _ =>
        match event_row b e with
        | Some (p, _) => Some (ExpandNode p (setSelectedItem p (setCurrentItem p b)), true)
        | None => Some (b, false)
        end
    end.
Proof.
  intros Hlog. unfold SelectEvent, event_row. rewrite Hlog. cbn [negb].
  destruct (topLevelItem b 0); reflexivity.
Qed.

Lemma event_row_valid b e p n :
  event_row b e = Some (p, n) → widgetItemAt (events_items b) p = Some n.
Proof.
  unfold event_row. destruct (topLevelItem b 0) as [root|] eqn:Hroot; [|discriminate].
  cbn [mbind option_bind]. intros Hf. eapply FindEventNode_widget; eauto.
Qed.

Lemma SelectEvent_effect e b b' :
  LogLoaded (m_Ctx b) = true →
  SelectEvent e b = Some (b', true) →
  ∃ p n,
    event_row b e = Some (p, n) ∧
    widgetItemAt (events_items b) p = Some n ∧
    events_current b' = Some p ∧ events_selected b' = Some p ∧
    (events_current b = Some p →
       m_Ctx b' = m_Ctx b ∧ events_items b' = events_items b ∧
       m_BookmarkButtons b' = m_BookmarkButtons b) ∧
    (events_current b ≠ Some p →
       CurSelectedEvent (m_Ctx b') = EID (tag n) ∧
       CurEvent (m_Ctx b') = lastEID (tag n) ∧
       (∃ n', widgetItemAt (events_items b') p = Some n' ∧
              text n' = text n ∧ tag n' = set_current true (tag n) ∧
              icon n' = flag_green) ∧
       m_BookmarkButtons b'
       = List.map (λ but, mkButton (but_text but) (but_eid but)
                            (bool_decide (but_eid but = lastEID (tag n))))
           (m_BookmarkButtons b)).
Proof.
  intros Hlog. rewrite (SelectEvent_event_row e b Hlog).
  destruct (topLevelItem b 0) as [root|]; [|discriminate].
  destruct (event_row b e) as [[p n]|] eqn:Hrow; [|discriminate].
  intros [= <-]. exists p, n. pose proof (event_row_valid b e p n Hrow) as Hn.
  split; [reflexivity|]. split; [exact Hn|].
  destruct (select_marks p b) as [Hc Hs]. split; [exact Hc|]. split; [exact Hs|].
  unfold ExpandNode.
  destruct (ExpandNode_loop_lists (reverse p) (setSelectedItem p (setCurrentItem p b)))
    as (_ & -> & _).
  rewrite ExpandNode_loop_ctx, ExpandNode_loop_items.
  cbn [m_Ctx events_items m_BookmarkButtons setSelectedItem with_selected].
  split.
  - intros Hcur. unfold setCurrentItem. rewrite decide_True by exact Hcur. auto.
  - intros Hne.
    destruct (setCurrentItem_moves p b n Hn Hne) as (n' & Hn' & Hv & -> & ->).
    split; [reflexivity|]. split; [reflexivity|]. split; [|reflexivity].
    exists n'. split; [exact Hn'|]. rewrite row_view_retag in Hv.
    apply (f_equal (λ v, (v.1.1, v.1.2, v.2))) in Hv. cbn in Hv.
    injection Hv as -> -> ->. auto.
Qed.

(** X8. When [SelectEvent(eventID)] returns true on a loaded log, the row
    it made current and selected is the row its search ended on.  If that
    row was not the current item before, the context's selected event is
    now the row's EID and its current event the row's lastEID, the row
    carries the [current] flag and the green flag icon, and a bookmark
    button is checked exactly when its event ID is that lastEID.  If the
    row was the current item already, the context, the tree and the
    buttons are left as they were. *)
Theorem SelectEvent_sets_event e b b' :
  LogLoaded (m_Ctx b) = true →
  SelectEvent e b = Some (b', true) →
  ∃ p n,
    event_row b e = Some (p, n) ∧
    widgetItemAt (events_items b) p = Some n ∧
    events_current b' = Some p ∧ events_selected b' = Some p ∧
    (events_current b = Some p →
       m_Ctx b' = m_Ctx b ∧ events_items b' = events_items b ∧
       m_BookmarkButtons b' = m_BookmarkButtons b) ∧
    (events_current b ≠ Some p →
       CurSelectedEvent (m_Ctx b') = EID (tag n) ∧
       CurEvent (m_Ctx b') = lastEID (tag n) ∧
       (∃ n', widgetItemAt (events_items b') p = Some n' ∧
              text n' = text n ∧ tag n' = set_current true (tag n) ∧
              icon n' = flag_green) ∧
       m_BookmarkButtons b'
       = List.map (λ but, mkButton (but_text but) (but_eid but)
                            (bool_decide (but_eid but = lastEID (tag n))))
           (m_BookmarkButtons b)).
Proof. apply SelectEvent_effect. Qed.

Lemma SelectEvent_sets_event_witness :
  ∃ b', SelectEvent 1 demo_browser = Some (b', true) ∧
        CurSelectedEvent (m_Ctx b') = 1 ∧ CurEvent (m_Ctx b') = 2.
Proof.
  destruct (SelectEvent 1 demo_browser) as [[b' [|]]|] eqn:H;
    try (vm_compute in H; discriminate).
  exists b'. split; [reflexivity|].
  destruct (SelectEvent_sets_event 1 demo_browser b' eq_refl H)
    as (p & n & Hrow & _ & _ & _ & _ & Hmove).
  vm_compute in Hrow. injection Hrow as <- <-.
  destruct Hmove as (-> & -> & _); [discriminate|]. split; reflexivity.
Defined.

(** ** The exact hit of [FindEventNode] *)

Lemma search_post_all e cs :
  Forall (λ c, ∀ found pp,
            (∀ l, found_eid found = Some l → e ≤ l) →
            search_post e (rows_below c)
              (λ f, ∃ q, q ≠ [] ∧ f.1 = pp ++ q ∧ itemAt c q = Some f.2)
              found (FindEventNode found c pp e)) cs.
Proof. apply Forall_forall. intros c _ found pp H. apply search_post_node, H. Qed.

Lemma visit_order_leaf n : childCount n = 0%nat → visit_order false n = [].
Proof.
  intros H. rewrite visit_order_list. unfold childCount in H.
  destruct (childItems n); [reflexivity|discriminate].
Qed.

Lemma FindEventNode_loop_exact e ppath cs :
  Forall (λ c, ∀ found pp,
            (∀ l, found_eid found = Some l → e ≤ l) →
            ((FindEventNode found c pp e).2 = true →
               snd <$> (FindEventNode found c pp e).1
               = List.find (exact_leaf e) (visit_order false c)) ∧
            ((FindEventNode found c pp e).2 = false →
               List.find (exact_leaf e) (visit_order false c) = None)) cs →
  ∀ i found,
    (∀ l, found_eid found = Some l → e ≤ l) →
    ((FindEventNode_loop ppath e cs i found).2 = true →
       snd <$> (FindEventNode_loop ppath e cs i found).1
       = List.find (exact_leaf e) (visit_list false cs)) ∧
    ((FindEventNode_loop ppath e cs i found).2 = false →
       List.find (exact_leaf e) (visit_list false cs) = None).
Proof.
  induction cs as [|n later IH]; intros Hrec i found Hwf.
  { split; [discriminate|reflexivity]. }
  apply Forall_cons_1 in Hrec as [Hn Hrec].
  rewrite visit_list_cons_backward, find_app. cbn [FindEventNode_loop].
  destruct (IH Hrec (S i) found Hwf) as [IHt IHf].
  destruct (search_post_loop e ppath later (search_post_all e later) (S i) found Hwf)
    as (W1 & _ & _ & T1 & _).
  destruct (FindEventNode_loop ppath e later (S i) found) as [f1 ret1].
  cbn [fst snd] in *. destruct ret1.
  { cbn [fst snd]. split; [intros _|discriminate].
    rewrite <- (IHt eq_refl). destruct f1 as [x|]; [reflexivity|].
    specialize (T1 eq_refl). cbn in T1. discriminate. }
  rewrite (IHf eq_refl). cbn [List.find].
  set (nEID := lastEID (tag n)).
  set (fEID := match f1 with Some (_, f) => lastEID (tag f) | None => 0 end).
  set (take := (e <=? nEID) && (bool_decide (f1 = None) || (nEID <=? fEID))).
  set (f2 := if take then Some (ppath ++ [i], n) else f1).
  assert (W2 : ∀ l, found_eid f2 = Some l → e ≤ l).
  { unfold f2. destruct take eqn:Ht; [|exact W1].
    intros l [= <-]. apply andb_true_iff in Ht as [Ht _]. apply N.leb_le, Ht. }
  assert (Hex : (nEID =? e) && bool_decide (childCount n = 0%nat) = exact_leaf e n)
    by reflexivity.
  rewrite Hex. clear Hex.
  destruct (exact_leaf e n) eqn:Hexact.
  - cbv beta iota. cbn [fst snd]. split; [intros _|discriminate].
    apply andb_true_iff in Hexact as [Heq _]. apply N.eqb_eq in Heq.
    assert (Htake : take = true).
    { unfold take. fold nEID in Heq. rewrite Heq, N.leb_refl. cbn [andb].
      destruct f1 as [[p f]|]; [|reflexivity].
      rewrite bool_decide_false by discriminate. cbn [orb].
      apply N.leb_le, (W1 (lastEID (tag f))). reflexivity. }
    unfold f2. rewrite Htake. reflexivity.
  - cbv beta iota. destruct (bool_decide (0 < childCount n)%nat) eqn:Hkids.
    + apply (Hn f2 (ppath ++ [i]) W2).
    + cbv beta iota. cbn [fst snd]. split; [discriminate|intros _].
      apply bool_decide_eq_false in Hkids. rewrite visit_order_leaf by lia. reflexivity.
Qed.

Lemma FindEventNode_exact e parent :
  ∀ found ppath,
    (∀ l, found_eid found = Some l → e ≤ l) →
    ((FindEventNode found parent ppath e).2 = true →
       snd <$> (FindEventNode found parent ppath e).1
       = List.find (exact_leaf e) (visit_order false parent)) ∧
    ((FindEventNode found parent ppath e).2 = false →
       List.find (exact_leaf e) (visit_order false parent) = None).
Proof.
  induction parent as [parent IH] using item_ind. intros found ppath Hwf.
  rewrite FindEventNode_unfold, visit_order_list.
  apply FindEventNode_loop_exact; [exact IH|exact Hwf].
Qed.

Lemma find_head_filter {A} (f : A → bool) l : List.find f l = head (List.filter f l).
Proof.
  induction l as [|x l IH]; [reflexivity|]. cbn [List.find List.filter].
  destruct (f x); [reflexivity|exact IH].
Qed.

Lemma exact_visit_list e cs :
  Forall (λ c, List.filter (exact_leaf e) (visit_order false c)
               = reverse (List.filter (exact_leaf e) (rows_below c))) cs →
  List.filter (exact_leaf e) (visit_list false cs)
  = reverse (List.filter (exact_leaf e) (flat_map (λ c, c :: rows_below c) cs)).
Proof.
  induction cs as [|c cs IH]; intros Hall; [reflexivity|].
  apply Forall_cons_1 in Hall as [Hc Hall].
  rewrite visit_list_cons_backward. cbn [flat_map].
  rewrite !List.filter_app, reverse_app, (IH Hall). f_equal.
  cbn [List.filter]. destruct (exact_leaf e c) eqn:Hex.
  - apply andb_true_iff in Hex as [_ Hleaf]. apply bool_decide_eq_true in Hleaf.
    rewrite (visit_order_leaf c Hleaf), (childCount_0 c Hleaf). reflexivity.
  - exact Hc.
Qed.

Lemma exact_visit_order e it :
  List.filter (exact_leaf e) (visit_order false it)
  = reverse (List.filter (exact_leaf e) (rows_below it)).
Proof.
  induction it as [it IH] using item_ind.
  rewrite visit_order_list, rows_below_unfold. apply exact_visit_list, IH.
Qed.

Lemma event_row_last_exact b root e n :
  topLevelItem b 0 = Some root →
  last (List.filter (exact_leaf e) (rows_below root)) = Some n →
  ∃ p, event_row b e = Some (p, n).
Proof.
  intros Hroot Hlast. unfold event_row. rewrite Hroot. cbn [mbind option_bind].
  assert (Hfind : List.find (exact_leaf e) (visit_order false root) = Some n)
    by (rewrite find_head_filter, exact_visit_order, head_reverse; exact Hlast).
  destruct (FindEventNode_exact e root None [0%nat]) as [Ht Hf]; [discriminate|].
  destruct (FindEventNode None root [0%nat] e) as [f ret]. cbn [fst snd] in *.
  destruct ret; [|rewrite (Hf eq_refl) in Hfind; discriminate].
  rewrite Hfind in Ht. specialize (Ht eq_refl).
  destruct f as [[p m]|]; [|discriminate]. injection Ht as ->. exists p. reflexivity.
Qed.

(** X9. If some row below the top-level item is a leaf whose lastEID is
    exactly [eventID], [SelectEvent(eventID)] selects the last such leaf in
    document order, also when rows with children or earlier rows (a set
    marker that took over the event of the next draw) have the same
    lastEID. *)
Theorem SelectEvent_last_exact_leaf e b root n :
  LogLoaded (m_Ctx b) = true → topLevelItem b 0 = Some root →
  last (List.filter (exact_leaf e) (rows_below root)) = Some n →
  ∃ b' p,
    SelectEvent e b = Some (b', true) ∧
    events_current b' = Some p ∧ events_selected b' = Some p ∧
    widgetItemAt (events_items b) p = Some n.
Proof.
  intros Hlog Hroot Hlast.
  destruct (event_row_last_exact b root e n Hroot Hlast) as [p Hrow].
  rewrite (SelectEvent_event_row e b Hlog), Hroot, Hrow.
  eexists _, p. split; [reflexivity|].
  destruct (select_marks p b) as [Hc Hs]. split; [exact Hc|]. split; [exact Hs|].
  eapply event_row_valid, Hrow.
Qed.

Lemma SelectEvent_last_exact_leaf_witness :
  ∃ b' p,
    SelectEvent 4 demo_browser = Some (b', true) ∧
    events_current b' = Some p ∧ events_selected b' = Some p ∧
    widgetItemAt (events_items demo_browser) p
    = Some (mkItem ["bar"; "4"; "0.0"] (EventItemTag2 4 4) NoIcon []).
Proof.
  apply (SelectEvent_last_exact_leaf 4 demo_browser demo_root); vm_compute; reflexivity.
Defined.

(** ** The last event of a capture *)

Lemma preorder_eids_last d : is_Some (last (preorder_eids d)).
Proof.
  rewrite preorder_eids_unfold. apply last_is_Some. discriminate.
Qed.

Lemma last_event_snoc l c : last_event (l ++ [c]) = last_event [c].
Proof.
  unfold last_event. rewrite flat_map_app, last_app. cbn [flat_map].
  rewrite app_nil_r. destruct (preorder_eids_last c) as [x ->]. reflexivity.
Qed.

Lemma last_event_single d :
  last_event [d] = if bool_decide (children d = []) then eventID d
                   else last_event (children d).
Proof.
  unfold last_event. cbn [flat_map]. rewrite app_nil_r, preorder_eids_unfold.
  destruct (children d) as [|c cs] eqn:Hch; [reflexivity|].
  rewrite bool_decide_false by discriminate.
  change (eventID d :: ?l) with ([eventID d] ++ l). rewrite last_app.
  destruct (last (flat_map preorder_eids (c :: cs))) as [x|] eqn:Hl; [reflexivity|].
  exfalso. cbn [flat_map] in Hl. apply last_app_None in Hl as [Hl _].
  destruct (preorder_eids_last c) as [x Hx]. congruence.
Qed.

Lemma sorted_last_max (l : list N) e :
  StronglySorted N.lt l → e ∈ l → e ≤ default 0 (last l).
Proof.
  intros Hs He. destruct (last l) as [x|] eqn:Hl.
  - apply last_Some in Hl as [l' ->]. cbn.
    apply elem_of_app in He as [He|He].
    + apply N.lt_le_incl.
      eapply (StronglySorted_app_1_elem_of _ _ _ _ _ Hs He). by apply list_elem_of_singleton.
    + apply list_elem_of_singleton in He as ->. lia.
  - apply last_None in Hl. subst l. inversion He.
Qed.

Section LastEvent.

Variable SetMarker : N.

Lemma last_row_event d :
  increasing [d] → lastEID (tag (AddDrawcall SetMarker d []).1) = last_event [d].
Proof.
  induction d as [d IH] using draw_ind. intros Hinc.
  destruct (AddDrawcall_tag_ok SetMarker d [] Hinc) as [_ Hkids].
  destruct (increasing_cons _ _ Hinc) as (Hcs & _).
  rewrite last_event_single, AddDrawcall_row. cbn [tag lastEID EventItemTag2].
  destruct (children d) as [|c0 cs0] eqn:Hch; [reflexivity|].
  rewrite bool_decide_false by discriminate.
  assert (Hne : c0 :: cs0 ≠ []) by discriminate.
  specialize (Hkids Hne). rewrite <- Hch in *. clear Hne.
  assert (Hlast : is_Some (last (children d)))
    by (apply last_is_Some; rewrite Hch; discriminate).
  destruct Hlast as [c Hc].
  assert (HL : last_lastEID (build_rows SetMarker (children d)) = last_event (children d)).
  { unfold last_lastEID. rewrite (build_rows_last SetMarker _ _ Hc). cbn.
    assert (Hin : c ∈ children d).
    { apply last_Some in Hc as [l' ->]. apply elem_of_app. right.
      by apply list_elem_of_singleton. }
    rewrite (proj1 (Forall_forall _ _) IH c Hin (increasing_last _ _ Hcs Hc)).
    apply last_Some in Hc as [l' ->]. symmetry. apply last_event_snoc. }
  rewrite HL in *. destruct (N.eqb_spec (last_event (children d)) 0); [lia|reflexivity].
Qed.

Lemma build_rows_last_event ds :
  increasing ds → last_lastEID (build_rows SetMarker ds) = last_event ds.
Proof.
  intros Hinc. destruct (last ds) as [c|] eqn:Hc.
  - unfold last_lastEID. rewrite (build_rows_last SetMarker _ _ Hc). cbn.
    rewrite (last_row_event c (increasing_last _ _ Hinc Hc)).
    apply last_Some in Hc as [l' ->]. symmetry. apply last_event_snoc.
  - apply last_None in Hc. subst ds. reflexivity.
Qed.

Lemma row_region_ends d :
  ∀ rest, increasing (d :: rest) →
    row_matches region_ends d rest (AddDrawcall SetMarker d rest).1.
Proof.
  induction d as [d IH] using draw_ind. intros rest Hinc.
  rewrite row_matches_unfold.
  destruct (AddDrawcall_tag_ok SetMarker d rest Hinc) as [_ Hkids].
  destruct (increasing_cons _ _ Hinc) as (Hcs & _).
  rewrite AddDrawcall_row. cbn [tag lastEID EventItemTag2 childItems].
  split; [|apply build_rows_match; assumption].
  intros Hne. cbn [tag lastEID EventItemTag2]. specialize (Hkids Hne).
  rewrite (build_rows_last_event _ Hcs) in *.
  destruct (N.eqb_spec (last_event (children d)) 0); [lia|reflexivity].
Qed.

End LastEvent.

(** X10. For a draw list whose event IDs increase strictly in traversal
    order, [AddDrawcalls] returns the last event ID of the list in that
    order, which is the largest one (0 for an empty list), and the row of
    every draw with children gets as lastEID the last event ID below that
    draw. *)
Theorem AddDrawcalls_returns_last_event SetMarker parent draws :
  increasing draws →
  ∃ rows,
    AddDrawcalls SetMarker parent draws
    = (mkItem (text parent) (tag parent) (icon parent) (childItems parent ++ rows),
       last_event draws) ∧
    rows_match region_ends draws rows ∧
    ∀ e, e ∈ flat_map preorder_eids draws → e ≤ last_event draws.
Proof.
  intros Hinc. exists (build_rows SetMarker draws).
  split; [rewrite AddDrawcalls_rows, build_rows_last_event by exact Hinc; reflexivity|].
  split.
  - apply build_rows_match; [|exact Hinc].
    apply Forall_forall. intros d _. apply row_region_ends.
  - intros e He. apply sorted_last_max; assumption.
Qed.

Lemma AddDrawcalls_returns_last_event_witness :
  (AddDrawcalls 16 (newItem ["Frame"]) demo_draws).2 = 5.
Proof.
  destruct (AddDrawcalls_returns_last_event 16 (newItem ["Frame"]) demo_draws
              demo_increasing) as (rows & -> & _).
  reflexivity.
Defined.

(** X11. Opening a capture whose event IDs increase strictly in traversal
    order makes its last event both the selected and the current event of
    the context, appends one top-level item whose tag runs from event 0 to
    that last event and whose first child is the "Frame Start" row of
    event 0, clears the bookmarks, and leaves the tree's current item as it
    was. *)
Theorem OnLogfileLoaded_last_event SetMarker b :
  increasing (CurDrawcalls (m_Ctx b)) →
  let last := last_event (CurDrawcalls (m_Ctx b)) in
  let b' := OnLogfileLoaded SetMarker b in
  CurEvent (m_Ctx b') = last ∧ CurSelectedEvent (m_Ctx b') = last ∧
  (∃ frame rows,
     events_items b' = events_items b ++ [frame] ∧
     tag frame = EventItemTag2 0 last ∧
     childItems frame
     = mkItem ["Frame Start"; "0"; ""] EventItemTag0 NoIcon [] :: rows ∧
     rows_match region_ends (CurDrawcalls (m_Ctx b)) rows) ∧
  m_Bookmarks b' = [] ∧ m_BookmarkButtons b' = [] ∧
  events_current b' = events_current b.
Proof.
  intros Hinc last b'.
  destruct (OnLogfileLoaded_fields SetMarker b) as (Hi & Hc & Hctx).
  rewrite (build_rows_last_event SetMarker _ Hinc) in Hi, Hctx. fold last in Hi, Hctx.
  subst b'. rewrite Hctx. split; [reflexivity|]. split; [reflexivity|].
  split; [|split; [|split; [|exact Hc]]].
  - eexists _, _. split; [exact Hi|]. split; [reflexivity|]. split; [reflexivity|].
    apply build_rows_match; [|exact Hinc].
    apply Forall_forall. intros d _. apply row_region_ends.
  - unfold OnLogfileLoaded. rewrite AddDrawcalls_rows. cbn. unfold expandItem.
    destruct (decide _); reflexivity.
  - unfold OnLogfileLoaded. rewrite AddDrawcalls_rows. cbn. unfold expandItem.
    destruct (decide _); reflexivity.
Qed.

Lemma OnLogfileLoaded_last_event_witness :
  CurEvent (m_Ctx (OnLogfileLoaded 16 (EventBrowser_new (mkCtx true 0 0 demo_draws 7)))) = 5.
Proof.
  apply (OnLogfileLoaded_last_event 16 (EventBrowser_new (mkCtx true 0 0 demo_draws 7))
           demo_increasing).
Defined.

(** ** Bookmarks and the rows they mark *)

Lemma toggleBookmark_rows e b root :
  topLevelItem b 0 = Some root →
  ∃ b', toggleBookmark e b = Some b' ∧
    events_items b'
    = match event_row b e with
      | Some (p, _) =>
          widgetModifyAt (retag (set_bookmark (negb (hasBookmark b e)))) p (events_items b)
      | None => events_items b
      end.
Proof.
  intros Hroot. unfold toggleBookmark, event_row, hasBookmark. rewrite Hroot.
  cbn [mbind option_bind]. eexists. split; [reflexivity|].
  destruct (0 <=? indexOf (m_Bookmarks b) e)%Z eqn:Hidx.
  - apply indexOf_nonneg_iff in Hidx.
    rewrite (bool_decide_eq_true_2 (e ∈ m_Bookmarks b) Hidx).
    destruct (FindEventNode None root [0%nat] e).1 as [[p n]|]; reflexivity.
  - assert (Hnot : e ∉ m_Bookmarks b).
    { intros Hin. apply indexOf_nonneg_iff in Hin. congruence. }
    rewrite (bool_decide_eq_false_2 (e ∈ m_Bookmarks b) Hnot).
    destruct (FindEventNode None root [0%nat] e).1 as [[p n]|]; reflexivity.
Qed.

(** X12. [toggleBookmark(EID)] re-tags exactly one row, the one the search
    of [SelectEvent(EID)] ends on: that row gets the [bookmark] flag when
    the event ID was not bookmarked before and loses it otherwise, with the
    icon of its new tag; every other row keeps its texts, tag and icon, and
    when the search finds no row the tree is unchanged. *)
Theorem toggleBookmark_marks_row e b root :
  topLevelItem b 0 = Some root →
  ∃ b', toggleBookmark e b = Some b' ∧
    (event_row b e = None → events_items b' = events_items b) ∧
    ∀ q, row_view <$> widgetItemAt (events_items b') q
         = (λ m, if decide (Some q = fst <$> event_row b e)
                 then (text m, set_bookmark (negb (hasBookmark b e)) (tag m),
                       tag_icon (set_bookmark (negb (hasBookmark b e)) (tag m)))
                 else row_view m) <$> widgetItemAt (events_items b) q.
Proof.
  intros Hroot. destruct (toggleBookmark_rows e b root Hroot) as (b' & Hb' & Hi).
  exists b'. split; [exact Hb'|]. rewrite Hi.
  destruct (event_row b e) as [[p n]|].
  - split; [discriminate|]. intros q.
    rewrite (widgetItemAt_modify _ p _ (childItems_retag _)).
    destruct (widgetItemAt (events_items b) q) as [m|]; [|reflexivity].
    cbn [fmap option_fmap option_map fst]. rewrite row_view_retag.
    repeat case_decide; try reflexivity; congruence.
  - split; [reflexivity|]. intros q.
    destruct (widgetItemAt (events_items b) q) as [m|]; reflexivity.
Qed.

Lemma toggleBookmark_marks_row_witness :
  ∃ b', toggleBookmark 4 demo_browser = Some b' ∧
        row_view <$> widgetItemAt (events_items b') [0; 2; 1]%nat
        = Some (["bar"; "4"; "0.0"], mkTag 4 4 false false true, asterisk_orange).
Proof.
  destruct (toggleBookmark_marks_row 4 demo_browser demo_root eq_refl) as (b' & Hb' & _ & H).
  exists b'. split; [exact Hb'|]. rewrite H. vm_compute. reflexivity.
Defined.

Lemma event_row_exact b root e m :
  topLevelItem b 0 = Some root → m ∈ rows_below root → lastEID (tag m) = e →
  ∃ p n, event_row b e = Some (p, n) ∧ lastEID (tag n) = e.
Proof.
  intros Hroot Hm He. unfold event_row. rewrite Hroot. cbn [mbind option_bind].
  destruct (search_post_node e root None [0%nat]) as (W & _ & _ & T & F); [discriminate|].
  destruct (FindEventNode None root [0%nat] e) as [f ret]. cbn [fst snd] in *.
  assert (Hl : found_eid f = Some e).
  { destruct ret; [apply T; reflexivity|].
    destruct (F eq_refl m Hm) as (l & Hl & Hle); [lia|].
    pose proof (W l Hl). rewrite Hl. f_equal. lia. }
  destruct f as [[p n]|]; [|discriminate]. exists p, n.
  split; [reflexivity|]. cbn in Hl. congruence.
Qed.

Lemma hasBookmark_filter (l : list N) e x :
  x ∈ filter (λ y, y ≠ e) l ↔ x ∈ l ∧ x ≠ e.
Proof. rewrite list_elem_of_filter. tauto. Qed.

(** X13. [on_bookmark_clicked] does nothing without a current item.  With
    one, and no event ID bookmarked twice, it toggles the bookmark of the
    current row's lastEID and of no other event ID.  [hasBookmark(node)]
    looks up the row's EID instead: for a row whose EID differs from its
    lastEID its answer is the same before and after. *)
Theorem on_bookmark_clicked_toggles b :
  (events_current b = None → on_bookmark_clicked b = Some b) ∧
  ∀ p n, events_current b = Some p → widgetItemAt (events_items b) p = Some n →
    NoDup (m_Bookmarks b) →
    ∃ b', on_bookmark_clicked b = Some b' ∧
      hasBookmark b' (lastEID (tag n)) = negb (hasBookmark b (lastEID (tag n))) ∧
      (∀ e, e ≠ lastEID (tag n) → hasBookmark b' e = hasBookmark b e) ∧
      (EID (tag n) ≠ lastEID (tag n) →
       hasBookmark_node b' (Some n) = hasBookmark_node b (Some n)).
Proof.
  split; [intros Hc; unfold on_bookmark_clicked; rewrite Hc; reflexivity|].
  intros p n Hc Hn Hnd. unfold on_bookmark_clicked. rewrite Hc, Hn.
  cbn [mbind option_bind].
  assert (Htop : is_Some (topLevelItem b 0)).
  { unfold topLevelItem. destruct p as [|i q]; [discriminate|]. cbn [widgetItemAt] in Hn.
    destruct (events_items b) as [|x l]; [rewrite lookup_nil in Hn; discriminate|].
    exists x. reflexivity. }
  destruct (toggleBookmark_once (lastEID (tag n)) b Hnd Htop)
    as (b' & Hb' & _ & _ & Hin & Hout).
  exists b'. split; [exact Hb'|].
  assert (Hother : ∀ e, e ≠ lastEID (tag n) → hasBookmark b' e = hasBookmark b e).
  { intros e Hne. unfold hasBookmark. apply bool_decide_ext.
    destruct (decide (lastEID (tag n) ∈ m_Bookmarks b)) as [H|H].
    - rewrite (Hin H), hasBookmark_filter. tauto.
    - rewrite (Hout H), elem_of_app, list_elem_of_singleton. tauto. }
  split; [|split; [exact Hother|]].
  - unfold hasBookmark.
    destruct (decide (lastEID (tag n) ∈ m_Bookmarks b)) as [H|H].
    + rewrite (bool_decide_true _ H), (Hin H). cbn [negb].
      apply bool_decide_false. rewrite hasBookmark_filter. tauto.
    + rewrite (bool_decide_false _ H), (Hout H). cbn [negb].
      apply bool_decide_true. apply elem_of_app. right. by apply list_elem_of_singleton.
  - intros Hne. cbn [hasBookmark_node]. apply Hother, Hne.
Qed.

Lemma on_bookmark_clicked_toggles_witness :
  ∃ b', on_bookmark_clicked (with_current (Some [0; 2]%nat) demo_browser) = Some b' ∧
        hasBookmark b' 4 = true ∧ hasBookmark_node b' (Some
          (mkItem ["foo pass"; "2-4"; "0.0"] (EventItemTag2 2 4) NoIcon
             [ mkItem ["foo"; "3"; "0.0"] (EventItemTag2 3 3) NoIcon [];
               mkItem ["bar"; "4"; "0.0"] (EventItemTag2 4 4) NoIcon [] ])) = false.
Proof.
  destruct (on_bookmark_clicked_toggles (with_current (Some [0; 2]%nat) demo_browser))
    as [_ H].
  destruct (H [0; 2]%nat
              (mkItem ["foo pass"; "2-4"; "0.0"] (EventItemTag2 2 4) NoIcon
                 [ mkItem ["foo"; "3"; "0.0"] (EventItemTag2 3 3) NoIcon [];
                   mkItem ["bar"; "4"; "0.0"] (EventItemTag2 4 4) NoIcon [] ])
              eq_refl eq_refl (NoDup_nil_2 : NoDup (m_Bookmarks demo_browser)))
    as (b' & Hb' & H1 & _ & H2).
  exists b'. split; [exact Hb'|]. split; [exact H1|].
  rewrite H2 by discriminate. reflexivity.
Defined.

(** X14. [jumpToBookmark(idx)] does nothing for an index that is negative
    or not below the number of bookmarks, and when no log is loaded.
    Otherwise, if the bookmarked event ID is the lastEID of some row below
    the top-level item, it makes current and selects a row with exactly
    that lastEID. *)
Theorem jumpToBookmark_selects idx b :
  ((idx < 0)%Z ∨ (Z.of_nat (length (m_Bookmarks b)) ≤ idx)%Z ∨
   LogLoaded (m_Ctx b) = false → jumpToBookmark idx b = Some b) ∧
  ∀ root e m,
    LogLoaded (m_Ctx b) = true → topLevelItem b 0 = Some root →
    (0 ≤ idx)%Z → m_Bookmarks b !! Z.to_nat idx = Some e →
    m ∈ rows_below root → lastEID (tag m) = e →
    ∃ b' p n,
      jumpToBookmark idx b = Some b' ∧
      events_current b' = Some p ∧ events_selected b' = Some p ∧
      widgetItemAt (events_items b) p = Some n ∧ lastEID (tag n) = e.
Proof.
  unfold jumpToBookmark. split.
  - intros H.
    assert (Hc : (idx <? 0)%Z || (Z.of_nat (length (m_Bookmarks b)) <=? idx)%Z
                 || negb (LogLoaded (m_Ctx b)) = true).
    { destruct H as [H|[H|H]].
      - apply Z.ltb_lt in H. rewrite H. reflexivity.
      - apply Z.leb_le in H. rewrite H, orb_true_r. reflexivity.
      - rewrite H, orb_true_r. reflexivity. }
    rewrite Hc. reflexivity.
  - intros root e m Hlog Hroot Hidx He Hm HeID.
    assert (Hlt : (idx < Z.of_nat (length (m_Bookmarks b)))%Z).
    { apply lookup_lt_Some in He. lia. }
    assert (Hc : (idx <? 0)%Z || (Z.of_nat (length (m_Bookmarks b)) <=? idx)%Z
                 || negb (LogLoaded (m_Ctx b)) = false).
    { rewrite Hlog. rewrite (proj2 (Z.ltb_ge _ _) Hidx).
      rewrite (proj2 (Z.leb_gt _ _) Hlt). reflexivity. }
    rewrite Hc, He. cbn [mbind option_bind].
    destruct (event_row_exact b root e m Hroot Hm HeID) as (p & n & Hrow & Hn).
    rewrite (SelectEvent_event_row e b Hlog), Hroot, Hrow. cbn [mbind option_bind fst].
    eexists _, p, n. split; [reflexivity|].
    destruct (select_marks p b) as [Hcur Hsel].
    split; [exact Hcur|]. split; [exact Hsel|].
    split; [eapply event_row_valid, Hrow|exact Hn].
Qed.

Lemma jumpToBookmark_selects_witness :
  ∃ b' p n,
    jumpToBookmark 0 (with_bookmarks [4] [mkButton "4" 4 false] demo_browser) = Some b' ∧
    events_current b' = Some p ∧ events_selected b' = Some p ∧
    widgetItemAt (events_items demo_browser) p = Some n ∧ lastEID (tag n) = 4.
Proof.
  destruct (jumpToBookmark_selects 0
              (with_bookmarks [4] [mkButton "4" 4 false] demo_browser)) as [_ H].
  apply (H demo_root 4 (mkItem ["bar"; "4"; "0.0"] (EventItemTag2 4 4) NoIcon []));
    try reflexivity; try lia.
  apply list_elem_of_In. vm_compute. auto 10.
Defined.

(** ** The name column of the exported event list *)

Lemma GetMaxNameLength_unfold m indent fc d :
  GetMaxNameLength m indent fc d
  = GetMaxNameLength_loop indent (children d) true
      (Z.max m (count (GetExportDrawcallString indent fc d))).
Proof.
  destruct d as [e di nm fl cs]. cbn [GetMaxNameLength children]. unfold count.
  generalize (Z.max m (Z.of_nat (String.length
                (GetExportDrawcallString indent fc (mkDraw e di nm fl cs))))).
  generalize true.
  induction cs as [|c cs IH]; intros b z; [reflexivity|].
  cbn [GetMaxNameLength_loop]. rewrite <- IH. reflexivity.
Qed.

Lemma ExportDrawcall_names_unfold indent fc d :
  ExportDrawcall_names indent fc d
  = GetExportDrawcallString indent fc d
    :: ExportDrawcall_names_loop indent (children d) true.
Proof.
  destruct d as [e di nm fl cs]. cbn [ExportDrawcall_names children]. f_equal.
  generalize true.
  induction cs as [|c cs IH]; intros b; [reflexivity|].
  cbn [ExportDrawcall_names_loop]. rewrite <- IH. reflexivity.
Qed.

Lemma GetMaxNameLength_loop_fold indent ds :
  Forall (λ d, ∀ m i fc, GetMaxNameLength m i fc d
                         = foldl Z.max m (List.map count (ExportDrawcall_names i fc d))) ds →
  ∀ fc m, GetMaxNameLength_loop indent ds fc m
          = foldl Z.max m (List.map count (ExportDrawcall_names_loop indent ds fc)).
Proof.
  induction ds as [|d ds IH]; intros Hall fc m; [reflexivity|].
  apply Forall_cons_1 in Hall as [Hd Hall].
  cbn [GetMaxNameLength_loop ExportDrawcall_names_loop].
  rewrite List.map_app, foldl_app, <- Hd. apply IH, Hall.
Qed.

Lemma GetMaxNameLength_fold d :
  ∀ m indent fc,
    GetMaxNameLength m indent fc d
    = foldl Z.max m (List.map count (ExportDrawcall_names indent fc d)).
Proof.
  induction d as [d IH] using draw_ind. intros m indent fc.
  rewrite GetMaxNameLength_unfold, ExportDrawcall_names_unfold.
  cbn [List.map foldl]. apply GetMaxNameLength_loop_fold, IH.
Qed.

Lemma exportMaxNameLength_fold draws :
  ∀ m, exportMaxNameLength m draws = foldl Z.max m (List.map count (export_names draws)).
Proof.
  unfold export_names. induction draws as [|d draws IH]; intros m; [reflexivity|].
  cbn [exportMaxNameLength flat_map].
  rewrite List.map_app, foldl_app, <- GetMaxNameLength_fold. apply IH.
Qed.

Lemma foldl_max_ge (l : list Z) :
  ∀ m, (m ≤ foldl Z.max m l)%Z ∧ ∀ x, x ∈ l → (x ≤ foldl Z.max m l)%Z.
Proof.
  induction l as [|y l IH]; intros m.
  - split; [cbn; lia|]. intros x Hx. inversion Hx.
  - cbn [foldl]. destruct (IH (Z.max m y)) as [H1 H2]. split; [lia|].
    intros x Hx. apply elem_of_cons in Hx as [->|Hx]; [lia|apply H2, Hx].
Qed.

Lemma foldl_max_attained (l : list Z) :
  ∀ m, foldl Z.max m l = m ∨ foldl Z.max m l ∈ l.
Proof.
  induction l as [|y l IH]; intros m; [left; reflexivity|].
  cbn [foldl]. destruct (IH (Z.max m y)) as [H|H].
  - rewrite H. destruct (Z.max_spec m y) as [[_ ->]|[_ ->]]; [right; left|left; reflexivity].
  - right. right. exact H.
Qed.

(** X15. The width that [on_exportDraws_clicked] measures for the name
    column with [GetMaxNameLength] is the length of the longest name string
    among the lines [ExportDrawcall] then writes: every name string fits in
    the column, for a non-empty draw list some name string fills it, and
    for an empty one the width is 0. *)
Theorem export_column_fits draws :
  (∀ s, s ∈ export_names draws → (count s ≤ exportMaxNameLength 0 draws)%Z) ∧
  (draws ≠ [] →
   ∃ s, s ∈ export_names draws ∧ count s = exportMaxNameLength 0 draws) ∧
  (draws = [] → exportMaxNameLength 0 draws = 0%Z).
Proof.
  rewrite exportMaxNameLength_fold.
  destruct (foldl_max_ge (List.map count (export_names draws)) 0) as [H0 Hge].
  split; [|split].
  - intros s Hs. apply Hge, list_elem_of_fmap. exists s. auto.
  - intros Hne.
    destruct (foldl_max_attained (List.map count (export_names draws)) 0) as [H|H].
    + destruct draws as [|d draws]; [congruence|].
      exists (GetExportDrawcallString 0 false d). split.
      * unfold export_names. cbn [flat_map]. rewrite ExportDrawcall_names_unfold. left.
      * assert (Hin : count (GetExportDrawcallString 0 false d)
                      ∈ List.map count (export_names (d :: draws))).
        { apply list_elem_of_fmap. eexists. split; [reflexivity|].
          unfold export_names. cbn [flat_map]. rewrite ExportDrawcall_names_unfold. left. }
        pose proof (Hge _ Hin) as Hle. rewrite H in Hle. rewrite H.
        unfold count in *. lia.
    + apply list_elem_of_fmap in H as (s & Hs & Hin). exists s. split; [exact Hin|].
      symmetry. exact Hs.
  - intros ->. reflexivity.
Qed.

Lemma export_column_fits_witness :
  ∃ s, s ∈ export_names demo_draws ∧ count s = exportMaxNameLength 0 demo_draws.
Proof.
  destruct (export_column_fits demo_draws) as (_ & H & _). apply H. discriminate.
Defined.

Lemma string_length_app (a b : string) :
  String.length (a +:+ b) = (String.length a + String.length b)%nat.
Proof.
  induction a as [|c a IH]; [reflexivity|].
  change (S (String.length (a +:+ b)) = S (String.length a + String.length b)).
  f_equal. exact IH.
Qed.

Lemma spaces_length n : String.length (spaces n) = Z.to_nat n.
Proof.
  unfold spaces. induction (Z.to_nat n) as [|k IH]; [reflexivity|].
  destruct k as [|k]; [reflexivity|].
  change (replicate (S (S k)) " ") with (" " :: replicate (S k) " ").
  cbn [String.concat]. change (replicate (S k) " ") with (" " :: replicate k " ") at 1.
  cbv beta iota. rewrite !string_length_app. cbn [String.length]. rewrite IH. lia.
Qed.

(** X16. The name string of an exported line is the draw's name after an
    indentation of two characters per level and the two characters "- ".
    From level 1 on the backslash that marks a first child takes the place
    of the last space, so the names of one level start in the same column;
    at level 0 a first-child mark would make the string one character
    longer. *)
Theorem GetExportDrawcallString_length indent firstchild d :
  (0 ≤ indent)%Z →
  count (GetExportDrawcallString indent firstchild d)
  = (2 * indent + 2 + count (name d)
     + (if firstchild && (indent =? 0)%Z then 1 else 0))%Z ∧
  ∃ prefix, GetExportDrawcallString indent firstchild d = prefix +:+ "- " +:+ name d ∧
            count prefix = (2 * indent + (if firstchild && (indent =? 0)%Z then 1 else 0))%Z.
Proof.
  intros Hi.
  assert (Hp : count (if firstchild
                      then spaces (indent * 2 - 1) +:+ backslash
                      else spaces (indent * 2 - 0))
               = (2 * indent + (if firstchild && (indent =? 0)%Z then 1 else 0))%Z).
  { unfold count. destruct firstchild; cbn [andb].
    - rewrite string_length_app, spaces_length. cbn [backslash String.length].
      destruct (Z.eqb_spec indent 0); lia.
    - rewrite spaces_length. lia. }
  split.
  - unfold GetExportDrawcallString.
    destruct firstchild; unfold count in *; rewrite !string_length_app;
      cbn [String.length] in *; rewrite ?string_length_app in *; lia.
  - eexists. split; [unfold GetExportDrawcallString; reflexivity|].
    destruct firstchild; exact Hp.
Qed.

Lemma GetExportDrawcallString_length_witness :
  count (GetExportDrawcallString 1 true (mkDraw 3 1 "foo" 2 []))
  = count (GetExportDrawcallString 1 false (mkDraw 3 1 "foo" 2 [])).
Proof.
  destruct (GetExportDrawcallString_length 1 true (mkDraw 3 1 "foo" 2 []))
    as [-> _]; [lia|].
  destruct (GetExportDrawcallString_length 1 false (mkDraw 3 1 "foo" 2 []))
    as [-> _]; [lia|].
  reflexivity.
Defined.

(** ** Pressing return or F3 in the find box *)

Lemma ExpandNode_loop_text rp :
  ∀ b, findEvent_text (ExpandNode_loop rp b) = findEvent_text b.
Proof.
  induction rp as [|i rp IH]; intros b; [reflexivity|].
  cbn [ExpandNode_loop]. rewrite IH. unfold expandItem.
  destruct (decide _); reflexivity.
Qed.

Lemma setCurrentItem_keeps p b :
  findEvent_text (setCurrentItem p b) = findEvent_text b ∧
  LogLoaded (m_Ctx (setCurrentItem p b)) = LogLoaded (m_Ctx b).
Proof.
  unfold setCurrentItem. destruct (decide _); [auto|].
  unfold on_events_currentItemChanged.
  destruct (events_current b); cbn;
    match goal with |- context [widgetItemAt ?l p] => destruct (widgetItemAt l p) end;
    auto.
Qed.

Lemma SelectEvent_keeps e b r :
  SelectEvent e b = Some r →
  findEvent_text r.1 = findEvent_text b ∧
  LogLoaded (m_Ctx r.1) = LogLoaded (m_Ctx b).
Proof.
  unfold SelectEvent. destruct (negb (LogLoaded (m_Ctx b))); [intros [= <-]; auto|].
  destruct (topLevelItem b 0) as [root|]; [|discriminate]. cbn [mbind option_bind].
  destruct (FindEventNode None root [0%nat] e).1 as [[p n]|]; intros [= <-]; [|auto].
  cbn [fst]. unfold ExpandNode. rewrite ExpandNode_loop_text, ExpandNode_loop_ctx.
  apply (setCurrentItem_keeps p b).
Qed.

Lemma Find_total fw b :
  is_Some (topLevelItem b 0) → is_Some (Find_curEID b) →
  ∃ b', Find fw b = Some b' ∧
        findEvent_text b' = findEvent_text b ∧
        LogLoaded (m_Ctx b') = LogLoaded (m_Ctx b).
Proof.
  intros Htop [cur Hcur]. unfold Find, Find_curEID in *.
  destruct (bool_decide (findEvent_text b = "")); [exists b; auto|].
  rewrite Hcur. cbn [mbind option_bind].
  destruct (0 <=? FindEvent b (findEvent_text b) cur fw)%Z.
  - destruct (SelectEvent_total (Z.to_N (FindEvent b (findEvent_text b) cur fw)) b Htop)
      as [r Hr].
    rewrite Hr. cbn [mbind option_bind]. eexists. split; [reflexivity|].
    apply (SelectEvent_keeps _ _ _ Hr).
  - destruct (0 <=? FindEvent b (findEvent_text b) _ fw)%Z; [|eexists; auto].
    match goal with |- context [SelectEvent ?e b] =>
      destruct (SelectEvent_total e b Htop) as [r Hr] end.
    rewrite Hr. cbn [mbind option_bind]. eexists. split; [reflexivity|].
    apply (SelectEvent_keeps _ _ _ Hr).
Qed.

Lemma skeleton_rows_text a :
  ∀ c, skeleton a = skeleton c →
       List.map text (rows_below a) = List.map text (rows_below c).
Proof.
  induction a as [a IH] using item_ind. intros c Hs.
  rewrite !skeleton_unfold in Hs. injection Hs as _ _ _ Hkids.
  rewrite (rows_below_unfold a), (rows_below_unfold c).
  revert Hkids IH. generalize (childItems c). generalize (childItems a).
  induction l as [|x l IHl]; intros [|y l'] Hkids Hall; try discriminate; [reflexivity|].
  cbn [List.map] in Hkids. injection Hkids as Hxy Hl.
  apply Forall_cons_1 in Hall as [Hx Hall].
  cbn [flat_map]. rewrite !List.map_app. cbn [List.map].
  rewrite (IHl l' Hl Hall), (Hx y Hxy). do 2 f_equal.
  rewrite !skeleton_unfold in Hxy. congruence.
Qed.

Lemma no_match_texts filter l1 l2 :
  List.map text l1 = List.map text l2 →
  (∀ n, n ∈ l1 → name_matches filter n = false) →
  ∀ n, n ∈ l2 → name_matches filter n = false.
Proof.
  revert l2. induction l1 as [|a l1 IH]; intros [|c l2] Ht H n Hn; try discriminate.
  - inversion Hn.
  - injection Ht as Ha Hl. apply elem_of_cons in Hn as [->|Hn].
    + specialize (H a ltac:(left)). unfold name_matches, textAt in *. congruence.
    + apply (IH l2 Hl); [|exact Hn]. intros m Hm. apply H. right. exact Hm.
Qed.

Lemma findEvent_F3_effect shift b root :
  LogLoaded (m_Ctx b) = true → topLevelItem b 0 = Some root →
  is_Some (Find_curEID b) →
  ∃ b',
    on_findEvent_keyPress_F3 shift b = Some b' ∧
    (findEvent_styleSheet b' = RED ↔
       findEvent_text b = "" ∨
       ∀ n, n ∈ rows_below root → name_matches (findEvent_text b) n = false) ∧
    List.map skeleton (events_items b') = List.map skeleton (events_items b).
Proof.
  intros Hlog Hroot Hcur. unfold on_findEvent_keyPress_F3.
  destruct (bool_decide (findEvent_text b = "")) eqn:Hempty.
  - cbn [mbind option_bind].
    destruct (findHighlight_timeout_effect b root Hlog Hroot)
      as (b' & root' & Hb' & _ & Hred & _).
    exists b'. split; [exact Hb'|]. split; [exact Hred|].
    apply tree_change_skeleton, findHighlight_timeout_change, Hb'.
  - set (fw := if shift then false else true).
    destruct (Find_total fw b) as (b1 & Hb1 & Htext & Hlog1); [eauto|exact Hcur|].
    rewrite Hb1. cbn [mbind option_bind].
    pose proof (tree_change_skeleton _ _ (Find_change _ _ _ Hb1)) as Hskel.
    assert (Hroot1 : ∃ root1, topLevelItem b1 0 = Some root1 ∧
                              skeleton root1 = skeleton root).
    { unfold topLevelItem in *.
      apply (f_equal (λ l, l !! 0%nat)) in Hskel. rewrite !list_lookup_fmap, Hroot in Hskel.
      destruct (events_items b1 !! 0%nat) as [root1|]; [|discriminate].
      exists root1. split; [reflexivity|]. cbn in Hskel. congruence. }
    destruct Hroot1 as (root1 & Hroot1 & Hs1).
    rewrite Hlog in Hlog1.
    destruct (findHighlight_timeout_effect b1 root1 Hlog1 Hroot1)
      as (b' & root' & Hb' & _ & Hred & _).
    exists b'. split; [exact Hb'|]. split.
    + rewrite Hred, Htext. pose proof (skeleton_rows_text _ _ Hs1) as Ht.
      split; (intros [H|H]; [left; exact H|right]).
      * eapply no_match_texts; [exact Ht|exact H].
      * eapply no_match_texts; [symmetry; exact Ht|exact H].
    + rewrite <- Hskel.
      apply tree_change_skeleton, findHighlight_timeout_change, Hb'.
Qed.

(** X17. Pressing return or F3 in the find box of a loaded log first
    searches (when the box is not empty) and then re-marks the matching
    rows; the colour the box ends with is the one the re-marking gives it,
    whatever the search found: red exactly when the box is empty or no row
    below the top-level item has a name containing its text.  The rows keep
    their texts, event IDs and nesting.  Return behaves as F3 without
    shift. *)
Theorem findEvent_return_colour shift b root :
  LogLoaded (m_Ctx b) = true → topLevelItem b 0 = Some root →
  is_Some (Find_curEID b) →
  on_findEvent_returnPressed b = on_findEvent_keyPress_F3 false b ∧
  ∃ b',
    on_findEvent_keyPress_F3 shift b = Some b' ∧
    (findEvent_styleSheet b' = RED ↔
       findEvent_text b = "" ∨
       ∀ n, n ∈ rows_below root → name_matches (findEvent_text b) n = false) ∧
    List.map skeleton (events_items b') = List.map skeleton (events_items b).
Proof.
  intros Hlog Hroot Hcur. split; [reflexivity|]. apply findEvent_F3_effect; assumption.
Qed.

Lemma findEvent_return_colour_witness :
  (∃ b1, Find true (with_findText "start" demo_browser) = Some b1 ∧
         findEvent_styleSheet b1 = RED) ∧
  ∃ b', on_findEvent_returnPressed (with_findText "start" demo_browser) = Some b' ∧
        findEvent_styleSheet b' ≠ RED.
Proof.
  split; [eexists; split; vm_compute; reflexivity|].
  destruct (findEvent_return_colour false (with_findText "start" demo_browser) demo_root
              eq_refl eq_refl (ex_intro _ 5 eq_refl)) as (-> & b' & Hb' & Hred & _).
  exists b'. split; [exact Hb'|]. intros H. apply (proj1 Hred) in H as [H|H].
  - discriminate H.
  - specialize (H (mkItem ["Frame Start"; "0"; ""] EventItemTag0 NoIcon [])).
    assert (Hin : mkItem ["Frame Start"; "0"; ""] EventItemTag0 NoIcon []
                  ∈ rows_below demo_root) by (cbn; left).
    specialize (H Hin). vm_compute in H. discriminate H.
Defined.

(** * Pipeline-state viewer: further properties *)

(** ** Matching a register against the shader's bind points *)

Lemma int_add_small a b :
  (- 2 ^ 31 ≤ a + b < 2 ^ 31)%Z → D3D12Rows.int_add a b = (a + b)%Z.
Proof.
  intros H. unfold D3D12Rows.int_add. rewrite Z.mod_small by lia. lia.
Qed.

Lemma to_int_large n : 2 ^ 31 ≤ n → n < 2 ^ 32 → to_int n = (Z.of_N n - 2 ^ 32)%Z.
Proof.
  intros Hlo Hhi. unfold to_int. rewrite Z.mod_small by lia.
  destruct (Z.ltb_spec (Z.of_N n) (2 ^ 31)); [lia|reflexivity].
Qed.

Lemma regMatch_spec b reg :
  D3D12Rows.arraySize b < 2 ^ 32 →
  (- 2 ^ 31 ≤ D3D12Rows.bind b + to_int (D3D12Rows.arraySize b) < 2 ^ 31)%Z →
  D3D12Rows.regMatch b reg = true ↔
  (D3D12Rows.bind b ≤ reg)%Z ∧
  (D3D12Rows.arraySize b = UINT_MAX ∨
   (D3D12Rows.arraySize b < 2 ^ 31 ∧ (reg < D3D12Rows.bind b + Z.of_N (D3D12Rows.arraySize b))%Z)).
Proof.
  intros Hsize Hsum. unfold D3D12Rows.regMatch. rewrite (int_add_small _ _ Hsum).
  destruct (Z.leb_spec (D3D12Rows.bind b) reg) as [Hle|Hgt].
  - rewrite orb_true_iff, N.eqb_eq, Z.ltb_lt. split.
    + intros [Hmax|Hlt]; (split; [exact Hle|]); [left; exact Hmax|].
      destruct (N.lt_ge_cases (D3D12Rows.arraySize b) (2 ^ 31)) as [Hs|Hs].
      * right. split; [exact Hs|]. rewrite to_int_small in Hlt by exact Hs. exact Hlt.
      * rewrite to_int_large in Hlt by assumption. lia.
    + intros [_ [Hmax|[Hs Hlt]]]; [left; exact Hmax|right].
      rewrite to_int_small by exact Hs. exact Hlt.
  - split.
    + intros H. apply Z.eqb_eq in H. lia.
    + intros [H _]. lia.
Qed.

(** X18. Whether a bind point covers a register: provided the sum the
    code forms does not overflow, [regMatch] holds exactly when the bind
    point starts at or before the register and either is an unbounded array
    (array size [~0U]) or has an array size below 2^31 that reaches past
    the register.  So a bind point of array size 0 covers no register, not
    even its own; one of array size 1 covers exactly its own; and one whose
    array size is 2^31 or more, but not [~0U], covers none. *)
Theorem regMatch_covers b reg :
  D3D12Rows.arraySize b < 2 ^ 32 →
  (- 2 ^ 31 ≤ D3D12Rows.bind b + to_int (D3D12Rows.arraySize b) < 2 ^ 31)%Z →
  (D3D12Rows.regMatch b reg = true ↔
     (D3D12Rows.bind b ≤ reg)%Z ∧
     (D3D12Rows.arraySize b = UINT_MAX ∨
      (D3D12Rows.arraySize b < 2 ^ 31 ∧
       (reg < D3D12Rows.bind b + Z.of_N (D3D12Rows.arraySize b))%Z))) ∧
  (D3D12Rows.arraySize b = 0 → D3D12Rows.regMatch b reg = false) ∧
  (D3D12Rows.arraySize b = 1 →
   (D3D12Rows.regMatch b reg = true ↔ D3D12Rows.bind b = reg)) ∧
  (2 ^ 31 ≤ D3D12Rows.arraySize b → D3D12Rows.arraySize b ≠ UINT_MAX →
   D3D12Rows.regMatch b reg = false).
Proof.
  intros Hsize Hsum. pose proof (regMatch_spec b reg Hsize Hsum) as Hspec.
  split; [exact Hspec|]. split; [|split].
  - intros H0. apply not_true_is_false. rewrite Hspec, H0.
    intros [Hle [Hmax|[_ Hlt]]]; [discriminate|lia].
  - intros H1. rewrite Hspec, H1. split.
    + intros [Hle [Hmax|[_ Hlt]]]; [discriminate|lia].
    + intros <-. split; [lia|]. right. split; [reflexivity|lia].
  - intros Hbig Hne. apply not_true_is_false. rewrite Hspec.
    intros [_ [Hmax|[Hs _]]]; [contradiction|lia].
Qed.

Lemma regMatch_covers_witness :
  D3D12Rows.regMatch (D3D12Rows.mkBind 0 3 true 2) 4 = true ∧
  D3D12Rows.regMatch (D3D12Rows.mkBind 0 3 true 0) 3 = false.
Proof.
  split.
  - apply (proj1 (regMatch_covers (D3D12Rows.mkBind 0 3 true 2) 4 eq_refl
                    ltac:(vm_compute; split; [discriminate|reflexivity]))).
    split; [cbn; lia|]. right. split; [reflexivity|cbn; lia].
  - apply (proj1 (proj2 (regMatch_covers (D3D12Rows.mkBind 0 3 true 0) 3 eq_refl
                           ltac:(vm_compute; split; [discriminate|reflexivity])))).
    reflexivity.
Defined.

(** The condition under which the loop takes the bind point at an index. *)
Lemma findBind_spec sampler space reg binds :
  ∀ res i,
    (i + length binds ≤ length res)%nat →
    ∃ r, D3D12Rows.findBind sampler binds res i space reg = Some r ∧
      match r with
      | None =>
          ∀ j b s, binds !! j = Some b → res !! (i + j)%nat = Some s →
            (D3D12Rows.bindset b =? space)%Z && D3D12Rows.regMatch b reg
            && bool_decide (D3D12Rows.IsSampler s = sampler) = false
      | Some (k, b, s) =>
          ∃ j, k = (i + j)%nat ∧ binds !! j = Some b ∧ res !! k = Some s ∧
            (D3D12Rows.bindset b =? space)%Z && D3D12Rows.regMatch b reg
            && bool_decide (D3D12Rows.IsSampler s = sampler) = true ∧
            ∀ j' b' s', (j' < j)%nat → binds !! j' = Some b' →
              res !! (i + j')%nat = Some s' →
              (D3D12Rows.bindset b' =? space)%Z && D3D12Rows.regMatch b' reg
              && bool_decide (D3D12Rows.IsSampler s' = sampler) = false
      end.
Proof.
  induction binds as [|b later IH]; intros res i Hlen.
  { exists None. split; [reflexivity|]. intros j b s Hj. rewrite lookup_nil in Hj.
    discriminate. }
  cbn [length] in Hlen. cbn [D3D12Rows.findBind].
  destruct (lookup_lt_is_Some_2 res i ltac:(lia)) as [s Hs].
  destruct (IH res (S i) ltac:(lia)) as (r & Hr & Hpost).
  assert (Hnext : (D3D12Rows.bindset b =? space)%Z && D3D12Rows.regMatch b reg
                  && bool_decide (D3D12Rows.IsSampler s = sampler) = false →
                  ∃ r0, (if (D3D12Rows.bindset b =? space)%Z && D3D12Rows.regMatch b reg
                         then res !! i ≫= λ r1,
                                if bool_decide (D3D12Rows.IsSampler r1 = sampler)
                                then Some (Some (i, b, r1))
                                else D3D12Rows.findBind sampler later res (S i) space reg
                         else D3D12Rows.findBind sampler later res (S i) space reg)
                        = Some r0 ∧
                        match r0 with
                        | None =>
                            ∀ j b0 s0, (b :: later) !! j = Some b0 →
                              res !! (i + j)%nat = Some s0 →
                              (D3D12Rows.bindset b0 =? space)%Z && D3D12Rows.regMatch b0 reg
                              && bool_decide (D3D12Rows.IsSampler s0 = sampler) = false
                        | Some (k, b0, s0) =>
                            ∃ j, k = (i + j)%nat ∧ (b :: later) !! j = Some b0 ∧
                              res !! k = Some s0 ∧
                              (D3D12Rows.bindset b0 =? space)%Z && D3D12Rows.regMatch b0 reg
                              && bool_decide (D3D12Rows.IsSampler s0 = sampler) = true ∧
                              ∀ j' b' s', (j' < j)%nat → (b :: later) !! j' = Some b' →
                                res !! (i + j')%nat = Some s' →
                                (D3D12Rows.bindset b' =? space)%Z
                                && D3D12Rows.regMatch b' reg
                                && bool_decide (D3D12Rows.IsSampler s' = sampler) = false
                        end).
  { intros Hno. exists r. split.
    - rewrite Hs. cbn [mbind option_bind].
      destruct ((D3D12Rows.bindset b =? space)%Z && D3D12Rows.regMatch b reg);
        [|exact Hr].
      cbn [andb] in Hno. rewrite Hno. exact Hr.
    - destruct r as [[[k b0] s0]|].
      + destruct Hpost as (j & -> & Hj & Hk & Hc & Hbefore).
        exists (S j). split; [lia|]. split; [exact Hj|].
        split; [exact Hk|]. split; [exact Hc|].
        intros [|j'] b' s' Hlt Hb' Hs'.
        * cbn in Hb'. injection Hb' as <-. rewrite Nat.add_0_r, Hs in Hs'.
          injection Hs' as <-. exact Hno.
        * apply (Hbefore j' b' s'); [lia|exact Hb'|].
          rewrite <- Hs'. f_equal. lia.
      + intros [|j] b0 s0 Hb0 Hs0.
        * cbn in Hb0. injection Hb0 as <-. rewrite Nat.add_0_r, Hs in Hs0.
          injection Hs0 as <-. exact Hno.
        * apply (Hpost j b0 s0 Hb0). rewrite <- Hs0. f_equal. lia. }
  destruct ((D3D12Rows.bindset b =? space)%Z && D3D12Rows.regMatch b reg
            && bool_decide (D3D12Rows.IsSampler s = sampler)) eqn:Hc;
    [|apply Hnext; reflexivity].
  clear Hnext. apply andb_true_iff in Hc as [Hc1 Hc2]. rewrite Hc1, Hs.
  cbn [mbind option_bind]. rewrite Hc2.
  exists (Some (i, b, s)). split; [reflexivity|].
  exists 0%nat. rewrite Nat.add_0_r. split; [reflexivity|]. split; [reflexivity|].
  split; [exact Hs|]. split; [rewrite Hc1, Hc2; reflexivity|]. intros j' b' s' Hlt. lia.
Qed.

(** X19. The search for the bind point of a register, when the reflection
    data has an entry for every bind point: it ends on the first bind point,
    in the order of the list, that has the register's space, covers the
    register and is a sampler or not as the caller asks, and it finds none
    exactly when no bind point is such. *)
Theorem findBind_first sampler space reg binds res :
  (length binds ≤ length res)%nat →
  ∃ r, D3D12Rows.findBind sampler binds res 0 space reg = Some r ∧
    match r with
    | None =>
        ∀ j b s, binds !! j = Some b → res !! j = Some s →
          (D3D12Rows.bindset b =? space)%Z && D3D12Rows.regMatch b reg
          && bool_decide (D3D12Rows.IsSampler s = sampler) = false
    | Some (k, b, s) =>
        binds !! k = Some b ∧ res !! k = Some s ∧
        (D3D12Rows.bindset b =? space)%Z && D3D12Rows.regMatch b reg
        && bool_decide (D3D12Rows.IsSampler s = sampler) = true ∧
        ∀ j b' s', (j < k)%nat → binds !! j = Some b' → res !! j = Some s' →
          (D3D12Rows.bindset b' =? space)%Z && D3D12Rows.regMatch b' reg
          && bool_decide (D3D12Rows.IsSampler s' = sampler) = false
    end.
Proof.
  intros Hlen.
  destruct (findBind_spec sampler space reg binds res 0%nat Hlen) as (r & Hr & Hpost).
  exists r. split; [exact Hr|]. destruct r as [[[k b] s]|].
  - destruct Hpost as (j & -> & Hj & Hk & Hc & Hbefore). cbn [Nat.add].
    split; [exact Hj|]. split; [exact Hk|]. split; [exact Hc|]. exact Hbefore.
  - exact Hpost.
Qed.

Lemma findBind_first_witness :
  D3D12Rows.findBind false
    [D3D12Rows.mkBind 0 0 true 0; D3D12Rows.mkBind 0 0 false 4]
    [D3D12Rows.mkResource false "a"; D3D12Rows.mkResource false "b"] 0 0 2
  = Some (Some (1%nat, D3D12Rows.mkBind 0 0 false 4, D3D12Rows.mkResource false "b")).
Proof.
  destruct (findBind_first false 0 2
              [D3D12Rows.mkBind 0 0 true 0; D3D12Rows.mkBind 0 0 false 4]
              [D3D12Rows.mkResource false "a"; D3D12Rows.mkResource false "b"])
    as (r & Hr & _); [cbn; lia|].
  rewrite Hr. vm_compute in Hr. symmetry. exact Hr.
Defined.

(** ** Resource rows and the render targets *)

Lemma showNode_unused ui filled :
  D3D12PipelineStateViewer.showNode ui false filled
  = if filled then D3D12PipelineStateViewer.showDisabled ui
    else D3D12PipelineStateViewer.showEmpty ui.
Proof.
  unfold D3D12PipelineStateViewer.showNode.
  destruct filled, (D3D12PipelineStateViewer.showDisabled ui),
    (D3D12PipelineStateViewer.showEmpty ui); reflexivity.
Qed.

Lemma addResourceRow_no_stage ui t reg v :
  D3D12Rows.addResourceRow ui (D3D12Rows.mkViewTag t 0 reg v) None
  = Some (if D3D12Rows.RootElement v =? UINT_MAX then None
          else if D3D12PipelineStateViewer.showNode ui false
                    (negb (D3D12Rows.Resource v =? 0))
               then Some (D3D12Rows.mkResourceRow (pretty reg)
                            (D3D12Rows.Resource v =? 0) true)
               else None).
Proof.
  unfold D3D12Rows.addResourceRow. destruct v as [re rs].
  cbn [D3D12Rows.vt_res D3D12Rows.vt_space D3D12Rows.vt_reg D3D12Rows.RootElement
       D3D12Rows.Resource mbind option_bind].
  destruct (re =? UINT_MAX); [reflexivity|].
  destruct (rs =? 0); destruct ui as [[] []]; reflexivity.
Qed.

Lemma targetRows_spec ui targets :
  ∀ i, ∃ rows,
    D3D12Rows.targetRows ui i targets = Some rows ∧
    Forall (λ r, D3D12Rows.res_inactive r = true ∧
                 ∃ k, D3D12Rows.regname r = pretty (Z.of_nat k)) rows ∧
    (D3D12PipelineStateViewer.showDisabled ui = false →
     D3D12PipelineStateViewer.showEmpty ui = false → rows = []).
Proof.
  induction targets as [|t later IH]; intros i.
  { exists []. split; [reflexivity|]. split; [constructor|reflexivity]. }
  destruct (IH (S i)) as (rest & Hrest & Hall & Hnone).
  cbn [D3D12Rows.targetRows]. rewrite addResourceRow_no_stage, Hrest.
  cbn [mbind option_bind]. rewrite showNode_unused. eexists. split; [reflexivity|].
  destruct (D3D12Rows.RootElement t =? UINT_MAX); [auto|].
  destruct (D3D12Rows.Resource t =? 0); cbn [negb].
  - destruct (D3D12PipelineStateViewer.showEmpty ui) eqn:He; [|auto].
    split; [|discriminate]. constructor; [|exact Hall]. split; [reflexivity|]. eauto.
  - destruct (D3D12PipelineStateViewer.showDisabled ui) eqn:Hd; [|auto].
    split; [|discriminate]. constructor; [|exact Hall]. split; [reflexivity|]. eauto.
Qed.

(** X20. The rows of the output targets are added without a shader stage
    and with register space 0, while [addResourceRow] takes a view for a
    render or depth target when its space is 2 or 3.  So no target row is
    ever marked as used: a bound target is shown only with "show disabled"
    checked and an unbound one only with "show empty", every row shown is
    drawn inactive, with neither box checked the list is empty whatever is
    bound, and the register column holds a number, "0" for the depth
    target. *)
Theorem targetOutputs_never_used ui RenderTargets DepthTarget :
  (∀ t reg v,
     D3D12Rows.addResourceRow ui (D3D12Rows.mkViewTag t 0 reg v) None
     = Some (if D3D12Rows.RootElement v =? UINT_MAX then None
             else if (if D3D12Rows.Resource v =? 0
                      then D3D12PipelineStateViewer.showEmpty ui
                      else D3D12PipelineStateViewer.showDisabled ui)
                  then Some (D3D12Rows.mkResourceRow (pretty reg)
                               (D3D12Rows.Resource v =? 0) true)
                  else None)) ∧
  ∃ rows,
    D3D12Rows.targetOutputs ui RenderTargets DepthTarget = Some rows ∧
    Forall (λ r, D3D12Rows.res_inactive r = true ∧
                 ∃ k, D3D12Rows.regname r = pretty (Z.of_nat k)) rows ∧
    (D3D12PipelineStateViewer.showDisabled ui = false →
     D3D12PipelineStateViewer.showEmpty ui = false → rows = []).
Proof.
  split.
  - intros t reg v. rewrite addResourceRow_no_stage, showNode_unused.
    destruct (D3D12Rows.Resource v =? 0); reflexivity.
  - unfold D3D12Rows.targetOutputs.
    destruct (targetRows_spec ui RenderTargets 0%nat) as (rows & -> & Hall & Hnone).
    cbn [mbind option_bind]. rewrite addResourceRow_no_stage, showNode_unused.
    cbn [mbind option_bind]. eexists. split; [reflexivity|].
    destruct (D3D12Rows.RootElement DepthTarget =? UINT_MAX); [auto|].
    destruct (D3D12Rows.Resource DepthTarget =? 0); cbn [negb].
    + destruct (D3D12PipelineStateViewer.showEmpty ui) eqn:He; [|auto].
      split; [|discriminate]. apply Forall_app. split; [exact Hall|].
      constructor; [|constructor]. split; [reflexivity|]. exists 0%nat. reflexivity.
    + destruct (D3D12PipelineStateViewer.showDisabled ui) eqn:Hd; [|auto].
      split; [|discriminate]. apply Forall_app. split; [exact Hall|].
      constructor; [|constructor]. split; [reflexivity|]. exists 0%nat. reflexivity.
Qed.

(** X21. A view that is bound, is not in a gap of the root signature and
    sits in register space 2 or 3 always gets a row, and the row is never
    drawn inactive or empty, whatever the shader's bind points say and
    whichever boxes are checked; in space 3 its register column reads
    "Depth". *)
Theorem addResourceRow_space_as_target ui view stage r :
  D3D12Rows.addResourceRow ui view stage = Some r →
  D3D12Rows.RootElement (D3D12Rows.vt_res view) ≠ UINT_MAX →
  D3D12Rows.Resource (D3D12Rows.vt_res view) ≠ 0 →
  (D3D12Rows.vt_space view = 2 ∨ D3D12Rows.vt_space view = 3)%Z →
  ∃ row, r = Some row ∧
    D3D12Rows.res_inactive row = false ∧ D3D12Rows.res_empty row = false ∧
    (D3D12Rows.vt_space view = 3%Z → D3D12Rows.regname row = "Depth").
Proof.
  intros Hr Hgap Hres Hspace. unfold D3D12Rows.addResourceRow in Hr.
  rewrite (proj2 (N.eqb_neq _ _) Hgap) in Hr.
  destruct (match stage with Some _ => _ | None => _ end) as [found|]; [|discriminate].
  cbn [mbind option_bind] in Hr.
  rewrite (proj2 (N.eqb_neq _ _) Hres) in Hr. cbn [negb] in Hr.
  assert (Hused : (match found with Some (_, b, _) => D3D12Rows.used b | None => false end
                   || (D3D12Rows.vt_space view =? D3D12Rows.ResType_value D3D12Rows.OMTarget)%Z
                   || (D3D12Rows.vt_space view =? D3D12Rows.ResType_value D3D12Rows.OMDepth)%Z)
                  = true).
  { cbn [D3D12Rows.ResType_value].
    destruct Hspace as [-> | ->]; cbn; rewrite ?orb_true_r; reflexivity. }
  rewrite Hused in Hr. cbn [D3D12PipelineStateViewer.showNode negb] in Hr.
  injection Hr as <-. eexists. split; [reflexivity|]. cbn.
  split; [reflexivity|]. split; [reflexivity|]. intros ->. reflexivity.
Qed.

Lemma addResourceRow_space_as_target_witness :
  ∃ row,
    D3D12Rows.addResourceRow (D3D12PipelineStateViewer.mkUi false false)
      (D3D12Rows.mkViewTag D3D12Rows.SRV 3 5 (D3D12Rows.mkView 0 7))
      (Some (D3D12Rows.mkShader [] [] None)) = Some (Some row) ∧
    D3D12Rows.res_inactive row = false ∧ D3D12Rows.regname row = "Depth".
Proof.
  destruct (addResourceRow_space_as_target (D3D12PipelineStateViewer.mkUi false false)
              (D3D12Rows.mkViewTag D3D12Rows.SRV 3 5 (D3D12Rows.mkView 0 7))
              (Some (D3D12Rows.mkShader [] [] None))
              (Some (D3D12Rows.mkResourceRow "Depth" false false)))
    as (row & Hrow & Hin & _ & Hname);
    [reflexivity|discriminate|discriminate|right; reflexivity|].
  exists row. split; [rewrite <- Hrow; reflexivity|]. split; [exact Hin|].
  apply Hname. reflexivity.
Defined.

(** ** Samplers, buffers and stream out *)

Lemma string_app_assoc (a b c : string) : (a +:+ b) +:+ c = a +:+ (b +:+ c).
Proof.
  induction a as [|x a IH]; [reflexivity|].
  change (String x ((a +:+ b) +:+ c) = String x (a +:+ (b +:+ c))). f_equal. exact IH.
Qed.

(** X22. The addressing column of a sampler row groups the three address
    modes by runs of equal neighbours: one group "UVW" when all three are
    equal, "UV" and "W" when only the first two are, "U" and "VW" when only
    the last two are, and three groups otherwise, also when the first and
    the last are equal. *)
Theorem addressing_text_cases u v w :
  D3D12Rows.addressing_text u v w
  = if decide (u = v) then
      if decide (v = w) then "UVW: " +:+ w
      else "UV: " +:+ v +:+ ", W: " +:+ w
    else
      if decide (v = w) then "U: " +:+ u +:+ ", VW: " +:+ w
      else "U: " +:+ u +:+ ", V: " +:+ v +:+ ", W: " +:+ w.
Proof.
  unfold D3D12Rows.addressing_text. cbn [foldl]. unfold D3D12Rows.addressing_step.
  cbn [lookup list_lookup default Nat.sub bool_decide decide_rel orb].
  change (bool_decide (0%nat = 0%nat)) with true. cbn [orb].
  change (bool_decide (1%nat = 0%nat)) with false.
  change (bool_decide (2%nat = 0%nat)) with false. cbn [orb].
  destruct (decide (u = v)) as [->|Huv], (decide (v = w)) as [->|Hvw].
  - rewrite !bool_decide_true by reflexivity. reflexivity.
  - rewrite (bool_decide_true (v = v)) by reflexivity.
    rewrite (bool_decide_false (w = v)) by congruence.
    cbn. rewrite ?string_app_assoc. cbn. rewrite ?string_app_assoc. reflexivity.
  - rewrite (bool_decide_false (w = u)) by congruence.
    rewrite (bool_decide_true (w = w)) by reflexivity.
    cbn. rewrite ?string_app_assoc. cbn. rewrite ?string_app_assoc. reflexivity.
  - rewrite (bool_decide_false (v = u)) by congruence.
    rewrite (bool_decide_false (w = v)) by congruence.
    cbn. rewrite ?string_app_assoc. cbn. rewrite ?string_app_assoc. reflexivity.
Qed.

(** X23. The index buffer row is added by branches of its own, not through
    [showNode], but follows the same rule: the row is there exactly when
    [showNode] holds for "the draw uses the index buffer" and "an index
    buffer is bound", it is drawn empty exactly when none is bound and
    inactive exactly when the draw does not use it (or there is no draw),
    and its tag holds the buffer and the draw's index offset. *)
Theorem ibufferRow_follows_showNode ToQStr GetBuffer ui draw buffer offset :
  (is_Some (D3D12Rows.ibufferRow ToQStr GetBuffer ui draw buffer offset) ↔
   D3D12PipelineStateViewer.showNode ui
     (match draw with Some d => D3D12Rows.UseIBuffer d | None => false end)
     (negb (buffer =? 0)) = true) ∧
  ∀ r, D3D12Rows.ibufferRow ToQStr GetBuffer ui draw buffer offset = Some r →
    D3D12PipelineStateViewer.emptyRow r = (buffer =? 0) ∧
    D3D12PipelineStateViewer.inactiveRow r
    = negb (match draw with Some d => D3D12Rows.UseIBuffer d | None => false end) ∧
    D3D12PipelineStateViewer.tag_id r = buffer ∧
    D3D12PipelineStateViewer.tag_offset r
    = match draw with Some d => D3D12Rows.indexOffset d | None => 0 end.
Proof.
  unfold D3D12Rows.ibufferRow, D3D12PipelineStateViewer.showNode.
  set (used := match draw with Some d => D3D12Rows.UseIBuffer d | None => false end).
  destruct (buffer =? 0) eqn:Hb; cbn [negb]; destruct used; cbn [orb negb andb].
  - split; [split; [reflexivity|eauto]|]. intros r [= <-]. auto.
  - rewrite andb_false_r. destruct (D3D12PipelineStateViewer.showEmpty ui).
    + split; [split; [reflexivity|eauto]|]. intros r [= <-]. auto.
    + split; [split; [intros [? ?]; discriminate|discriminate]|discriminate].
  - destruct (GetBuffer buffer);
      (split; [split; [reflexivity|eauto]|]); intros r [= <-]; cbn; auto.
  - rewrite andb_true_r. destruct (D3D12PipelineStateViewer.showDisabled ui).
    + destruct (GetBuffer buffer);
        (split; [split; [reflexivity|eauto]|]); intros r [= <-]; cbn; auto.
    + cbn. destruct (D3D12PipelineStateViewer.showEmpty ui); cbn;
        (split; [split; [intros [? ?]; discriminate|discriminate]|discriminate]).
Qed.

Lemma streamOutRow_shown ToQStr GetBuffer ui i s :
  D3D12Rows.streamOutRow ToQStr GetBuffer ui i s
  = if negb (D3D12Rows.so_Buffer s =? 0) || D3D12PipelineStateViewer.showEmpty ui
    then Some (D3D12PipelineStateViewer.mkRow
                 [pretty i;
                  match GetBuffer (D3D12Rows.so_Buffer s) with
                  | Some buf => D3D12PipelineStateViewer.buf_name buf
                  | None => if D3D12Rows.so_Buffer s =? 0 then "Empty"
                            else "Buffer " +:+ ToQStr (D3D12Rows.so_Buffer s)
                  end;
                  pretty (match GetBuffer (D3D12Rows.so_Buffer s) with
                          | Some buf => D3D12PipelineStateViewer.buf_length buf
                          | None => 0
                          end);
                  pretty (D3D12Rows.so_Offset s); ""]
                 (D3D12Rows.so_Buffer s) 0
                 (D3D12Rows.so_Buffer s =? 0) (D3D12Rows.so_Buffer s =? 0))
    else None.
Proof.
  unfold D3D12Rows.streamOutRow, D3D12PipelineStateViewer.showNode.
  destruct (D3D12Rows.so_Buffer s =? 0); cbn [negb orb andb].
  - rewrite andb_false_r. destruct (D3D12PipelineStateViewer.showEmpty ui); [|reflexivity].
    destruct (GetBuffer (D3D12Rows.so_Buffer s)); reflexivity.
  - destruct (GetBuffer (D3D12Rows.so_Buffer s)); reflexivity.
Qed.

(** X24. A stream-out row is there exactly when a buffer is bound to the
    output or "show empty" is checked; "show disabled" plays no part, and a
    row is drawn inactive exactly when it is drawn empty.  The length shown
    is the buffer's when the buffer is known and 0 otherwise.  Whatever is
    bound, [setState] then hides the stream-out list and its group: the
    flag it passes to [setVisible] is never set. *)
Theorem streamOut_rows ToQStr GetBuffer ui outputs :
  (D3D12Rows.streamOut ToQStr GetBuffer ui outputs).2 = false ∧
  (∀ i s, is_Some (D3D12Rows.streamOutRow ToQStr GetBuffer ui i s) ↔
          D3D12Rows.so_Buffer s ≠ 0 ∨ D3D12PipelineStateViewer.showEmpty ui = true) ∧
  (∀ i s r, D3D12Rows.streamOutRow ToQStr GetBuffer ui i s = Some r →
     D3D12PipelineStateViewer.emptyRow r = (D3D12Rows.so_Buffer s =? 0) ∧
     D3D12PipelineStateViewer.inactiveRow r = D3D12PipelineStateViewer.emptyRow r ∧
     D3D12PipelineStateViewer.cells r !! 2%nat
     = Some (pretty (match GetBuffer (D3D12Rows.so_Buffer s) with
                     | Some buf => D3D12PipelineStateViewer.buf_length buf
                     | None => 0
                     end))) ∧
  ∀ d, (D3D12Rows.streamOut ToQStr GetBuffer
          (D3D12PipelineStateViewer.mkUi d (D3D12PipelineStateViewer.showEmpty ui))
          outputs).1
       = (D3D12Rows.streamOut ToQStr GetBuffer ui outputs).1.
Proof.
  split; [reflexivity|]. split; [|split].
  - intros i s. rewrite streamOutRow_shown.
    destruct (N.eqb_spec (D3D12Rows.so_Buffer s) 0) as [H0|H0]; cbn [negb orb].
    + destruct (D3D12PipelineStateViewer.showEmpty ui).
      * split; [auto|eauto].
      * split; [intros [? ?]; discriminate|]. intros [H|H]; [contradiction|discriminate].
    + split; [auto|eauto].
  - intros i s r. rewrite streamOutRow_shown.
    destruct (_ || _); [|discriminate]. intros [= <-]. auto.
  - intros d. unfold D3D12Rows.streamOut. cbn [fst].
    generalize 0%nat. induction outputs as [|s rest IH]; intros i; [reflexivity|].
    cbn [D3D12Rows.streamOutRows]. rewrite !streamOutRow_shown.
    cbn [D3D12PipelineStateViewer.showEmpty]. rewrite IH. reflexivity.
Qed.

(** ** The colour of a highlighted vertex buffer slot *)

Lemma int_mul_small a b :
  (- 2 ^ 31 ≤ a * b < 2 ^ 31)%Z → D3D12Rows.int_mul a b = (a * b)%Z.
Proof.
  intros H. unfold D3D12Rows.int_mul. rewrite Z.mod_small by lia. lia.
Qed.

Lemma hue_index_small s :
  (0 ≤ s ≤ 102261125)%Z → D3D12Rows.hue_index s = (((s + 1) * 21) `mod` 32)%Z.
Proof.
  intros Hs. unfold D3D12Rows.hue_index.
  rewrite (int_add_small s 1) by lia.
  rewrite (int_mul_small (s + 1) 21) by lia.
  apply Z.rem_mod_nonneg; lia.
Qed.

(** X25. The colour index [highlightIABind] computes as
    [((slot + 1) * 21) % 32] on [int] lies between 0 and 31 for a slot from
    0 to 102261125, the last one whose product fits an [int]; among these
    slots two different ones below 32 never get the same index, and two
    that are 32 apart always do. *)
Theorem hue_index_distinct s t :
  (0 ≤ s ≤ 102261125)%Z → (0 ≤ t ≤ 102261125)%Z →
  (0 ≤ D3D12Rows.hue_index s < 32)%Z ∧
  ((s < 32)%Z → (t < 32)%Z → D3D12Rows.hue_index s = D3D12Rows.hue_index t → s = t) ∧
  (t = (s + 32)%Z → D3D12Rows.hue_index t = D3D12Rows.hue_index s).
Proof.
  intros Hs Ht. rewrite (hue_index_small s Hs), (hue_index_small t Ht).
  split; [|split].
  - apply Z.mod_pos_bound. lia.
  - intros Hs32 Ht32 H.
    pose proof (Z.div_mod ((s + 1) * 21) 32 ltac:(lia)) as H1.
    pose proof (Z.div_mod ((t + 1) * 21) 32 ltac:(lia)) as H2.
    rewrite H in H1. lia.
  - intros ->.
    replace ((s + 32 + 1) * 21)%Z with ((s + 1) * 21 + 21 * 32)%Z by lia.
    apply Z_mod_plus_full.
Qed.

Lemma hue_index_distinct_witness :
  D3D12Rows.hue_index 0 = 21%Z ∧ D3D12Rows.hue_index 1 = 10%Z ∧
  D3D12Rows.hue_index 102261126 = (-13)%Z ∧
  (0 ≤ D3D12Rows.hue_index 40 < 32)%Z.
Proof.
  split; [reflexivity|]. split; [reflexivity|]. split; [reflexivity|].
  apply (hue_index_distinct 40 8); lia.
Defined.

(** ** Blend rows *)





Lemma targetFlags_spec RenderTargets :
  ∀ targets i,
    (i + length RenderTargets ≤ length targets)%nat →
    ∃ targets',
      D3D12Rows.targetFlags targets i RenderTargets = Some targets' ∧
      length targets' = length targets ∧
      ∀ k, targets' !! k
           = if bool_decide (i ≤ k)%nat && D3D12Rows.target_bound RenderTargets (k - i)
             then Some true else targets !! k.
Proof.
  induction RenderTargets as [|t later IH]; intros targets i Hlen.
  { exists targets. split; [reflexivity|]. split; [reflexivity|]. intros k.
    unfold D3D12Rows.target_bound. rewrite lookup_nil, andb_false_r. reflexivity. }
  cbn [length] in Hlen. cbn [D3D12Rows.targetFlags].
  assert (Hcase : ∀ T : list bool,
            (∀ k, k ≠ i → T !! k = targets !! k) →
            T !! i = (if negb (D3D12Rows.Resource t =? 0) then Some true else targets !! i) →
            ∀ k,
              (if bool_decide (S i ≤ k)%nat && D3D12Rows.target_bound later (k - S i)
               then Some true else T !! k)
              = (if bool_decide (i ≤ k)%nat
                    && D3D12Rows.target_bound (t :: later) (k - i)
                 then Some true else targets !! k)).
  { intros T Hother Hi k. destruct (lt_eq_lt_dec k i) as [[Hlt| ->]|Hgt].
    - rewrite (bool_decide_false (S i ≤ k)%nat), (bool_decide_false (i ≤ k)%nat) by lia.
      cbn [andb]. apply Hother. lia.
    - rewrite (bool_decide_false (S i ≤ i)%nat), (bool_decide_true (i ≤ i)%nat) by lia.
      cbn [andb]. rewrite Nat.sub_diag. unfold D3D12Rows.target_bound.
      cbn [lookup list_lookup]. exact Hi.
    - rewrite (bool_decide_true (S i ≤ k)%nat), (bool_decide_true (i ≤ k)%nat) by lia.
      cbn [andb]. replace (k - i)%nat with (S (k - S i)) by lia.
      unfold D3D12Rows.target_bound. cbn [lookup list_lookup].
      rewrite Hother by lia. reflexivity. }
  destruct (D3D12Rows.Resource t =? 0) eqn:Hres; cbn [negb] in *.
  - destruct (IH targets (S i) ltac:(lia)) as (t' & Ht' & Hl & Hk).
    exists t'. split; [exact Ht'|]. split; [exact Hl|]. intros k. rewrite Hk.
    apply Hcase; reflexivity.
  - rewrite bool_decide_true by lia.
    destruct (IH (<[i := true]> targets) (S i)) as (t' & Ht' & Hl & Hk);
      [rewrite length_insert; lia|].
    exists t'. split; [exact Ht'|]. split; [rewrite Hl; apply length_insert|].
    intros k. rewrite Hk. apply Hcase.
    + intros k' Hne. apply list_lookup_insert_ne. congruence.
    + apply list_lookup_insert_eq. lia.
Qed.

Lemma blendRows_spec ui targets (tb : nat → bool) n blends :
  (∀ k, (k < n)%nat → targets !! k = Some (tb k)) →
  ∀ i, (i + length blends ≤ n)%nat →
    ∃ rows,
      D3D12Rows.blendRows ui targets i blends = Some rows ∧
      (∀ r, r ∈ rows →
         (i ≤ D3D12Rows.br_index r)%nat ∧
         ∃ blend, blends !! (D3D12Rows.br_index r - i)%nat = Some blend ∧
           D3D12Rows.br_inactive r = negb (tb (D3D12Rows.br_index r)) ∧
           D3D12Rows.br_empty r
           = negb (D3D12Rows.Enabled blend || tb (D3D12Rows.br_index r)) ∧
           D3D12Rows.br_mask r = D3D12Rows.writeMask_text (D3D12Rows.WriteMask blend) ∧
           D3D12PipelineStateViewer.showNode ui (tb (D3D12Rows.br_index r))
             (D3D12Rows.Enabled blend || tb (D3D12Rows.br_index r)) = true) ∧
      (∀ j blend, blends !! j = Some blend →
         D3D12PipelineStateViewer.showNode ui (tb (i + j)%nat)
           (D3D12Rows.Enabled blend || tb (i + j)%nat) = true →
         ∃ r, r ∈ rows ∧ D3D12Rows.br_index r = (i + j)%nat).
Proof.
  intros Htb. induction blends as [|blend later IH]; intros i Hlen.
  { exists []. split; [reflexivity|]. split.
    - intros r Hr. inversion Hr.
    - intros j blend Hj. rewrite lookup_nil in Hj. discriminate. }
  cbn [length] in Hlen. cbn [D3D12Rows.blendRows].
  rewrite (Htb i) by lia. cbn [mbind option_bind].
  destruct (IH (S i) ltac:(lia)) as (rest & -> & Hin & Hout). cbn [mbind option_bind].
  eexists. split; [reflexivity|].
  assert (Hin' : ∀ r, r ∈ rest →
            (i ≤ D3D12Rows.br_index r)%nat ∧
            ∃ blend0, (blend :: later) !! (D3D12Rows.br_index r - i)%nat = Some blend0 ∧
              D3D12Rows.br_inactive r = negb (tb (D3D12Rows.br_index r)) ∧
              D3D12Rows.br_empty r
              = negb (D3D12Rows.Enabled blend0 || tb (D3D12Rows.br_index r)) ∧
              D3D12Rows.br_mask r
              = D3D12Rows.writeMask_text (D3D12Rows.WriteMask blend0) ∧
              D3D12PipelineStateViewer.showNode ui (tb (D3D12Rows.br_index r))
                (D3D12Rows.Enabled blend0 || tb (D3D12Rows.br_index r)) = true).
  { intros r Hr. destruct (Hin r Hr) as (Hle & blend0 & Hb & Hrest).
    split; [lia|]. exists blend0. split; [|exact Hrest].
    replace (D3D12Rows.br_index r - i)%nat with (S (D3D12Rows.br_index r - S i)) by lia.
    exact Hb. }
  assert (Hout' : ∀ j blend0, later !! j = Some blend0 →
            D3D12PipelineStateViewer.showNode ui (tb (i + S j)%nat)
              (D3D12Rows.Enabled blend0 || tb (i + S j)%nat) = true →
            ∃ r, r ∈ rest ∧ D3D12Rows.br_index r = (i + S j)%nat).
  { intros j blend0 Hj Hshow. replace (i + S j)%nat with (S i + j)%nat in * by lia.
    exact (Hout j blend0 Hj Hshow). }
  destruct (D3D12PipelineStateViewer.showNode ui (tb i) (D3D12Rows.Enabled blend || tb i))
    eqn:Hshow.
  - split.
    + intros r Hr. apply elem_of_cons in Hr as [->|Hr]; [|exact (Hin' r Hr)].
      cbn. split; [lia|]. exists blend. rewrite Nat.sub_diag. auto.
    + intros [|j] blend0 Hj Hs.
      * eexists. split; [left|]. cbn. lia.
      * destruct (Hout' j blend0 Hj Hs) as (r & Hr & Hidx). exists r. split; [right|]; auto.
  - split; [exact Hin'|].
    intros [|j] blend0 Hj Hs.
    + cbn in Hj. injection Hj as <-. rewrite Nat.add_0_r in Hs. congruence.
    + exact (Hout' j blend0 Hj Hs).
Qed.

(** X27. With at most 32 render targets and 32 blends, the blend rows
    follow the render targets index by index: the row of blend [i] is there
    exactly when [showNode] holds for "render target [i] is bound" and
    "the blend is enabled or render target [i] is bound"; it is drawn
    inactive exactly when render target [i] is not bound and empty exactly
    when, besides, the blend is not enabled; its first column is [i] also
    when rows before it are hidden. *)
Theorem blendRows_follow_targets ui RenderTargets blends :
  (length RenderTargets ≤ 32)%nat → (length blends ≤ 32)%nat →
  ∃ targets rows,
    D3D12Rows.targetFlags (replicate 32 false) 0 RenderTargets = Some targets ∧
    D3D12Rows.blendRows ui targets 0 blends = Some rows ∧
    (∀ r, r ∈ rows →
       ∃ blend, blends !! D3D12Rows.br_index r = Some blend ∧
         D3D12Rows.br_inactive r
         = negb (D3D12Rows.target_bound RenderTargets (D3D12Rows.br_index r)) ∧
         D3D12Rows.br_empty r
         = negb (D3D12Rows.Enabled blend
                 || D3D12Rows.target_bound RenderTargets (D3D12Rows.br_index r)) ∧
         D3D12Rows.br_mask r = D3D12Rows.writeMask_text (D3D12Rows.WriteMask blend)) ∧
    (∀ j blend, blends !! j = Some blend →
       ((∃ r, r ∈ rows ∧ D3D12Rows.br_index r = j) ↔
        D3D12PipelineStateViewer.showNode ui (D3D12Rows.target_bound RenderTargets j)
          (D3D12Rows.Enabled blend || D3D12Rows.target_bound RenderTargets j) = true)).
Proof.
  intros Hrt Hbl.
  destruct (targetFlags_spec RenderTargets (replicate 32 false) 0%nat)
    as (targets & Ht & Hlen & Hk); [rewrite length_replicate; lia|].
  assert (Htb : ∀ k, (k < 32)%nat →
            targets !! k = Some (D3D12Rows.target_bound RenderTargets k)).
  { intros k Hlt. rewrite Hk, bool_decide_true, Nat.sub_0_r by lia. cbn [andb].
    destruct (D3D12Rows.target_bound RenderTargets k); [reflexivity|].
    apply lookup_replicate_2. exact Hlt. }
  destruct (blendRows_spec ui targets (D3D12Rows.target_bound RenderTargets) 32 blends
              Htb 0%nat ltac:(lia)) as (rows & Hrows & Hin & Hout).
  exists targets, rows. split; [exact Ht|]. split; [exact Hrows|]. split.
  - intros r Hr. destruct (Hin r Hr) as (_ & blend & Hb & Hi & He & Hm & _).
    exists blend. rewrite Nat.sub_0_r in Hb. auto.
  - intros j blend Hj. split.
    + intros (r & Hr & <-). destruct (Hin r Hr) as (_ & blend0 & Hb & _ & _ & _ & Hs).
      rewrite Nat.sub_0_r in Hb. congruence.
    + intros Hs. exact (Hout j blend Hj Hs).
Qed.

Lemma blendRows_follow_targets_witness :
  ∃ targets rows,
    D3D12Rows.targetFlags (replicate 32 false) 0
      [D3D12Rows.mkView 0 7; D3D12Rows.mkView 0 0] = Some targets ∧
    D3D12Rows.blendRows (D3D12PipelineStateViewer.mkUi false false) targets 0
      [D3D12Rows.mkBlend false 15; D3D12Rows.mkBlend true 3] = Some rows ∧
    List.map D3D12Rows.br_index rows = [0%nat].
Proof.
  destruct (blendRows_follow_targets (D3D12PipelineStateViewer.mkUi false false)
              [D3D12Rows.mkView 0 7; D3D12Rows.mkView 0 0]
              [D3D12Rows.mkBlend false 15; D3D12Rows.mkBlend true 3])
    as (targets & rows & Ht & Hrows & _); [cbn; lia|cbn; lia|].
  exists targets, rows. split; [exact Ht|]. split; [exact Hrows|].
  vm_compute in Ht. injection Ht as <-. vm_compute in Hrows. injection Hrows as <-.
  reflexivity.
Defined.

(** ** Input assembly: vertex buffer rows and input layouts *)

Lemma vbufferRow_cell ToQStr GetBuffer ui used k v r :
  D3D12PipelineStateViewer.vbufferRow ToQStr GetBuffer ui used k v = Some (Some r) →
  D3D12PipelineStateViewer.cells r !! 0%nat = Some (pretty k).
Proof.
  unfold D3D12PipelineStateViewer.vbufferRow.
  destruct (used !! k) as [u|]; [|discriminate]. cbn [mbind option_bind].
  destruct (D3D12PipelineStateViewer.showNode ui _ _); [|discriminate].
  destruct (negb (D3D12PipelineStateViewer.Buffer v =? 0));
    destruct (GetBuffer (D3D12PipelineStateViewer.Buffer v));
    cbn; intros [= <-]; reflexivity.
Qed.

Lemma vbufferRow_in_range ToQStr GetBuffer ui used k v :
  (k < length used)%nat →
  is_Some (D3D12PipelineStateViewer.vbufferRow ToQStr GetBuffer ui used k v).
Proof.
  intros Hk. apply lookup_lt_is_Some in Hk as [u Hu].
  unfold D3D12PipelineStateViewer.vbufferRow. rewrite Hu. cbn. eauto.
Qed.

Lemma vbufferRows_in_range ToQStr GetBuffer ui used vbs :
  ∀ i0, (i0 + length vbs ≤ length used)%nat →
  is_Some (D3D12PipelineStateViewer.vbufferRows ToQStr GetBuffer ui used i0 vbs).
Proof.
  induction vbs as [|v rest IH]; intros i0 Hlen; [cbn; eauto|].
  cbn [length] in Hlen. cbn [D3D12PipelineStateViewer.vbufferRows].
  destruct (vbufferRow_in_range ToQStr GetBuffer ui used i0 v ltac:(lia)) as [r0 Hr0].
  destruct (IH (S i0) ltac:(lia)) as [later Hlater].
  rewrite Hr0, Hlater. cbn. eauto.
Qed.

Lemma vbufferRows_position_from ToQStr GetBuffer ui used vbs :
  ∀ i0 rows j r,
    D3D12PipelineStateViewer.vbufferRows ToQStr GetBuffer ui used i0 vbs = Some rows →
    rows !! j = Some r →
    ∃ k v, (j ≤ k)%nat ∧ vbs !! k = Some v ∧
      D3D12PipelineStateViewer.vbufferRow ToQStr GetBuffer ui used (i0 + k) v
      = Some (Some r) ∧
      (k = j ↔
       ∀ i v', (i < k)%nat → vbs !! i = Some v' →
         ∃ r', D3D12PipelineStateViewer.vbufferRow ToQStr GetBuffer ui used (i0 + i) v'
               = Some (Some r')).
Proof.
  induction vbs as [|v rest IH]; intros i0 rows j r Hrows Hj.
  { cbn in Hrows. injection Hrows as <-. rewrite lookup_nil in Hj. discriminate. }
  cbn [D3D12PipelineStateViewer.vbufferRows] in Hrows.
  destruct (D3D12PipelineStateViewer.vbufferRow ToQStr GetBuffer ui used i0 v)
    as [r0|] eqn:Hrow; [|discriminate].
  cbn [mbind option_bind] in Hrows.
  destruct (D3D12PipelineStateViewer.vbufferRows ToQStr GetBuffer ui used (S i0) rest)
    as [later|] eqn:Hlater; [|discriminate].
  cbn [mbind option_bind] in Hrows. injection Hrows as <-.
  destruct r0 as [r0|].
  - destruct j as [|j].
    + cbn in Hj. injection Hj as <-. exists 0%nat, v. split; [lia|].
      split; [reflexivity|]. rewrite Nat.add_0_r. split; [exact Hrow|].
      split; [intros _ i v' Hlt; lia|reflexivity].
    + cbn [lookup list_lookup] in Hj.
      destruct (IH (S i0) later j r Hlater Hj) as (k & v0 & Hle & Hk & Hr & Hiff).
      exists (S k), v0. split; [lia|]. split; [exact Hk|].
      replace (i0 + S k)%nat with (S i0 + k)%nat by lia. split; [exact Hr|].
      split.
      * intros [= ->]. intros [|i] v' Hlt Hv'.
        -- cbn in Hv'. injection Hv' as <-. rewrite Nat.add_0_r, Hrow. eauto.
        -- replace (i0 + S i)%nat with (S i0 + i)%nat by lia.
           apply (proj1 Hiff eq_refl i v'); [lia|exact Hv'].
      * intros Hall. f_equal. apply (proj2 Hiff). intros i v' Hlt Hv'.
        replace (S i0 + i)%nat with (i0 + S i)%nat by lia.
        apply (Hall (S i) v'); [lia|exact Hv'].
  - destruct (IH (S i0) later j r Hlater Hj) as (k & v0 & Hle & Hk & Hr & Hiff).
    exists (S k), v0. split; [lia|]. split; [exact Hk|].
    replace (i0 + S k)%nat with (S i0 + k)%nat by lia. split; [exact Hr|].
    split; [lia|]. intros Hall. exfalso.
    destruct (Hall 0%nat v ltac:(lia) eq_refl) as [x Hx].
    rewrite Nat.add_0_r in Hx. congruence.
Qed.

(** X28. With no more vertex buffers than [usedVBuffers] has entries (128
    in [setState]), so that the loop reads inside the array, [m_VBNodes]
    holds only the vertex buffer rows that are shown: its entry [j], the
    node [highlightIABind(j)] colours, is the row of a slot [k] that is [j]
    or larger, and shows [k] in its first column; it is the row of slot [j]
    itself exactly when none of the slots before [k] is hidden. *)
Theorem vbufferRows_position ToQStr GetBuffer ui used vbs :
  (length vbs ≤ length used)%nat →
  ∃ rows,
    D3D12PipelineStateViewer.vbufferRows ToQStr GetBuffer ui used 0 vbs = Some rows ∧
    ∀ j r, rows !! j = Some r →
      ∃ k v, (j ≤ k)%nat ∧ vbs !! k = Some v ∧
        D3D12PipelineStateViewer.vbufferRow ToQStr GetBuffer ui used k v = Some (Some r) ∧
        D3D12PipelineStateViewer.cells r !! 0%nat = Some (pretty k) ∧
        (k = j ↔
         ∀ i v', (i < k)%nat → vbs !! i = Some v' →
           ∃ r', D3D12PipelineStateViewer.vbufferRow ToQStr GetBuffer ui used i v'
                 = Some (Some r')).
Proof.
  intros Hlen.
  destruct (vbufferRows_in_range ToQStr GetBuffer ui used vbs 0%nat Hlen) as [rows Hrows].
  exists rows. split; [exact Hrows|]. intros j r Hj.
  destruct (vbufferRows_position_from ToQStr GetBuffer ui used vbs 0%nat rows j r Hrows Hj)
    as (k & v & Hle & Hk & Hr & Hiff).
  exists k, v. split; [exact Hle|]. split; [exact Hk|]. split; [exact Hr|].
  split; [eapply vbufferRow_cell, Hr|exact Hiff].
Qed.

Lemma vbufferRows_position_witness :
  ∃ rows,
    D3D12PipelineStateViewer.vbufferRows (λ _, "id") (λ _, None)
      (D3D12PipelineStateViewer.mkUi false false) [false; true] 0
      [D3D12PipelineStateViewer.mkVB 5 16 0; D3D12PipelineStateViewer.mkVB 6 16 0]
    = Some rows ∧
    rows = [D3D12PipelineStateViewer.mkRow ["1"; "Buffer id"; "16"; "0"; "1"; ""]
              6 0 false false] ∧
    ∃ k, (0 < k)%nat ∧
      D3D12PipelineStateViewer.cells <$> rows !! 0%nat
      = Some ["1"; "Buffer id"; "16"; "0"; "1"; ""] ∧ pretty k = "1".
Proof.
  destruct (vbufferRows_position (λ _, "id") (λ _, None)
              (D3D12PipelineStateViewer.mkUi false false) [false; true]
              [D3D12PipelineStateViewer.mkVB 5 16 0; D3D12PipelineStateViewer.mkVB 6 16 0])
    as (rows & Hrows & Hpos); [cbn; lia|].
  exists rows. split; [exact Hrows|].
  assert (Heq : rows = [D3D12PipelineStateViewer.mkRow
                          ["1"; "Buffer id"; "16"; "0"; "1"; ""] 6 0 false false]).
  { vm_compute in Hrows. congruence. }
  split; [exact Heq|]. exists 1%nat. subst rows. split; [lia|].
  split; reflexivity.
Defined.

Lemma showNode_filled ui used :
  D3D12PipelineStateViewer.showNode ui used true
  = used || D3D12PipelineStateViewer.showDisabled ui.
Proof.
  unfold D3D12PipelineStateViewer.showNode.
  destruct used, (D3D12PipelineStateViewer.showDisabled ui),
    (D3D12PipelineStateViewer.showEmpty ui); reflexivity.
Qed.

Section LayoutLoop.

Variable toUpper : string → string.
Variable ui : D3D12PipelineStateViewer.Ui.
Variable InputSig : option (list D3D12Rows.SigParameter).

Lemma layoutStep_unfold st l :
  D3D12Rows.layoutStep toUpper ui InputSig st l
  = match D3D12Rows.layoutOffs st !! N.to_nat (D3D12Rows.InputSlot l) with
    | None => None
    | Some offs =>
        let used := D3D12Rows.layoutUsed toUpper InputSig l in
        let start := if D3D12Rows.ByteOffset l =? UINT_MAX then offs
                     else D3D12Rows.ByteOffset l in
        let byteOffs := if D3D12Rows.ByteOffset l =? UINT_MAX
                        then "APPEND_ALIGNED (" +:+ pretty offs +:+ ")"
                        else pretty (D3D12Rows.ByteOffset l) in
        Some (D3D12Rows.mkLayoutState
                (if used then <[N.to_nat (D3D12Rows.InputSlot l) := true]>
                                (D3D12Rows.usedVBuffers st)
                 else D3D12Rows.usedVBuffers st)
                (<[N.to_nat (D3D12Rows.InputSlot l) :=
                     (start + D3D12Rows.compByteWidth l * D3D12Rows.compCount l)
                     `mod` 2 ^ 32]> (D3D12Rows.layoutOffs st))
                (D3D12Rows.iaLayouts st ++
                 (if used || D3D12PipelineStateViewer.showDisabled ui
                  then [D3D12Rows.mkLayoutRow (D3D12Rows.counter st)
                          (D3D12Rows.InputSlot l) byteOffs (negb used)]
                  else []))
                (S (D3D12Rows.counter st)))
    end.
Proof.
  unfold D3D12Rows.layoutStep.
  destruct (D3D12Rows.layoutOffs st !! N.to_nat (D3D12Rows.InputSlot l)) as [offs|];
    [|reflexivity].
  cbn [mbind option_bind]. rewrite showNode_filled.
  destruct (D3D12Rows.ByteOffset l =? UINT_MAX);
    destruct (D3D12Rows.layoutUsed toUpper InputSig l);
    destruct (D3D12PipelineStateViewer.showDisabled ui);
    cbn; rewrite ?app_nil_r; reflexivity.
Qed.

Lemma layoutStep_spec st l :
  length (D3D12Rows.usedVBuffers st) = 128%nat →
  length (D3D12Rows.layoutOffs st) = 128%nat →
  match D3D12Rows.layoutStep toUpper ui InputSig st l with
  | None => ¬ D3D12Rows.InputSlot l < 128
  | Some st' =>
      D3D12Rows.InputSlot l < 128 ∧
      length (D3D12Rows.usedVBuffers st') = 128%nat ∧
      length (D3D12Rows.layoutOffs st') = 128%nat ∧
      D3D12Rows.counter st' = S (D3D12Rows.counter st) ∧
      (∀ s, D3D12Rows.usedVBuffers st' !! s = Some true ↔
            D3D12Rows.usedVBuffers st !! s = Some true ∨
            (s = N.to_nat (D3D12Rows.InputSlot l) ∧
             D3D12Rows.layoutUsed toUpper InputSig l = true)) ∧
      ∃ byteOffs,
        D3D12Rows.iaLayouts st'
        = D3D12Rows.iaLayouts st ++
          (if D3D12Rows.layoutUsed toUpper InputSig l
              || D3D12PipelineStateViewer.showDisabled ui
           then [D3D12Rows.mkLayoutRow (D3D12Rows.counter st) (D3D12Rows.InputSlot l)
                   byteOffs (negb (D3D12Rows.layoutUsed toUpper InputSig l))]
           else [])
  end.
Proof.
  intros Hu Ho. rewrite layoutStep_unfold.
  destruct (D3D12Rows.layoutOffs st !! N.to_nat (D3D12Rows.InputSlot l)) as [offs|] eqn:Hl.
  2:{ apply lookup_ge_None in Hl. lia. }
  apply lookup_lt_Some in Hl. cbv zeta.
  cbn [D3D12Rows.usedVBuffers D3D12Rows.layoutOffs D3D12Rows.iaLayouts D3D12Rows.counter].
  split; [lia|]. split; [destruct (D3D12Rows.layoutUsed toUpper InputSig l);
                         rewrite ?length_insert; exact Hu|].
  split; [rewrite length_insert; exact Ho|]. split; [reflexivity|].
  split; [|eexists; reflexivity]. intros s.
  destruct (D3D12Rows.layoutUsed toUpper InputSig l).
  - destruct (decide (s = N.to_nat (D3D12Rows.InputSlot l))) as [->|Hne].
    + rewrite list_lookup_insert_eq by lia. split; [auto|reflexivity].
    + rewrite list_lookup_insert_ne by congruence.
      split; [auto|intros [H|[H _]]; [exact H|contradiction]].
  - split; [auto|intros [H|[_ H]]; [exact H|discriminate]].
Qed.

Lemma layoutLoop_length layouts :
  ∀ st st',
    length (D3D12Rows.usedVBuffers st) = 128%nat →
    length (D3D12Rows.layoutOffs st) = 128%nat →
    D3D12Rows.layoutLoop toUpper ui InputSig st layouts = Some st' →
    length (D3D12Rows.usedVBuffers st') = 128%nat.
Proof.
  induction layouts as [|l rest IH]; intros st st' Hu Ho Hloop.
  { cbn in Hloop. congruence. }
  cbn [D3D12Rows.layoutLoop] in Hloop.
  pose proof (layoutStep_spec st l Hu Ho) as Hstep.
  destruct (D3D12Rows.layoutStep toUpper ui InputSig st l) as [st1|]; [|discriminate].
  destruct Hstep as (_ & Hu1 & Ho1 & _).
  exact (IH st1 st' Hu1 Ho1 Hloop).
Qed.

Lemma layoutLoop_spec layouts :
  ∀ st,
    length (D3D12Rows.usedVBuffers st) = 128%nat →
    length (D3D12Rows.layoutOffs st) = 128%nat →
    match D3D12Rows.layoutLoop toUpper ui InputSig st layouts with
    | None => ¬ Forall (λ l, D3D12Rows.InputSlot l < 128) layouts
    | Some st' =>
        Forall (λ l, D3D12Rows.InputSlot l < 128) layouts ∧
        (∀ s, D3D12Rows.usedVBuffers st' !! s = Some true ↔
              D3D12Rows.usedVBuffers st !! s = Some true ∨
              ∃ l, l ∈ layouts ∧ s = N.to_nat (D3D12Rows.InputSlot l) ∧
                   D3D12Rows.layoutUsed toUpper InputSig l = true) ∧
        (∀ r, r ∈ D3D12Rows.iaLayouts st' →
              r ∈ D3D12Rows.iaLayouts st ∨
              ∃ j l, layouts !! j = Some l ∧
                D3D12Rows.layoutUsed toUpper InputSig l
                || D3D12PipelineStateViewer.showDisabled ui = true ∧
                D3D12Rows.lr_index r = (D3D12Rows.counter st + j)%nat ∧
                D3D12Rows.lr_slot r = D3D12Rows.InputSlot l ∧
                D3D12Rows.lr_inactive r
                = negb (D3D12Rows.layoutUsed toUpper InputSig l)) ∧
        (∀ r, r ∈ D3D12Rows.iaLayouts st → r ∈ D3D12Rows.iaLayouts st') ∧
        (∀ j l, layouts !! j = Some l →
           D3D12Rows.layoutUsed toUpper InputSig l
           || D3D12PipelineStateViewer.showDisabled ui = true →
           ∃ r, r ∈ D3D12Rows.iaLayouts st' ∧
                D3D12Rows.lr_index r = (D3D12Rows.counter st + j)%nat)
    end.
Proof.
  induction layouts as [|l rest IH]; intros st Hu Ho.
  { cbn. split; [constructor|]. split; [|split; [|split]].
    - intros s. split; [auto|]. intros [H|(l & Hl & _)]; [exact H|inversion Hl].
    - auto.
    - auto.
    - intros j l Hj. rewrite lookup_nil in Hj. discriminate. }
  cbn [D3D12Rows.layoutLoop]. pose proof (layoutStep_spec st l Hu Ho) as Hstep.
  destruct (D3D12Rows.layoutStep toUpper ui InputSig st l) as [st1|].
  2:{ cbn. intros Hall. apply Forall_cons_1 in Hall as [H _]. contradiction. }
  cbn [mbind option_bind].
  destruct Hstep as (Hslot & Hu1 & Ho1 & Hc1 & Hused1 & byteOffs & Hrows1).
  specialize (IH st1 Hu1 Ho1).
  destruct (D3D12Rows.layoutLoop toUpper ui InputSig st1 rest) as [st'|].
  2:{ intros Hall. apply Forall_cons_1 in Hall as [_ H]. contradiction. }
  destruct IH as (Hall & Hused & Hin & Hold & Hout).
  split; [constructor; assumption|]. split; [|split; [|split]].
  - intros s. rewrite Hused, Hused1. split.
    + intros [[H|[-> H]]|(l0 & Hl0 & Hs & H)].
      * left. exact H.
      * right. exists l. split; [left|]. auto.
      * right. exists l0. split; [right; exact Hl0|]. auto.
    + intros [H|(l0 & Hl0 & Hs & H)]; [left; left; exact H|].
      apply elem_of_cons in Hl0 as [->|Hl0].
      * left. right. auto.
      * right. exists l0. auto.
  - intros r Hr. destruct (Hin r Hr) as [H|(j & l0 & Hj & Hs & Hi & Hsl & Hia)].
    + rewrite Hrows1 in H. apply elem_of_app in H as [H|H]; [left; exact H|].
      right. exists 0%nat, l. split; [reflexivity|].
      destruct (D3D12Rows.layoutUsed toUpper InputSig l
                || D3D12PipelineStateViewer.showDisabled ui); [|inversion H].
      split; [reflexivity|]. apply list_elem_of_singleton in H. subst r. cbn.
      split; [lia|]. auto.
    + right. exists (S j), l0. split; [exact Hj|]. split; [exact Hs|].
      split; [lia|]. auto.
  - intros r Hr. apply Hold. rewrite Hrows1. apply elem_of_app. left. exact Hr.
  - intros [|j] l0 Hj Hs.
    + cbn in Hj. injection Hj as <-. eexists. split.
      * apply Hold. rewrite Hrows1, Hs. apply elem_of_app. right. left.
      * cbn. lia.
    + destruct (Hout j l0 Hj Hs) as (r & Hr & Hi). exists r. split; [exact Hr|]. lia.
Qed.

End LayoutLoop.

(** X29. The loop over the input layouts succeeds exactly when every
    layout reads from an input slot below 128, the size of its two arrays.
    It then marks a vertex buffer slot as used exactly when some layout
    reads from the slot and the vertex shader has an input with the same
    semantic name (compared after [toUpper]) and index; no layout is used
    without vertex shader details.  A layout gets a row exactly when it is
    used or "show disabled" is checked; the row is inactive exactly when
    the layout is not used, and its first column is the layout's position
    in the list also when rows before it are hidden. *)
Theorem layoutLoop_marks_slots toUpper ui InputSig layouts :
  (is_Some (D3D12Rows.layoutLoop toUpper ui InputSig D3D12Rows.LayoutState_init layouts) ↔
   Forall (λ l, D3D12Rows.InputSlot l < 128) layouts) ∧
  (∀ l, D3D12Rows.layoutUsed toUpper None l = false) ∧
  ∀ st,
    D3D12Rows.layoutLoop toUpper ui InputSig D3D12Rows.LayoutState_init layouts = Some st →
    (∀ s, D3D12Rows.usedVBuffers st !! s = Some true ↔
          ∃ l, l ∈ layouts ∧ s = N.to_nat (D3D12Rows.InputSlot l) ∧
               D3D12Rows.layoutUsed toUpper InputSig l = true) ∧
    (∀ r, r ∈ D3D12Rows.iaLayouts st →
          ∃ l, layouts !! D3D12Rows.lr_index r = Some l ∧
               D3D12Rows.lr_slot r = D3D12Rows.InputSlot l ∧
               D3D12Rows.lr_inactive r = negb (D3D12Rows.layoutUsed toUpper InputSig l)) ∧
    (∀ j l, layouts !! j = Some l →
       ((∃ r, r ∈ D3D12Rows.iaLayouts st ∧ D3D12Rows.lr_index r = j) ↔
        D3D12Rows.layoutUsed toUpper InputSig l = true ∨
        D3D12PipelineStateViewer.showDisabled ui = true)).
Proof.
  pose proof (layoutLoop_spec toUpper ui InputSig layouts D3D12Rows.LayoutState_init
                (length_replicate _ _) (length_replicate _ _)) as H.
  split; [|split; [reflexivity|]].
  - destruct (D3D12Rows.layoutLoop toUpper ui InputSig D3D12Rows.LayoutState_init layouts).
    + split; [intros _; apply H|eauto].
    + split; [intros [? ?]; discriminate|intros Hall; contradiction].
  - intros st Hst. rewrite Hst in H. destruct H as (_ & Hused & Hin & _ & Hout).
    split; [|split].
    + intros s. rewrite Hused. split.
      * intros [Hini|Hl]; [|exact Hl]. exfalso.
        change (D3D12Rows.usedVBuffers D3D12Rows.LayoutState_init)
          with (replicate 128 false) in Hini.
        apply lookup_replicate in Hini as [Hini _]. discriminate.
      * auto.
    + intros r Hr. destruct (Hin r Hr) as [H|(j & l & Hj & _ & Hi & Hs & Hia)];
        [inversion H|].
      exists l. cbn in Hi. rewrite Hi. auto.
    + intros j l Hj. split.
      * intros (r & Hr & <-).
        destruct (Hin r Hr) as [H|(j & l0 & Hj0 & Hs & Hi & _)]; [inversion H|].
        cbn in Hi. rewrite Hi in Hj. rewrite Hj in Hj0. injection Hj0 as <-.
        apply orb_true_iff, Hs.
      * intros Hs. apply orb_true_iff in Hs.
        destruct (Hout j l Hj Hs) as (r & Hr & Hi). exists r. split; [exact Hr|].
        cbn in Hi. exact Hi.
Qed.

(** X30. The vertex buffer loop reads the slots the layout loop marked:
    when the layout loop has stayed within its arrays, the body of the
    vertex buffer loop reads a mark for every slot [i] below 128, the size
    of [usedVBuffers], and the row it adds for such a slot, if any, is
    drawn active exactly when some input layout reads from slot [i] and is
    consumed by the vertex shader. *)
Theorem vbufferRow_active_iff_layout toUpper ToQStr GetBuffer ui InputSig layouts st i v :
  D3D12Rows.layoutLoop toUpper ui InputSig D3D12Rows.LayoutState_init layouts = Some st →
  (i < 128)%nat →
  ∃ r,
    D3D12PipelineStateViewer.vbufferRow ToQStr GetBuffer ui (D3D12Rows.usedVBuffers st) i v
    = Some r ∧
    ∀ row, r = Some row →
      (D3D12PipelineStateViewer.inactiveRow row = false ↔
       ∃ l, l ∈ layouts ∧ N.to_nat (D3D12Rows.InputSlot l) = i ∧
            D3D12Rows.layoutUsed toUpper InputSig l = true).
Proof.
  intros Hst Hi.
  pose proof (layoutLoop_length toUpper ui InputSig layouts D3D12Rows.LayoutState_init st
                (length_replicate _ _) (length_replicate _ _) Hst) as Hlen.
  pose proof (layoutLoop_spec toUpper ui InputSig layouts D3D12Rows.LayoutState_init
                (length_replicate _ _) (length_replicate _ _)) as H.
  rewrite Hst in H. destruct H as (_ & Hused & _).
  destruct (lookup_lt_is_Some_2 (D3D12Rows.usedVBuffers st) i ltac:(lia)) as [u Hu].
  assert (Hmark : u = true ↔
                  ∃ l, l ∈ layouts ∧ N.to_nat (D3D12Rows.InputSlot l) = i ∧
                       D3D12Rows.layoutUsed toUpper InputSig l = true).
  { transitivity (D3D12Rows.usedVBuffers st !! i = Some true).
    - rewrite Hu. split; congruence.
    - rewrite Hused. split.
      + intros [Hini|(l & Hl & -> & Hl')]; [|eauto]. exfalso.
        change (D3D12Rows.usedVBuffers D3D12Rows.LayoutState_init)
          with (replicate 128 false) in Hini.
        apply lookup_replicate in Hini as [Hini _]. discriminate.
      + intros (l & Hl & <- & Hl'). right. eauto. }
  unfold D3D12PipelineStateViewer.vbufferRow. rewrite Hu. cbn [mbind option_bind].
  eexists. split; [reflexivity|]. intros row Hrow.
  rewrite <- Hmark. clear Hmark Hused.
  destruct (D3D12PipelineStateViewer.showNode ui _ _); [|discriminate].
  destruct (negb (D3D12PipelineStateViewer.Buffer v =? 0));
    destruct (GetBuffer (D3D12PipelineStateViewer.Buffer v));
    cbn in Hrow; injection Hrow as <-; cbn;
    destruct u; cbn; split; congruence.
Qed.

Lemma vbufferRow_active_iff_layout_witness :
  ∃ st row,
    D3D12Rows.layoutLoop (λ s, s) (D3D12PipelineStateViewer.mkUi false false)
      (Some [D3D12Rows.mkSig "POSITION" 0]) D3D12Rows.LayoutState_init
      [D3D12Rows.mkLayout "POSITION" 0 1 0 4 3 false] = Some st ∧
    D3D12PipelineStateViewer.vbufferRow (λ _, "id") (λ _, None)
      (D3D12PipelineStateViewer.mkUi false false) (D3D12Rows.usedVBuffers st) 1
      (D3D12PipelineStateViewer.mkVB 6 16 0) = Some (Some row) ∧
    D3D12PipelineStateViewer.inactiveRow row = false.
Proof.
  destruct (D3D12Rows.layoutLoop (λ s, s) (D3D12PipelineStateViewer.mkUi false false)
              (Some [D3D12Rows.mkSig "POSITION" 0]) D3D12Rows.LayoutState_init
              [D3D12Rows.mkLayout "POSITION" 0 1 0 4 3 false]) as [st|] eqn:Hst;
    [|vm_compute in Hst; discriminate].
  destruct (vbufferRow_active_iff_layout (λ s, s) (λ _, "id") (λ _, None)
              (D3D12PipelineStateViewer.mkUi false false)
              (Some [D3D12Rows.mkSig "POSITION" 0])
              [D3D12Rows.mkLayout "POSITION" 0 1 0 4 3 false] st 1%nat
              (D3D12PipelineStateViewer.mkVB 6 16 0) Hst ltac:(lia))
    as (r & Hr & Hact).
  destruct r as [row|].
  2:{ vm_compute in Hst. injection Hst as <-. vm_compute in Hr. discriminate. }
  exists st, row. split; [reflexivity|]. split; [exact Hr|].
  apply (Hact row eq_refl).
  eexists. split; [left|]. split; reflexivity.
Defined.
